(** * Vault migration engine: a shallow embedding and its properties

    This development embeds the migration server of the repository
    (the file that defines [retryWithBackoff], [createCustomItemViaCLI],
    [getVaultItemCount], [migrateVault], [migrateVaultWithProgress] and the
    [/migration/...] routes) and proves properties of it.

    Conventions of the embedding.
    - A JavaScript string is the Rocq [string] of the bytes of its UTF-8
      form.  [toLowerCase] and the regular expressions act on ASCII letters
      and digits, which is where the source's literals and patterns live;
      [trim] removes every blank of JavaScript, of one byte or more.
    - A key of a plain object may name a member the object inherits from
      [Object.prototype] ("constructor", "__proto__", "toString", ...):
      [obj[key]] is then that member, not [undefined].  [LogManager.log]
      throws when it is given such a name for vault id, so the server below
      takes its vault ids not to be such names: [Logger.log] is what a call
      leaves when it returns.  [LogManagerOps] has the methods of the log
      as they are written, for any id, and [AnyVaultId] the functions that
      are called with ids of every origin.
    - [a || b] on strings is [orStr]: the empty string is falsy.
    - An [async] function that may throw is a computation [M A]: it takes
      the state of the run and returns a [Result] and the new state.  A
      [throw] keeps the effects done before it, as in JavaScript.
    - Everything remote (the SDK client, the [op] command line tool, the
      clock, the cancellation requests arriving between two awaits) is a
      field of the record [Remote], over an abstract [World]. *)

From Stdlib Require Import String Ascii List Bool Arith PeanoNat Lia.
From Stdlib Require Import DecimalString.
Import ListNotations.
Local Open Scope string_scope.
Local Open Scope list_scope.
Local Open Scope nat_scope.

(* ================================================================== *)
(** * Part I: definitions                                              *)
(* ================================================================== *)

(** ** JavaScript strings *)

Module Js.

Definition code (c : ascii) : nat := nat_of_ascii c.

Definition between (lo hi : nat) (c : ascii) : bool :=
  (lo <=? code c) && (code c <=? hi).

(** [\d] *)
Definition isDigit : ascii -> bool := between 48 57.
(** [A-Z] and [a-z] *)
Definition isUpper : ascii -> bool := between 65 90.
Definition isLower : ascii -> bool := between 97 122.
(** The blanks [String.prototype.trim] removes (white space and line
    terminators) that are one byte long: TAB, LF, VT, FF, CR and the
    space. *)
Definition isSpace (c : ascii) : bool :=
  between 9 13 c || (code c =? 32).

(** The blanks of two bytes, U+00A0, and of three: U+1680, U+2000 to
    U+200A, U+2028, U+2029, U+202F, U+205F, U+3000 and U+FEFF. *)
Definition isSpace2 (a b : ascii) : bool :=
  (code a =? 194) && (code b =? 160).

Definition isSpace3 (a b c : ascii) : bool :=
  ((code a =? 225) && (code b =? 154) && (code c =? 128))
  || ((code a =? 226) && (code b =? 128)
      && (between 128 138 c || (code c =? 168) || (code c =? 169) || (code c =? 175)))
  || ((code a =? 226) && (code b =? 129) && (code c =? 159))
  || ((code a =? 227) && (code b =? 128) && (code c =? 128))
  || ((code a =? 239) && (code b =? 187) && (code c =? 191)).

Definition lowerChar (c : ascii) : ascii :=
  if isUpper c then ascii_of_nat (code c + 32) else c.

Fixpoint toLowerCase (s : string) : string :=
  match s with
  | EmptyString => EmptyString
  | String c r => String (lowerChar c) (toLowerCase r)
  end.

(** [s.startsWith(p)] *)
Fixpoint startsWith (s p : string) : bool :=
  match p, s with
  | EmptyString, _ => true
  | String a p', String b s' => Ascii.eqb a b && startsWith s' p'
  | String _ _, EmptyString => false
  end.

(** [s.includes(sub)] *)
Fixpoint includes (s sub : string) : bool :=
  startsWith s sub ||
  match s with
  | EmptyString => false
  | String _ r => includes r sub
  end.

Fixpoint trimStart (s : string) : string :=
  match s with
  | EmptyString => EmptyString
  | String a r =>
      if isSpace a then trimStart r
      else
        match r with
        | EmptyString => s
        | String b r2 =>
            if isSpace2 a b then trimStart r2
            else
              match r2 with
              | EmptyString => s
              | String c r3 => if isSpace3 a b c then trimStart r3 else s
              end
        end
  end.

(** The string is cut where what is left is blanks only.  No blank starts
    with a byte that continues a character, so the cut is never inside
    one. *)
Fixpoint trimEnd (s : string) : string :=
  match s with
  | EmptyString => EmptyString
  | String c r =>
      if String.eqb (trimStart s) EmptyString then EmptyString
      else String c (trimEnd r)
  end.

Definition trim (s : string) : string := trimEnd (trimStart s).

(** [s.slice(n)] and [s.slice(0, n)] for [n] within the string or not. *)
Fixpoint sliceFrom (n : nat) (s : string) : string :=
  match n, s with
  | 0, _ => s
  | S n', String _ r => sliceFrom n' r
  | S _, EmptyString => EmptyString
  end.

Fixpoint sliceTo (n : nat) (s : string) : string :=
  match n, s with
  | S n', String c r => String c (sliceTo n' r)
  | _, _ => EmptyString
  end.

(** [s.replace(a, b)] with one-character strings: the first [a] only. *)
Fixpoint replaceFirst (a b : ascii) (s : string) : string :=
  match s with
  | EmptyString => EmptyString
  | String c r => if Ascii.eqb c a then String b r else String c (replaceFirst a b r)
  end.

(** [a || b] on strings. *)
Definition orStr (a b : string) : string := if String.eqb a "" then b else a.

(** [a || b] where [a] may be [undefined]. *)
Definition orOpt (a : option string) (b : string) : string :=
  match a with
  | Some s => orStr s b
  | None => b
  end.

(** Truthiness of a value that is a string or [undefined]. *)
Definition truthy (a : option string) : bool :=
  match a with
  | Some s => negb (String.eqb s "")
  | None => false
  end.

(** The names of the members that every plain object inherits from
    [Object.prototype]: for such a key [obj[key]] is the member, a
    function or (for "__proto__") the prototype itself, and truthy. *)
Definition objectPrototypeMembers : list string :=
  ["constructor"; "__defineGetter__"; "__defineSetter__"; "hasOwnProperty";
   "__lookupGetter__"; "__lookupSetter__"; "isPrototypeOf"; "propertyIsEnumerable";
   "toString"; "valueOf"; "__proto__"; "toLocaleString"].

Definition namesInherited (key : string) : bool :=
  existsb (String.eqb key) objectPrototypeMembers.

(** A regular expression [^c1 c2 ... cn$] of one class per character. *)
Fixpoint matchSeq (cls : list (ascii -> bool)) (s : string) : bool :=
  match cls, s with
  | [], EmptyString => true
  | p :: ps, String c r => p c && matchSeq ps r
  | _, _ => false
  end.

(** A regular expression [^[class]{lo,hi}$]. *)
Fixpoint allChars (p : ascii -> bool) (s : string) : bool :=
  match s with
  | EmptyString => true
  | String c r => p c && allChars p r
  end.

Definition matchRepeat (p : ascii -> bool) (lo hi : nat) (s : string) : bool :=
  allChars p s && (lo <=? String.length s) && (String.length s <=? hi).

(** A text between double quotes, as several template literals print it. *)
Definition quoted (s : string) : string :=
  String (ascii_of_nat 34) (s ++ String (ascii_of_nat 34) EmptyString).

(** Template literals print a number in decimal. *)
Definition showNat (n : nat) : string := NilZero.string_of_uint (Nat.to_uint n).

End Js.

(** ** The SDK's item model

    The SDK package itself is not part of the repository; its enumerations
    are used by name only.  [ItemFieldType] is an enumeration whose values
    are compared and copied; the item categories are strings, and the
    members of [sdk.ItemCategory] the code reads are fields of
    [ItemCategory.t]. *)

Module ItemFieldType.

Inductive t :=
  | Text | Concealed | CreditCardType | CreditCardNumber | Phone | Url
  | Totp | Email | Reference | SshKey | Menu | MonthYear | Address | Date
  | Unsupported.

Definition eqb (a b : t) : bool :=
  match a, b with
  | Text, Text | Concealed, Concealed | CreditCardType, CreditCardType
  | CreditCardNumber, CreditCardNumber | Phone, Phone | Url, Url
  | Totp, Totp | Email, Email | Reference, Reference | SshKey, SshKey
  | Menu, Menu | MonthYear, MonthYear | Address, Address | Date, Date
  | Unsupported, Unsupported => true
  | _, _ => false
  end.

End ItemFieldType.

Module ItemCategory.

(** The members of [sdk.ItemCategory] the server reads.  [Custom] may be
    missing from the enumeration, which reads as [undefined]. *)
Record t := {
  Login : string;
  SecureNote : string;
  CreditCard : string;
  Document : string;
  SshKey : string;
  Custom : option string
}.

End ItemCategory.

(** [field.details.content], whatever the field type. *)
Record DetailsContent := {
  street : option string;
  city : option string;
  state : option string;
  zip : option string;
  country : option string;
  privateKey : option string;
  totp : option string
}.

Record Details := { content : option DetailsContent }.

(** A field as the SDK returns it: [id], [title] and [value] are strings
    and [fieldType] a member of the enumeration in the SDK's types;
    [label] is read by the server though the SDK does not declare it. *)
Record Field := {
  f_id : string;
  f_title : string;
  f_label : option string;
  f_fieldType : ItemFieldType.t;
  f_value : string;
  f_sectionId : option string;
  f_details : option Details
}.

(** The value of a destination field: a string, or (for a card type that
    happens to name a member every object literal inherits) that member. *)
Inductive FieldValue :=
  | VStr (s : string)
  | VInherited (key : string).

Record AddressContent := {
  a_street : string;
  a_city : string;
  a_country : string;
  a_zip : string;
  a_state : string
}.

(** A field of the item sent to the destination. *)
Record NewField := {
  nf_id : string;
  nf_title : string;
  nf_fieldType : ItemFieldType.t;
  nf_value : FieldValue;
  nf_sectionId : option string;
  nf_details : option AddressContent
}.

Definition setFieldType (t : ItemFieldType.t) (nf : NewField) : NewField :=
  {| nf_id := nf_id nf; nf_title := nf_title nf; nf_fieldType := t;
     nf_value := nf_value nf; nf_sectionId := nf_sectionId nf;
     nf_details := nf_details nf |}.

Definition setValue (v : FieldValue) (nf : NewField) : NewField :=
  {| nf_id := nf_id nf; nf_title := nf_title nf; nf_fieldType := nf_fieldType nf;
     nf_value := v; nf_sectionId := nf_sectionId nf;
     nf_details := nf_details nf |}.

Definition setSectionId (s : option string) (nf : NewField) : NewField :=
  {| nf_id := nf_id nf; nf_title := nf_title nf; nf_fieldType := nf_fieldType nf;
     nf_value := nf_value nf; nf_sectionId := s;
     nf_details := nf_details nf |}.

Definition setDetails (d : option AddressContent) (nf : NewField) : NewField :=
  {| nf_id := nf_id nf; nf_title := nf_title nf; nf_fieldType := nf_fieldType nf;
     nf_value := nf_value nf; nf_sectionId := nf_sectionId nf;
     nf_details := d |}.

(** ** Payment-card fields *)

Module Transcoder.
Import Js.

(** [cardTypeMap[key]]: the four own entries, and the two members with a
    lower-case name that the literal inherits from [Object.prototype]. *)
Definition cardTypeMap (key : string) : option FieldValue :=
  if String.eqb key "mc" then Some (VStr "Mastercard")
  else if String.eqb key "visa" then Some (VStr "Visa")
  else if String.eqb key "amex" then Some (VStr "American Express")
  else if String.eqb key "discover" then Some (VStr "Discover")
  else if String.eqb key "constructor" then Some (VInherited "constructor")
  else if String.eqb key "__proto__" then Some (VInherited "__proto__")
  else None.

(** [cardTypeMap[field.value.toLowerCase()] || field.value || "Unknown"] *)
Definition cardTypeValue (value : string) : FieldValue :=
  match cardTypeMap (toLowerCase value) with
  | Some v => v
  | None => VStr (orStr value "Unknown")
  end.

Definition slash : ascii := "/"%char.
Definition dash : ascii := "-"%char.

(** [/^\d{2}\/\d{4}$/], [/^\d{2}-\d{4}$/], [/^\d{2}\d{2}$/], [/^\d{2}\/\d{2}$/] *)
Definition reMonthSlashYear : list (ascii -> bool) :=
  [isDigit; isDigit; Ascii.eqb slash; isDigit; isDigit; isDigit; isDigit].
Definition reMonthDashYear : list (ascii -> bool) :=
  [isDigit; isDigit; Ascii.eqb dash; isDigit; isDigit; isDigit; isDigit].
Definition reFourDigits : list (ascii -> bool) :=
  [isDigit; isDigit; isDigit; isDigit].
Definition reMonthSlashShortYear : list (ascii -> bool) :=
  [isDigit; isDigit; Ascii.eqb slash; isDigit; isDigit].

(** The expiry block of the payment-card mapper: from
    [let expiryValue = field.value || ""] to the value it assigns. *)
Definition normalizeExpiry (value : string) : string :=
  let expiryValue := orStr value "" in
  if negb (String.eqb expiryValue "") then
    if matchSeq reMonthSlashYear expiryValue then expiryValue
    else if matchSeq reMonthDashYear expiryValue then replaceFirst dash slash expiryValue
    else if matchSeq reFourDigits expiryValue then
      sliceTo 2 expiryValue ++ "/20" ++ sliceFrom 2 expiryValue
    else if matchSeq reMonthSlashShortYear expiryValue then
      sliceTo 2 expiryValue ++ "/20" ++ sliceFrom 3 expiryValue
    else "01/1970"
  else "01/1970".

Definition builtInFieldIds : list string :=
  ["cardholder"; "type"; "number"; "ccnum"; "cvv"; "expiry"].

Definition hasTypeRole (field : Field) : bool :=
  String.eqb (f_id field) "type" || includes (toLowerCase (f_title field)) "type".

Definition hasExpiryRole (field : Field) : bool :=
  String.eqb (f_id field) "expiry"
  || includes (toLowerCase (f_title field)) "expiry"
  || includes (toLowerCase (f_title field)) "expiration".

Definition hasNumberRole (field : Field) : bool :=
  String.eqb (f_id field) "number" || String.eqb (f_id field) "ccnum"
  || includes (toLowerCase (f_title field)) "number".

Definition hasCvvRole (field : Field) : bool :=
  String.eqb (f_id field) "cvv" || includes (toLowerCase (f_title field)) "verification".

Definition hasPinRole (field : Field) : bool :=
  String.eqb (f_id field) "pin" || includes (toLowerCase (f_title field)) "pin".

(** The function mapped over [fullItem.fields] of a credit card. *)
Definition creditCardField (field : Field) : NewField :=
  let newField :=
    {| nf_id := orStr (f_id field) "unnamed";
       nf_title := orStr (f_title field) (orOpt (f_label field) "unnamed");
       nf_fieldType := f_fieldType field;
       nf_value := VStr (orStr (f_value field) "");
       nf_sectionId := f_sectionId field;
       nf_details := None |} in
  let newField :=
    if hasTypeRole field then
      setValue (cardTypeValue (f_value field))
               (setFieldType ItemFieldType.CreditCardType newField)
    else newField in
  let newField :=
    if hasExpiryRole field then
      setValue (VStr (normalizeExpiry (f_value field)))
               (setFieldType ItemFieldType.MonthYear newField)
    else newField in
  let newField :=
    if hasNumberRole field then setFieldType ItemFieldType.CreditCardNumber newField
    else newField in
  let newField :=
    if hasCvvRole field then setFieldType ItemFieldType.Concealed newField
    else newField in
  let newField :=
    if hasPinRole field then setFieldType ItemFieldType.Concealed newField
    else newField in
  if negb (truthy (nf_sectionId newField))
     && negb (existsb (String.eqb (nf_id newField)) builtInFieldIds)
  then setSectionId (Some "add more") newField
  else newField.

(** ** Fields of every other category *)

(** The chain of conditionals that copies a known field type and turns
    any other into plain text. *)
Definition destinationFieldType (t : ItemFieldType.t) : ItemFieldType.t :=
  if ItemFieldType.eqb t ItemFieldType.Text then ItemFieldType.Text
  else if ItemFieldType.eqb t ItemFieldType.Concealed then ItemFieldType.Concealed
  else if ItemFieldType.eqb t ItemFieldType.Totp then ItemFieldType.Totp
  else if ItemFieldType.eqb t ItemFieldType.Address then ItemFieldType.Address
  else if ItemFieldType.eqb t ItemFieldType.SshKey then ItemFieldType.SshKey
  else if ItemFieldType.eqb t ItemFieldType.Date then ItemFieldType.Date
  else if ItemFieldType.eqb t ItemFieldType.MonthYear then ItemFieldType.MonthYear
  else if ItemFieldType.eqb t ItemFieldType.Email then ItemFieldType.Email
  else if ItemFieldType.eqb t ItemFieldType.Phone then ItemFieldType.Phone
  else if ItemFieldType.eqb t ItemFieldType.Url then ItemFieldType.Url
  else if ItemFieldType.eqb t ItemFieldType.Menu then ItemFieldType.Menu
  else ItemFieldType.Text.

(** [field.details && field.details.content] *)
Definition detailsContent (field : Field) : option DetailsContent :=
  match f_details field with
  | Some d => content d
  | None => None
  end.

(** [/^[A-Z2-7]{16,32}$/i] *)
Definition isBase32Char (c : ascii) : bool :=
  isUpper c || isLower c || between 50 55 c.

Definition isPotentialTotpSeed (totpValue : string) : bool :=
  matchRepeat isBase32Char 16 32 totpValue.

Definition isValidTotpUri (totpValue : string) : bool :=
  startsWith totpValue "otpauth://totp/".

(** [field.details.content.member], [undefined] when a link is missing. *)
Definition contentMember (member : DetailsContent -> option string)
    (field : Field) : option string :=
  match detailsContent field with
  | Some c => member c
  | None => None
  end.

Definition hasContent (field : Field) : bool :=
  match detailsContent field with
  | Some _ => true
  | None => false
  end.

(** [field.value || field.details?.content?.totp || ""] *)
Definition totpValueOf (field : Field) : string :=
  orStr (f_value field) (orOpt (contentMember totp field) "").

(** The function mapped over [item.fields] of an item that is not a
    credit card. *)
Definition otherField (field : Field) : NewField :=
  let newField :=
    {| nf_id := orStr (f_id field) "unnamed";
       nf_title := orStr (f_title field) (orOpt (f_label field) "unnamed");
       nf_fieldType := destinationFieldType (f_fieldType field);
       nf_value := VStr (orStr (f_value field) "");
       nf_sectionId := f_sectionId field;
       nf_details := None |} in
  if ItemFieldType.eqb (f_fieldType field) ItemFieldType.Address && hasContent field then
    setValue (VStr "")
      (setDetails (Some {| a_street := orOpt (contentMember street field) "";
                           a_city := orOpt (contentMember city field) "";
                           a_country := orOpt (contentMember country field) "";
                           a_zip := orOpt (contentMember zip field) "";
                           a_state := orOpt (contentMember state field) "" |})
                  newField)
  else if ItemFieldType.eqb (f_fieldType field) ItemFieldType.SshKey && hasContent field then
    setValue (VStr (orOpt (contentMember privateKey field) (orStr (f_value field) "")))
             newField
  else if ItemFieldType.eqb (f_fieldType field) ItemFieldType.Totp then
    let totpValue := totpValueOf field in
    if isValidTotpUri totpValue || isPotentialTotpSeed totpValue then
      setValue (VStr totpValue) newField
    else
      setValue (VStr totpValue) (setFieldType ItemFieldType.Text newField)
  else if ItemFieldType.eqb (f_fieldType field) ItemFieldType.Date
          || ItemFieldType.eqb (f_fieldType field) ItemFieldType.MonthYear then
    setValue (VStr (orStr (f_value field) "")) newField
  else newField.

End Transcoder.

(** ** Computations that may throw *)

(** An [Error] object; only its [message] is ever read. *)
Record JsError := { message : string }.

Inductive Result (A : Type) :=
  | Ok (a : A)
  | Throw (e : JsError).
Arguments Ok {A} a.
Arguments Throw {A} e.

(** A computation over a state [S]: the effects done before a [throw]
    stay done. *)
Definition M (S A : Type) : Type := S -> Result A * S.

Definition ret {S A} (a : A) : M S A := fun s => (Ok a, s).

Definition throw {S A} (e : JsError) : M S A := fun s => (Throw e, s).

Definition bind {S A B} (m : M S A) (k : A -> M S B) : M S B :=
  fun s =>
    match m s with
    | (Ok a, s') => k a s'
    | (Throw e, s') => (Throw e, s')
    end.

(** [try { m } catch (error) { handler error }] *)
Definition tryCatch {S A} (m : M S A) (handler : JsError -> M S A) : M S A :=
  fun s =>
    match m s with
    | (Ok a, s') => (Ok a, s')
    | (Throw e, s') => handler e s'
    end.

(** [try { m } finally { cleanup }] *)
Definition tryFinally {S A} (m : M S A) (cleanup : M S unit) : M S A :=
  fun s =>
    match m s with
    | (r, s') =>
        match cleanup s' with
        | (Ok _, s'') => (r, s'')
        | (Throw e, s'') => (Throw e, s'')
        end
    end.

(** State access. *)
Definition gets {S A} (f : S -> A) : M S A := fun s => (Ok (f s), s).
Definition modify {S} (f : S -> S) : M S unit := fun s => (Ok tt, f s).

(** A computation over [S] run inside a larger state [S * R]. *)
Definition lift {S R A} (m : M S A) : M (S * R) A :=
  fun sr =>
    match m (fst sr) with
    | (r, s') => (r, (s', snd sr))
    end.

Declare Scope js_scope.
Delimit Scope js_scope with js.
Notation "x <- m ;; k" := (bind m (fun x => k))
  (at level 61, m at next level, right associativity) : js_scope.
Notation "m ;;; k" := (bind m (fun _ => k))
  (at level 61, right associativity) : js_scope.
Local Open Scope js_scope.

(** ** retryWithBackoff *)

Module Retry.
Import Js.

(** [error.message.includes('data conflict') || error.message.includes('rate limit')] *)
Definition isTransient (error : JsError) : bool :=
  includes (message error) "data conflict" || includes (message error) "rate limit".

Section RetryWithBackoff.
Context {St A : Type}.
(** [await new Promise(resolve => setTimeout(resolve, delay))] *)
Variable sleep : nat -> M St unit.
(** [logger.warning(null, `Retrying attempt ...`)] *)
Variable warnRetry : nat -> nat -> JsError -> M St unit.

(** The [for] loop from [attempt] on, with [remaining] iterations left:
    [remaining = maxRetries + 1 - attempt] at every entry.  Leaving the
    loop returns [undefined], which is [None]. *)
Fixpoint retryLoop (fn : M St A) (maxRetries baseDelay : nat)
    (remaining attempt : nat) : M St (option A) :=
  match remaining with
  | 0 => ret None
  | S remaining' =>
      tryCatch (a <- fn ;; ret (Some a))
        (fun error =>
           if isTransient error && (attempt <? maxRetries) then
             let delay := baseDelay * 2 ^ (attempt - 1) in
             warnRetry attempt delay error ;;;
             sleep delay ;;;
             retryLoop fn maxRetries baseDelay remaining' (S attempt)
           else throw error)
  end.

Definition retryWithBackoff (fn : M St A) (maxRetries baseDelay : nat) : M St (option A) :=
  retryLoop fn maxRetries baseDelay maxRetries 1.

End RetryWithBackoff.

(** The default arguments. *)
Definition defaultMaxRetries : nat := 3.
Definition defaultBaseDelay : nat := 1000.

End Retry.

(** ** LogManager

    The in-memory log.  Time stamps and the console copy are left out;
    [vaultLogs] is the global log grouped by vault, so only its number of
    keys is computed (in [getSummary]).

    [log] pushes the entry to [this.vaultLogs[vaultId]].  For a vault id
    that names a member of [Object.prototype] this is the member, not an
    array: the call throws once the entry is in the global log, adds no
    key and counts nothing.  [Logger.log] is the log after a call that
    returns, that is for every other vault id; [LogManagerOps.log] is the
    method for any id. *)

Inductive Level := INFO | WARNING | ERROR.

Record LogRecord := {
  level : Level;
  logVaultId : option string;
  logMessage : string;
  logItemId : option string
}.

Record FailedItem := {
  failedVaultId : string;
  failedVaultName : string;
  failedItemId : string;
  failedItemTitle : string;
  failedError : string
}.

Record VaultStats := {
  statsVaultName : string;
  statsSourceItemCount : nat;
  statsDestItemCount : nat;
  statsSuccessCount : nat;
  statsFailureCount : nat
}.

Record LogManager := {
  globalLog : list LogRecord;
  errorCount : nat;
  warningCount : nat;
  failedItems : list FailedItem;
  (** the object [vaultSummaries]: the last entry of a vault id is its value *)
  vaultSummaries : list (string * VaultStats)
}.

Record LogSummary := {
  totalEntries : nat;
  errors : nat;
  warnings : nat;
  vaults : nat;
  failedItemCount : nat
}.

Module Logger.

Definition empty : LogManager :=
  {| globalLog := []; errorCount := 0; warningCount := 0;
     failedItems := []; vaultSummaries := [] |}.

(** [log(level, vaultId, message, metadata)] *)
Definition log (lv : Level) (vaultId : option string) (msg : string)
    (itemId : option string) (lm : LogManager) : LogManager :=
  {| globalLog := globalLog lm ++
       [{| level := lv; logVaultId := vaultId; logMessage := msg; logItemId := itemId |}];
     errorCount := match lv with ERROR => S (errorCount lm) | _ => errorCount lm end;
     warningCount := match lv with WARNING => S (warningCount lm) | _ => warningCount lm end;
     failedItems := failedItems lm;
     vaultSummaries := vaultSummaries lm |}.

(** [logFailedItem(vaultId, vaultName, itemId, itemTitle, error)] *)
Definition logFailedItem (vaultId vaultName itemId itemTitle : string)
    (error : JsError) (lm : LogManager) : LogManager :=
  let lm' :=
    {| globalLog := globalLog lm; errorCount := errorCount lm;
       warningCount := warningCount lm;
       failedItems := failedItems lm ++
         [{| failedVaultId := vaultId; failedVaultName := vaultName;
             failedItemId := itemId; failedItemTitle := itemTitle;
             failedError := Js.orStr (message error) "Error" |}];
       vaultSummaries := vaultSummaries lm |} in
  log ERROR (Some vaultId)
    ("Failed to migrate item [" ++ itemId ++ "] " ++ Js.quoted itemTitle ++ ": "
       ++ message error)
    (Some itemId) lm'.

(** [logVaultComplete(vaultId, vaultName, stats)] *)
Definition logVaultComplete (vaultId : string) (stats : VaultStats)
    (lm : LogManager) : LogManager :=
  {| globalLog := globalLog lm; errorCount := errorCount lm;
     warningCount := warningCount lm; failedItems := failedItems lm;
     vaultSummaries := vaultSummaries lm ++ [(vaultId, stats)] |}.

(** The keys of [vaultLogs]: the truthy vault ids that were logged and
    got an array of their own. *)
Definition loggedVaults (lm : LogManager) : list string :=
  nodup string_dec
    (flat_map (fun e => match logVaultId e with
                        | Some v =>
                            if String.eqb v "" || Js.namesInherited v then [] else [v]
                        | None => []
                        end) (globalLog lm)).

Definition getSummary (lm : LogManager) : LogSummary :=
  {| totalEntries := length (globalLog lm);
     errors := errorCount lm;
     warnings := warningCount lm;
     vaults := length (loggedVaults lm);
     failedItemCount := length (failedItems lm) |}.

End Logger.

(** ** What the server talks to *)

Inductive ItemListFilter := ActiveItems | ArchivedItems.

Record ItemOverview := {
  overviewId : string;
  overviewTitle : string;
  overviewCategory : option string
}.

Record ItemSection := {
  sectionId : string;
  sectionTitle : option string;
  sectionLabel : option string
}.

Record ItemFile := {
  fileName : string;
  fileContent : option string;
  fileSectionId : option string;
  fileFieldId : option string
}.

Record Website := {
  websiteUrl : option string;
  websiteHref : option string;
  websiteLabel : option string;
  websiteAutofillBehavior : option string
}.

(** An item as [listVaultItems] returns it. *)
Record Item := {
  itemId : string;
  itemTitle : string;
  itemCategory : option string;
  itemFields : list Field;
  itemSections : list ItemSection;
  itemFiles : list ItemFile;
  itemTags : list string;
  itemWebsites : list Website;
  itemNotes : string
}.

Record DocumentAttributes := { documentName : string }.

(** An item as [client.items.get] returns it. *)
Record FullItem := {
  fullCategory : option string;
  fullDocument : option DocumentAttributes;
  fullFields : list Field
}.

(** The JSON the command line tool prints for an item: the members the
    bridge touches, and the rest of the text. *)
Record RawField := {
  rawFieldId : option string;
  rawFieldReference : option string;
  rawFieldRest : string
}.

Record RawItem := {
  rawId : option string;
  rawCreatedAt : option string;
  rawUpdatedAt : option string;
  rawLastEditedBy : option string;
  rawVersion : option string;
  rawCategory : option string;
  rawCategoryId : option string;
  rawVaultId : option string;
  rawFields : option (list RawField);
  rawRest : string
}.

Record Template := {
  templateName : option string;
  templateCategory : option string;
  templateUuid : option string
}.

(** The item sent to [client.items.create]. *)
Record NewDocument := { newDocumentName : string; newDocumentContent : string }.
Record NewSection := { newSectionId : string; newSectionTitle : string }.
Record NewFile := {
  newFileName : string;
  newFileContent : string;
  newFileSectionId : string;
  newFileFieldId : string
}.
Record NewWebsite := {
  newWebsiteUrl : string;
  newWebsiteLabel : string;
  newWebsiteAutofillBehavior : string
}.

Record NewItem := {
  newTitle : string;
  newCategory : string;
  newVaultId : string;
  newNotes : option string;
  newDocument : option NewDocument;
  newFields : option (list NewField);
  newSections : option (list NewSection);
  newFiles : option (list NewFile);
  newTags : option (list string);
  newWebsites : option (list NewWebsite)
}.

Definition setCategory (c : string) (n : NewItem) : NewItem :=
  {| newTitle := newTitle n; newCategory := c; newVaultId := newVaultId n;
     newNotes := newNotes n; newDocument := newDocument n; newFields := newFields n;
     newSections := newSections n; newFiles := newFiles n; newTags := newTags n;
     newWebsites := newWebsites n |}.

Definition setNotes (x : option string) (n : NewItem) : NewItem :=
  {| newTitle := newTitle n; newCategory := newCategory n; newVaultId := newVaultId n;
     newNotes := x; newDocument := newDocument n; newFields := newFields n;
     newSections := newSections n; newFiles := newFiles n; newTags := newTags n;
     newWebsites := newWebsites n |}.

Definition setDocument (x : option NewDocument) (n : NewItem) : NewItem :=
  {| newTitle := newTitle n; newCategory := newCategory n; newVaultId := newVaultId n;
     newNotes := newNotes n; newDocument := x; newFields := newFields n;
     newSections := newSections n; newFiles := newFiles n; newTags := newTags n;
     newWebsites := newWebsites n |}.

Definition setFields (x : option (list NewField)) (n : NewItem) : NewItem :=
  {| newTitle := newTitle n; newCategory := newCategory n; newVaultId := newVaultId n;
     newNotes := newNotes n; newDocument := newDocument n; newFields := x;
     newSections := newSections n; newFiles := newFiles n; newTags := newTags n;
     newWebsites := newWebsites n |}.

Definition setSections (x : option (list NewSection)) (n : NewItem) : NewItem :=
  {| newTitle := newTitle n; newCategory := newCategory n; newVaultId := newVaultId n;
     newNotes := newNotes n; newDocument := newDocument n; newFields := newFields n;
     newSections := x; newFiles := newFiles n; newTags := newTags n;
     newWebsites := newWebsites n |}.

Definition setFiles (x : option (list NewFile)) (n : NewItem) : NewItem :=
  {| newTitle := newTitle n; newCategory := newCategory n; newVaultId := newVaultId n;
     newNotes := newNotes n; newDocument := newDocument n; newFields := newFields n;
     newSections := newSections n; newFiles := x; newTags := newTags n;
     newWebsites := newWebsites n |}.

Definition setTags (x : option (list string)) (n : NewItem) : NewItem :=
  {| newTitle := newTitle n; newCategory := newCategory n; newVaultId := newVaultId n;
     newNotes := newNotes n; newDocument := newDocument n; newFields := newFields n;
     newSections := newSections n; newFiles := newFiles n; newTags := x;
     newWebsites := newWebsites n |}.

Definition setWebsites (x : option (list NewWebsite)) (n : NewItem) : NewItem :=
  {| newTitle := newTitle n; newCategory := newCategory n; newVaultId := newVaultId n;
     newNotes := newNotes n; newDocument := newDocument n; newFields := newFields n;
     newSections := newSections n; newFiles := newFiles n; newTags := newTags n;
     newWebsites := x |}.

(** A vault to migrate: [{ id, name }]. *)
Record VaultRef := { vaultRefId : string; vaultRefName : string }.

(** An instance of the class [OnePasswordSDK]: the token and the client,
    [null] until [initializeClient] sets it. *)
Record OnePasswordSDK (Client : Type) := {
  sdkToken : string;
  sdkClient : option Client
}.
Arguments sdkToken {Client} _.
Arguments sdkClient {Client} _.

(** Everything outside the process, as operations on an abstract [World]:
    the SDK client, the [op] command line tool (each [execSync] with the
    [JSON.parse] of its output), the temporary file, the clock and timers,
    and the flag [isMigrationCancelled], which [POST /migration/cancel]
    sets between two awaits of a run.  [listVaultItems] is a method of the
    server's own class; it reads the files of an item concurrently, so it
    is one step here, which also returns the records it logged. *)
Record Remote (World Client : Type) := {
  createClient : string -> World -> Result Client * World;
  vaultsList : Client -> World -> Result (list VaultRef) * World;
  itemsList : Client -> string -> ItemListFilter -> World -> Result (list ItemOverview) * World;
  itemsGet : Client -> string -> string -> World -> Result FullItem * World;
  filesRead : Client -> string -> string -> DocumentAttributes -> World -> Result string * World;
  itemsCreate : Client -> NewItem -> World -> Result unit * World;
  listVaultItems : OnePasswordSDK Client -> string -> World ->
                   (Result (list Item) * list LogRecord) * World;
  opVaultCreate : string -> string -> World -> Result string * World;
  opItemGet : string -> string -> string -> World -> Result RawItem * World;
  opItemTemplateList : string -> World -> Result (list Template) * World;
  opItemCreate : string -> string -> string -> World -> Result string * World;
  writeFileSync : string -> RawItem -> World -> Result unit * World;
  unlinkSync : string -> World -> Result unit * World;
  dateNow : World -> nat;
  setTimeout : nat -> World -> World;
  isMigrationCancelled : World -> bool;
  clearMigrationCancelled : World -> World
}.
Arguments createClient {World Client} _.
Arguments vaultsList {World Client} _.
Arguments itemsList {World Client} _.
Arguments itemsGet {World Client} _.
Arguments filesRead {World Client} _.
Arguments itemsCreate {World Client} _.
Arguments listVaultItems {World Client} _.
Arguments opVaultCreate {World Client} _.
Arguments opItemGet {World Client} _.
Arguments opItemTemplateList {World Client} _.
Arguments opItemCreate {World Client} _.
Arguments writeFileSync {World Client} _.
Arguments unlinkSync {World Client} _.
Arguments dateNow {World Client} _.
Arguments setTimeout {World Client} _.
Arguments isMigrationCancelled {World Client} _.
Arguments clearMigrationCancelled {World Client} _.

(** The state every function of the server shares: the world and the
    module-level [logger]. *)
Record Env (World : Type) := {
  world : World;
  logger : LogManager
}.
Arguments world {World} _.
Arguments logger {World} _.

(** ** The variables of one call of [migrateVault]

    [logEntry] and the counters are assigned both in the [try] blocks and
    in their [catch] blocks, so they are state: the [Frame] of the call. *)

Inductive VaultStatus := InProgress | Cancelled | Completed | Failed.

Record LoggedItem := {
  loggedId : string;
  loggedTitle : string;
  loggedSuccess : bool;
  loggedError : option string
}.

Record LogEntry := {
  status : VaultStatus;
  entryErrors : list string;
  itemResults : list LoggedItem;
  entrySourceItemCount : option nat;
  entryNewVaultId : option string;
  entryDestItemCount : option nat;
  entrySuccessCount : option nat;
  entryFailureCount : option nat
}.

(** One entry of [migrationResults].  [progress] is the floating point
    number [(processedItems / items.length) * 100]; it is kept as the two
    integers it is computed from. *)
Record ItemResult := {
  resultId : string;
  resultTitle : string;
  resultSuccess : bool;
  resultError : option string;
  resultProgress : nat * nat
}.

Record Frame := {
  logEntry : LogEntry;
  migrationResults : list ItemResult;
  processedItems : nat;
  successCount : nat;
  failureCount : nat
}.

(** What [migrateVault] returns. *)
Record VaultResult := {
  itemsLength : nat;
  vaultResults : list ItemResult;
  sourceItemCount : nat;
  destItemCount : option nat;
  vaultSuccessCount : nat;
  vaultFailureCount : nat
}.

Definition initialLogEntry : LogEntry :=
  {| status := InProgress; entryErrors := []; itemResults := [];
     entrySourceItemCount := None; entryNewVaultId := None;
     entryDestItemCount := None; entrySuccessCount := None;
     entryFailureCount := None |}.

Definition initialFrame : Frame :=
  {| logEntry := initialLogEntry; migrationResults := [];
     processedItems := 0; successCount := 0; failureCount := 0 |}.

Definition setLogEntry (e : LogEntry) (fr : Frame) : Frame :=
  {| logEntry := e; migrationResults := migrationResults fr;
     processedItems := processedItems fr; successCount := successCount fr;
     failureCount := failureCount fr |}.

Definition setStatus (st : VaultStatus) (e : LogEntry) : LogEntry :=
  {| status := st; entryErrors := entryErrors e; itemResults := itemResults e;
     entrySourceItemCount := entrySourceItemCount e;
     entryNewVaultId := entryNewVaultId e;
     entryDestItemCount := entryDestItemCount e;
     entrySuccessCount := entrySuccessCount e;
     entryFailureCount := entryFailureCount e |}.

Definition pushEntryError (msg : string) (e : LogEntry) : LogEntry :=
  {| status := status e; entryErrors := entryErrors e ++ [msg];
     itemResults := itemResults e;
     entrySourceItemCount := entrySourceItemCount e;
     entryNewVaultId := entryNewVaultId e;
     entryDestItemCount := entryDestItemCount e;
     entrySuccessCount := entrySuccessCount e;
     entryFailureCount := entryFailureCount e |}.

Definition pushLoggedItem (i : LoggedItem) (e : LogEntry) : LogEntry :=
  {| status := status e; entryErrors := entryErrors e;
     itemResults := itemResults e ++ [i];
     entrySourceItemCount := entrySourceItemCount e;
     entryNewVaultId := entryNewVaultId e;
     entryDestItemCount := entryDestItemCount e;
     entrySuccessCount := entrySuccessCount e;
     entryFailureCount := entryFailureCount e |}.

Definition setEntrySourceItemCount (n : nat) (e : LogEntry) : LogEntry :=
  {| status := status e; entryErrors := entryErrors e; itemResults := itemResults e;
     entrySourceItemCount := Some n;
     entryNewVaultId := entryNewVaultId e;
     entryDestItemCount := entryDestItemCount e;
     entrySuccessCount := entrySuccessCount e;
     entryFailureCount := entryFailureCount e |}.

Definition setEntryNewVaultId (v : string) (e : LogEntry) : LogEntry :=
  {| status := status e; entryErrors := entryErrors e; itemResults := itemResults e;
     entrySourceItemCount := entrySourceItemCount e;
     entryNewVaultId := Some v;
     entryDestItemCount := entryDestItemCount e;
     entrySuccessCount := entrySuccessCount e;
     entryFailureCount := entryFailureCount e |}.

(** The four assignments to [logEntry] after the destination is counted. *)
Definition completeEntry (dest succeeded failed : nat) (e : LogEntry) : LogEntry :=
  {| status := Completed; entryErrors := entryErrors e; itemResults := itemResults e;
     entrySourceItemCount := entrySourceItemCount e;
     entryNewVaultId := entryNewVaultId e;
     entryDestItemCount := Some dest;
     entrySuccessCount := Some succeeded;
     entryFailureCount := Some failed |}.

(** [processedItems++; successCount++] and the two pushes of a success. *)
Definition recordSuccess (item : Item) (total : nat) (fr : Frame) : Frame :=
  let processed := S (processedItems fr) in
  {| logEntry :=
       pushLoggedItem {| loggedId := itemId item; loggedTitle := itemTitle item;
                         loggedSuccess := true; loggedError := None |} (logEntry fr);
     migrationResults := migrationResults fr ++
       [{| resultId := itemId item; resultTitle := itemTitle item;
           resultSuccess := true; resultError := None;
           resultProgress := (processed, total) |}];
     processedItems := processed;
     successCount := S (successCount fr);
     failureCount := failureCount fr |}.

(** [processedItems++; failureCount++] and the three pushes of a failure. *)
Definition recordFailure (item : Item) (total : nat) (error : JsError) (fr : Frame)
    : Frame :=
  let processed := S (processedItems fr) in
  {| logEntry :=
       pushLoggedItem {| loggedId := itemId item; loggedTitle := itemTitle item;
                         loggedSuccess := false;
                         loggedError := Some (message error) |}
         (pushEntryError ("Item " ++ itemId item ++ " (" ++ itemTitle item ++ "): "
                            ++ message error) (logEntry fr));
     migrationResults := migrationResults fr ++
       [{| resultId := itemId item; resultTitle := itemTitle item;
           resultSuccess := false; resultError := Some (message error);
           resultProgress := (processed, total) |}];
     processedItems := processed;
     successCount := successCount fr;
     failureCount := S (failureCount fr) |}.

(** ** What the routes answer *)

Record Stats := {
  statSuccessCount : nat;
  statFailureCount : nat;
  statSourceItemCount : nat;
  statDestItemCount : option nat
}.

(** The answer of [POST /migration/migrate-vault]. *)
Record HttpResponse := {
  httpStatus : nat;
  httpSuccess : bool;
  httpMessage : string;
  httpResults : list ItemResult;
  httpStats : option Stats
}.

(** The [outcome] of a vault in a bulk run: [phase: 'completed'] with the
    result of the vault, or [phase: 'failed'] with the error. *)
Inductive Outcome :=
  | VaultDone (vaultId vaultName : string) (success : bool) (msg : string)
      (result : VaultResult)
  | VaultFailed (vaultId vaultName : string) (msg : string) (error : string).

Definition outcomeSuccess (o : Outcome) : bool :=
  match o with
  | VaultDone _ _ success _ _ => success
  | VaultFailed _ _ _ _ => false
  end.

(** The events [GET /migration/migrate-all-vaults] writes.  The [progress]
    numbers are kept as the integers they are computed from.  The
    keep-alive comments of the timer are left out. *)
Inductive SseEvent :=
  | Preparing (completedVaults totalVaults : nat) (vaultId vaultName : string)
  | Migrating (completedVaults totalVaults : nat) (vaultId vaultName : string)
      (itemsProcessed totalItems succeeded failed : nat)
  | VaultOutcome (completedVaults totalVaults : nat) (outcome : Outcome)
  | CancelledByUser (results : list Outcome)
  | Finished (success : bool) (msg : string) (results : list Outcome)
      (summary : LogSummary)
  | FinishedWithError (msg : string).

Section Server.
Context {World Client : Type}.
Variable remote : Remote World Client.
Variable categories : ItemCategory.t.
(** [sdk.AutofillBehavior.AnywhereOnWebsite] *)
Variable anywhereOnWebsite : string.

Local Abbreviation Env := (Env World).
Local Abbreviation SDK := (OnePasswordSDK Client).

(** A remote operation as a step of a computation. *)
Definition call {A} (op : World -> Result A * World) : M Env A :=
  fun s =>
    match op (world s) with
    | (r, w') => (r, {| world := w'; logger := logger s |})
    end.

Definition logAt (lv : Level) (vaultId : option string) (msg : string)
    (item : option string) : M Env unit :=
  modify (fun s => {| world := world s;
                      logger := Logger.log lv vaultId msg item (logger s) |}).

Definition logInfo (vaultId : option string) (msg : string) : M Env unit :=
  logAt INFO vaultId msg None.
Definition logWarning (vaultId : option string) (msg : string) : M Env unit :=
  logAt WARNING vaultId msg None.
Definition logError (vaultId : option string) (msg : string) : M Env unit :=
  logAt ERROR vaultId msg None.

Definition sleep (delay : nat) : M Env unit :=
  modify (fun s => {| world := setTimeout remote delay (world s); logger := logger s |}).

Definition warnRetry (attempt delay : nat) (error : JsError) : M Env unit :=
  logWarning None ("Retrying attempt " ++ Js.showNat attempt ++ " after "
                   ++ Js.showNat delay ++ "ms due to " ++ message error).

(** Reading a member of [undefined] or [null]. *)
Definition typeError {St A} (what : string) : M St A :=
  throw {| message := "Cannot read properties of " ++ what |}.

(** [retryWithBackoff(fn)] with the default arguments, at a call site that
    goes on with the value. *)
Definition retryWithBackoff {A} (fn : M Env A) : M Env (option A) :=
  Retry.retryWithBackoff sleep warnRetry fn Retry.defaultMaxRetries Retry.defaultBaseDelay.

(** [sdk.client.items...]: the client of an instance. *)
Definition clientOf (sdk : SDK) : M Env Client :=
  match sdkClient sdk with
  | Some c => ret c
  | None => typeError "null (reading 'items')"
  end.

(** [initializeClient()], returning the client it stores in [this.client]. *)
Definition initializeClient (token : string) : M Env Client :=
  if String.eqb token "" then throw {| message := "Service account token is required." |}
  else
    tryCatch
      (logInfo None "Initializing 1Password SDK client" ;;;
       call (createClient remote token))
      (fun error =>
         logError None ("Failed to initialize client: " ++ message error) ;;;
         throw {| message := "Failed to initialize client: " ++ message error |}).

(** [getVaultItemCount(vaultId, token, vaultName)] *)
Definition getVaultItemCount (vaultId token : string) : M Env nat :=
  tryCatch
    (client <- initializeClient token ;;
     activeItems <- call (itemsList remote client vaultId ActiveItems) ;;
     let activeCount := length activeItems in
     tryCatch
       (archivedItems <- call (itemsList remote client vaultId ArchivedItems) ;;
        let archivedCount := length archivedItems in
        if 0 <? archivedCount then
          logInfo (Some vaultId) ("Contains " ++ Js.showNat archivedCount ++ " archived items")
        else ret tt)
       (fun archiveError =>
          logWarning (Some vaultId)
            ("Could not fetch archived items: " ++ message archiveError)) ;;;
     ret activeCount)
    (fun error =>
       logError (Some vaultId) ("Error fetching item count: " ++ message error) ;;;
       ret 0).

(** ** createCustomItemViaCLI

    The [console.log] lines are left out, except where they read a member
    that may be missing. *)

Definition customTemplateHint : string :=
  "Please provide a Custom Template UUID in the connection form".

(** [templates.find(t => t.name === "Custom" || t.category === "CUSTOM")] *)
Definition isCustomTemplate (t : Template) : bool :=
  match templateName t with
  | Some n => String.eqb n "Custom"
  | None => false
  end
  || match templateCategory t with
     | Some c => String.eqb c "CUSTOM"
     | None => false
     end.

(** The [else] branch of step 3: the template of the destination account. *)
Definition detectCustomTemplate (destToken vaultId : string) : M Env (option string) :=
  logInfo (Some vaultId) "Getting CUSTOM template list from destination" ;;;
  tryCatch
    (templates <- call (opItemTemplateList remote destToken) ;;
     match find isCustomTemplate templates with
     | None =>
         throw {| message := "No CUSTOM template found in destination account. "
                   ++ "Please provide a Custom Template UUID in the connection form "
                   ++ "or ensure custom templates are enabled." |}
     | Some customTemplate =>
         let destCategoryId := templateUuid customTemplate in
         logInfo (Some vaultId)
           ("Found CUSTOM template in destination with UUID: "
              ++ Js.orOpt destCategoryId "undefined") ;;;
         ret destCategoryId
     end)
    (fun error =>
       throw {| message := "Failed to get CUSTOM template: " ++ message error ++ ". "
                 ++ customTemplateHint ++ "." |}).

(** Step 4: the item as it is written for the destination. *)
Definition prepareRawItem (destCategoryId : option string) (destVaultId : string)
    (sourceItem : RawItem) : RawItem :=
  {| rawId := None; rawCreatedAt := None; rawUpdatedAt := None;
     rawLastEditedBy := None; rawVersion := None;
     rawCategory := Some "CUSTOM";
     rawCategoryId := destCategoryId;
     rawVaultId := Some destVaultId;
     rawFields :=
       match rawFields sourceItem with
       | Some fields =>
           Some (map (fun field => {| rawFieldId := None; rawFieldReference := None;
                                      rawFieldRest := rawFieldRest field |}) fields)
       | None => None
       end;
     rawRest := rawRest sourceItem |}.

(** [customTemplateId && customTemplateId.trim() !== ''] *)
Definition templateIdGiven (customTemplateId : option string) : bool :=
  Js.truthy customTemplateId
  && negb (String.eqb (Js.trim (Js.orOpt customTemplateId "")) "").

Definition createCustomItemViaCLI (item : Item)
    (sourceToken destToken sourceVaultId destVaultId vaultId : string)
    (customTemplateId : option string) : M Env unit :=
  tryCatch
    (logInfo (Some vaultId)
       ("Fetching CUSTOM item " ++ itemId item ++ " via CLI from source") ;;;
     sourceItem <- call (opItemGet remote sourceToken (itemId item) sourceVaultId) ;;
     (* [sourceItem.fields.slice(0, 3)] of step 2 *)
     match rawFields sourceItem with
     | None => typeError "undefined (reading 'slice')"
     | Some _ =>
         destCategoryId <-
           (if templateIdGiven customTemplateId then
              let destCategoryId := Js.trim (Js.orOpt customTemplateId "") in
              logInfo (Some vaultId)
                ("Using provided CUSTOM template UUID: " ++ destCategoryId) ;;;
              ret (Some destCategoryId)
            else detectCustomTemplate destToken vaultId) ;;
         let prepared := prepareRawItem destCategoryId destVaultId sourceItem in
         now <- gets (fun s => dateNow remote (world s)) ;;
         let tmpFile := ("/tmp/op-custom-item-" ++ itemId item ++ "-"
                           ++ Js.showNat now ++ ".json")%string in
         logInfo (Some vaultId) ("Writing CUSTOM item template to " ++ tmpFile) ;;;
         call (writeFileSync remote tmpFile prepared) ;;;
         tryFinally
           (logInfo (Some vaultId)
              ("Creating CUSTOM item " ++ Js.quoted (itemTitle item)
                 ++ " via CLI in destination") ;;;
            call (opItemCreate remote destToken destVaultId tmpFile) ;;;
            logInfo (Some vaultId)
              ("Successfully created CUSTOM item " ++ Js.quoted (itemTitle item)
                 ++ " via CLI"))
           (tryCatch
              (call (unlinkSync remote tmpFile) ;;;
               logInfo (Some vaultId) ("Cleaned up temp file " ++ tmpFile))
              (fun cleanupError =>
                 logWarning (Some vaultId)
                   ("Failed to clean up temp file " ++ tmpFile ++ ": "
                      ++ message cleanupError)))
     end)
    (fun error =>
       logError (Some vaultId)
         ("Failed to create CUSTOM item via CLI: " ++ message error) ;;;
       throw error).

(** ** Building the destination item

    The part of the loop body of [migrateVault] from
    [const newItem = {...}] to the websites; [migrateVaultWithProgress]
    repeats it line for line. *)

Definition optEqb (a b : option string) : bool :=
  match a, b with
  | Some x, Some y => String.eqb x y
  | None, None => true
  | _, _ => false
  end.

(** [String(item.category)] *)
Definition categoryString (c : option string) : string :=
  match c with
  | Some s => s
  | None => "undefined"
  end.

Definition isCustomItem (item : Item) : bool :=
  let category := itemCategory item in
  let categoryStr := categoryString category in
  optEqb category (Some "CUSTOM")
  || optEqb category (Some "Custom")
  || optEqb category (Some "Unsupported")
  || optEqb category (ItemCategory.Custom categories)
  || String.eqb categoryStr "Custom"
  || String.eqb categoryStr "CUSTOM"
  || String.eqb categoryStr "Unsupported"
  || String.eqb (Js.toLowerCase categoryStr) "custom"
  || String.eqb (Js.toLowerCase categoryStr) "unsupported".

Definition isCategory (item : Item) (c : string) : bool :=
  optEqb (itemCategory item) (Some c).

Definition initialNewItem (destVaultId : string) (item : Item) : NewItem :=
  {| newTitle := itemTitle item;
     newCategory := Js.orOpt (itemCategory item) (ItemCategory.Login categories);
     newVaultId := destVaultId;
     newNotes := None; newDocument := None; newFields := None;
     newSections := None; newFiles := None; newTags := None; newWebsites := None |}.

Definition withNotes (item : Item) (newItem : NewItem) : NewItem :=
  if negb (String.eqb (itemNotes item) "")
     && negb (String.eqb (Js.trim (itemNotes item)) "")
  then setNotes (Some (itemNotes item)) newItem
  else if isCategory item (ItemCategory.SecureNote categories)
  then setNotes (Some "Migrated Secure Note") newItem
  else newItem.

(** [retryWithBackoff(() => sourceSDK.client.items.get(vaultId, item.id))] *)
Definition getFullItem (sourceSDK : SDK) (vaultId : string) (item : Item)
    : M Env (option FullItem) :=
  retryWithBackoff
    (client <- clientOf sourceSDK ;;
     call (itemsGet remote client vaultId (itemId item))).

Definition withDocument (sourceSDK : SDK) (vaultId : string) (item : Item)
    (newItem : NewItem) : M Env NewItem :=
  if isCategory item "Document" || isCategory item (ItemCategory.Document categories) then
    tryCatch
      (fullItem <- getFullItem sourceSDK vaultId item ;;
       match fullItem with
       | None => typeError "undefined (reading 'category')"
       | Some fullItem =>
           match fullDocument fullItem with
           | Some document =>
               if negb (optEqb (fullCategory fullItem)
                               (Some (ItemCategory.Document categories)))
               then throw {| message := "Item " ++ itemId item ++ " is not a valid Document" |}
               else
                 documentContent <-
                   retryWithBackoff
                     (client <- clientOf sourceSDK ;;
                      call (filesRead remote client vaultId (itemId item) document)) ;;
                 ret (setDocument
                        (Some {| newDocumentName := documentName document;
                                 newDocumentContent :=
                                   match documentContent with
                                   | Some bytes => bytes
                                   | None => ""
                                   end |}) newItem)
           | None =>
               throw {| message := "Item " ++ itemId item ++ " is not a valid Document" |}
           end
       end)
      (fun docError =>
         logWarning (Some vaultId)
           ("Document handling failed for " ++ itemTitle item ++ ": " ++ message docError) ;;;
         ret newItem)
  else ret newItem.

Definition withSshKey (item : Item) (newItem : NewItem) : NewItem :=
  if isCategory item "SSH_KEY" then setCategory (ItemCategory.SshKey categories) newItem
  else newItem.

Definition withCreditCard (sourceSDK : SDK) (vaultId : string) (item : Item)
    (newItem : NewItem) : M Env NewItem :=
  if isCategory item "CreditCard" || isCategory item (ItemCategory.CreditCard categories) then
    let newItem := setCategory (ItemCategory.CreditCard categories) newItem in
    tryCatch
      (fullItem <- getFullItem sourceSDK vaultId item ;;
       match fullItem with
       | None => typeError "undefined (reading 'fields')"
       | Some fullItem =>
           ret (setFields (Some (map Transcoder.creditCardField (fullFields fullItem)))
                          newItem)
       end)
      (fun ccError =>
         logWarning (Some vaultId)
           ("Credit card field processing failed for " ++ itemTitle item ++ ": "
              ++ message ccError) ;;;
         ret newItem)
  else ret newItem.

Definition withOtherFields (item : Item) (newItem : NewItem) : NewItem :=
  if (0 <? length (itemFields item))
     && negb (String.eqb (newCategory newItem) (ItemCategory.CreditCard categories))
  then setFields (Some (map Transcoder.otherField (itemFields item))) newItem
  else if isCategory item (ItemCategory.SecureNote categories)
  then setNotes (Some (Js.orStr (itemNotes item) "Migrated Secure Note")) newItem
  else newItem.

Definition withSections (item : Item) (newItem : NewItem) : NewItem :=
  if 0 <? length (itemSections item) then
    setSections
      (Some (map (fun section =>
                    {| newSectionId := sectionId section;
                       newSectionTitle :=
                         Js.orOpt (sectionTitle section)
                                  (Js.orOpt (sectionLabel section) "") |})
                 (itemSections item)))
      newItem
  else newItem.

(** One turn of the loop over [item.files.entries()]: the file pushed, if
    it has a name and a content. *)
Definition newFileOf (now index : nat) (file : ItemFile) : option NewFile :=
  let sectionOfFile := Js.orOpt (fileSectionId file) "add more" in
  let fieldOfFile :=
    Js.orOpt (fileFieldId file)
             (fileName file ++ "-" ++ Js.showNat now ++ "-" ++ Js.showNat index) in
  match fileContent file with
  | Some bytes =>
      if String.eqb (fileName file) "" then None
      else Some {| newFileName := fileName file; newFileContent := bytes;
                   newFileSectionId := sectionOfFile; newFileFieldId := fieldOfFile |}
  | None => None
  end.

Fixpoint newFilesFrom (now index : nat) (files : list ItemFile) : list NewFile :=
  match files with
  | [] => []
  | file :: rest =>
      match newFileOf now index file with
      | Some f => f :: newFilesFrom now (S index) rest
      | None => newFilesFrom now (S index) rest
      end
  end.

(** The loop over [fileSectionIds].  A section pushed for an id is found
    when the id comes again, so walking the ids of the files in order does
    what walking the set of them does. *)
Fixpoint addFileSections (ids : list string) (sections : list NewSection)
    : list NewSection :=
  match ids with
  | [] => sections
  | id :: rest =>
      if existsb (fun section => String.eqb (newSectionId section) id) sections
      then addFileSections rest sections
      else addFileSections rest
             (sections ++ [{| newSectionId := id;
                              newSectionTitle :=
                                if String.eqb id "add more" then "" else id |}])
  end.

Definition withFiles (now : nat) (item : Item) (newItem : NewItem) : NewItem :=
  if 0 <? length (itemFiles item) then
    let files := newFilesFrom now 0 (itemFiles item) in
    let sections :=
      match newSections newItem with
      | Some sections => sections
      | None => []
      end in
    setSections (Some (addFileSections (map newFileSectionId files) sections))
                (setFiles (Some files) newItem)
  else newItem.

Definition withTags (item : Item) (newItem : NewItem) : NewItem :=
  if 0 <? length (itemTags item) then setTags (Some (itemTags item)) newItem
  else newItem.

Definition withWebsites (item : Item) (newItem : NewItem) : NewItem :=
  if 0 <? length (itemWebsites item) then
    setWebsites
      (Some (map (fun website =>
                    {| newWebsiteUrl :=
                         Js.orOpt (websiteUrl website)
                                  (Js.orOpt (websiteHref website) "");
                       newWebsiteLabel := Js.orOpt (websiteLabel website) "website";
                       newWebsiteAutofillBehavior :=
                         Js.orOpt (websiteAutofillBehavior website) anywhereOnWebsite |})
                 (itemWebsites item)))
      newItem
  else newItem.

Definition buildNewItem (sourceSDK : SDK) (vaultId destVaultId : string) (item : Item)
    : M Env NewItem :=
  let newItem := withNotes item (initialNewItem destVaultId item) in
  newItem <- withDocument sourceSDK vaultId item newItem ;;
  let newItem := withSshKey item newItem in
  newItem <- withCreditCard sourceSDK vaultId item newItem ;;
  let newItem := withSections item (withOtherFields item newItem) in
  now <- gets (fun s => dateNow remote (world s)) ;;
  ret (withWebsites item (withTags item (withFiles now item newItem))).

(** ** migrateVault

    The state of a call is the shared [Env] and the [Frame] of the call.
    What the call does to the rest of the server goes through [inEnv], so
    nothing but the call writes its frame.  Each definition below is a
    block that [migrateVault] and [migrateVaultWithProgress] both contain,
    word for word. *)

Local Abbreviation Run := (Env * Frame)%type.

Definition inEnv {A} (m : M Env A) : M Run A := lift m.

Definition updateFrame (f : Frame -> Frame) : M Run unit :=
  modify (fun s => (fst s, f (snd s))).

Definition updateLogEntry (f : LogEntry -> LogEntry) : M Run unit :=
  updateFrame (fun fr => setLogEntry (f (logEntry fr)) fr).

Definition readFrame : M Run Frame := gets snd.

(** [sourceSDK.listVaultItems(vaultId)]: the step, and its log records. *)
Definition listItems (sdk : SDK) (vaultId : string) : M Env (list Item) :=
  fun s =>
    match listVaultItems remote sdk vaultId (world s) with
    | ((r, records), w') =>
        (r, {| world := w';
               logger := fold_left
                           (fun lm e => Logger.log (level e) (logVaultId e)
                                          (logMessage e) (logItemId e) lm)
                           records (logger s) |})
    end.

(** The declaration of [logEntry] and of the counters, and the first log line. *)
Definition startVault (vaultId vaultName : string) : M Run unit :=
  updateFrame (fun _ => initialFrame) ;;;
  inEnv (logInfo (Some vaultId) ("Starting migration for vault " ++ vaultName)).

(** From [// Get source item count] to [// Get items to migrate]: the
    source count, the new vault and the items. *)
Definition openVault (vaultId vaultName sourceToken destToken : string)
    (sourceSDK : SDK) : M Run (nat * string * list Item) :=
  sourceCount <- inEnv (getVaultItemCount vaultId sourceToken) ;;
  updateLogEntry (setEntrySourceItemCount sourceCount) ;;;
  inEnv (logInfo (Some vaultId) ("Source item count: " ++ Js.showNat sourceCount)) ;;;
  destVaultId <-
    tryCatch
      (created <- inEnv (call (opVaultCreate remote destToken vaultName)) ;;
       updateLogEntry (setEntryNewVaultId created) ;;;
       inEnv (logInfo (Some vaultId) ("Created destination vault " ++ created)) ;;;
       ret created)
      (fun error =>
         inEnv (logError (Some vaultId)
                  ("Failed to create destination vault: " ++ message error)) ;;;
         throw {| message := "Vault creation failed: " ++ message error |}) ;;
  items <-
    tryCatch
      (items <- inEnv (listItems sourceSDK vaultId) ;;
       inEnv (logInfo (Some vaultId)
                ("Found " ++ Js.showNat (length items) ++ " items to migrate")) ;;;
       ret items)
      (fun error =>
         inEnv (logError (Some vaultId) ("Failed to list items: " ++ message error)) ;;;
         throw {| message := "Item listing failed: " ++ message error |}) ;;
  ret (sourceCount, destVaultId, items).

(** The body of [if (isCancelled())]. *)
Definition cancelVault (vaultId : string) (total sourceCount : nat) : M Run VaultResult :=
  updateLogEntry (setStatus Cancelled) ;;;
  inEnv (logInfo (Some vaultId) "Migration cancelled by user") ;;;
  fr <- readFrame ;;
  ret {| itemsLength := total;
         vaultResults := migrationResults fr;
         sourceItemCount := sourceCount;
         destItemCount := None;
         vaultSuccessCount := successCount fr;
         vaultFailureCount := failureCount fr |}.

(** The first log line of the [try] block. *)
Definition describeItem (vaultId : string) (item : Item) : M Env unit :=
  logInfo (Some vaultId)
    ("Item " ++ Js.quoted (itemTitle item) ++ " category: "
       ++ categoryString (itemCategory item) ++ " (type: "
       ++ match itemCategory item with
          | Some _ => "string"
          | None => "undefined"
          end ++ ")").

(** The body of [if (isCustomItem)] before the counters: the bridge. *)
Definition sendCustomItem (vaultId sourceToken destToken destVaultId : string)
    (customTemplateId : option string) (item : Item) : M Env unit :=
  logInfo (Some vaultId)
    ("Detected CUSTOM item " ++ Js.quoted (itemTitle item) ++ " (category: "
       ++ categoryString (itemCategory item) ++ ") - migrating via CLI") ;;;
  createCustomItemViaCLI item sourceToken destToken vaultId destVaultId vaultId
    customTemplateId.

(** The rest of the [try] block before the counters: the new item is
    built and created. *)
Definition sendSdkItem (vaultId destVaultId : string) (sourceSDK destSDK : SDK)
    (item : Item) : M Env unit :=
  newItem <- buildNewItem sourceSDK vaultId destVaultId item ;;
  retryWithBackoff
    (client <- clientOf destSDK ;;
     call (itemsCreate remote client newItem)) ;;;
  ret tt.

(** The last log line of a migrated item. *)
Definition logMigrated (vaultId : string) (item : Item) : M Env unit :=
  logAt INFO (Some vaultId)
    (if isCustomItem item then
       "Successfully migrated CUSTOM item [" ++ itemId item ++ "] "
         ++ Js.quoted (itemTitle item) ++ " via CLI"
     else
       "Successfully migrated item [" ++ itemId item ++ "] "
         ++ Js.quoted (itemTitle item))
    (Some (itemId item)).

(** The body of [if (isCustomItem)], up to its last log line. *)
Definition migrateCustomItem (vaultId sourceToken destToken destVaultId : string)
    (customTemplateId : option string) (item : Item) (total : nat) : M Run unit :=
  inEnv (sendCustomItem vaultId sourceToken destToken destVaultId customTemplateId item) ;;;
  updateFrame (recordSuccess item total) ;;;
  inEnv (logMigrated vaultId item).

(** The rest of the [try] block, up to its last log line. *)
Definition migrateSdkItem (vaultId destVaultId : string) (sourceSDK destSDK : SDK)
    (item : Item) (total : nat) : M Run unit :=
  inEnv (sendSdkItem vaultId destVaultId sourceSDK destSDK item) ;;;
  updateFrame (recordSuccess item total) ;;;
  inEnv (logMigrated vaultId item).

(** The [catch] block of an item, without the progress update.  The frame
    and the logger are apart, so the order of the two steps is free. *)
Definition failItem (vaultId vaultName : string) (item : Item) (total : nat)
    (error : JsError) : M Run unit :=
  updateFrame (recordFailure item total error) ;;;
  inEnv (modify (fun s =>
           {| world := world s;
              logger := Logger.logFailedItem vaultId vaultName (itemId item)
                          (itemTitle item) error (logger s) |})).

(** From [// Get destination item count] to the [return]. *)
Definition finishVault (vaultId vaultName destToken destVaultId : string)
    (total sourceCount : nat) : M Run VaultResult :=
  destCount <- inEnv (getVaultItemCount destVaultId destToken) ;;
  fr <- readFrame ;;
  updateLogEntry (completeEntry destCount (successCount fr) (failureCount fr)) ;;;
  inEnv (logInfo (Some vaultId) ("Destination item count: " ++ Js.showNat destCount)) ;;;
  inEnv (logInfo (Some vaultId)
           ("Migration completed - Success: " ++ Js.showNat (successCount fr)
              ++ ", Failed: " ++ Js.showNat (failureCount fr))) ;;;
  inEnv (modify (fun s =>
           {| world := world s;
              logger := Logger.logVaultComplete vaultId
                          {| statsVaultName := vaultName;
                             statsSourceItemCount := sourceCount;
                             statsDestItemCount := destCount;
                             statsSuccessCount := successCount fr;
                             statsFailureCount := failureCount fr |}
                          (logger s) |})) ;;;
  (if (sourceCount =? destCount) && (failureCount fr =? 0) then
     inEnv (logInfo (Some vaultId)
              ("Successfully migrated all " ++ Js.showNat sourceCount ++ " items"))
   else
     inEnv (logWarning (Some vaultId)
              ("Item count mismatch - Source: " ++ Js.showNat sourceCount
                 ++ ", Destination: " ++ Js.showNat destCount
                 ++ ", Failed: " ++ Js.showNat (failureCount fr)))) ;;;
  ret {| itemsLength := total;
         vaultResults := migrationResults fr;
         sourceItemCount := sourceCount;
         destItemCount := Some destCount;
         vaultSuccessCount := successCount fr;
         vaultFailureCount := failureCount fr |}.

(** The outer [catch] block. *)
Definition failVault {A} (vaultId : string) (error : JsError) : M Run A :=
  inEnv (logError (Some vaultId) ("Vault migration failed: " ++ message error)) ;;;
  updateLogEntry (fun e => pushEntryError ("Vault migration: " ++ message error)
                             (setStatus Failed e)) ;;;
  throw error.

Section MigrateVault.
Variables vaultId vaultName sourceToken destToken : string.
Variables sourceSDK destSDK : SDK.
(** [isCancelled] is a function of the caller: it sees the server, not the
    variables of this call. *)
Variable isCancelled : M Env bool.
Variable customTemplateId : option string.

(** The [try] block of one item. *)
Definition migrateItem (destVaultId : string) (item : Item) (total : nat) : M Run unit :=
  inEnv (describeItem vaultId item) ;;;
  if isCustomItem item then
    migrateCustomItem vaultId sourceToken destToken destVaultId customTemplateId item total
  else
    migrateSdkItem vaultId destVaultId sourceSDK destSDK item total.

(** [for (const item of items) { ... }] and then [afterLoop]. *)
Fixpoint migrateItems (destVaultId : string) (total sourceCount : nat)
    (afterLoop : M Run VaultResult) (items : list Item) : M Run VaultResult :=
  match items with
  | [] => afterLoop
  | item :: rest =>
      cancelled <- inEnv isCancelled ;;
      if cancelled then cancelVault vaultId total sourceCount
      else
        tryCatch (migrateItem destVaultId item total)
                 (failItem vaultId vaultName item total) ;;;
        migrateItems destVaultId total sourceCount afterLoop rest
  end.

Definition migrateVault : M Run VaultResult :=
  startVault vaultId vaultName ;;;
  tryCatch
    (opened <- openVault vaultId vaultName sourceToken destToken sourceSDK ;;
     let '(sourceCount, destVaultId, items) := opened in
     migrateItems destVaultId (length items) sourceCount
       (finishVault vaultId vaultName destToken destVaultId (length items) sourceCount)
       items)
    (failVault vaultId).

(** ** migrateVaultWithProgress

    The source of [migrateVaultWithProgress] is the text of [migrateVault]
    with one more parameter, [onProgress], and three more statements, each
    [if (processedItems % 3 === 0 || processedItems === items.length)
    onProgress(...)]: after the last log line of a custom item and after
    that of any other item, both inside the [try] block of the item, and
    at the end of its [catch] block. *)

Section WithProgress.
Context {R : Type}.
(** [onProgress(processedItems, items.length, successCount, failureCount)] *)
Variable onProgress : nat -> nat -> nat -> nat -> M (Run * R) unit.

(** [if (processedItems % 3 === 0 || processedItems === items.length) onProgress(...)] *)
Definition sendProgress (total : nat) : M (Run * R) unit :=
  fr <- lift readFrame ;;
  if (processedItems fr mod 3 =? 0) || (processedItems fr =? total) then
    onProgress (processedItems fr) total (successCount fr) (failureCount fr)
  else ret tt.

Definition migrateItemWithProgress (destVaultId : string) (item : Item) (total : nat)
    : M (Run * R) unit :=
  lift (inEnv (describeItem vaultId item)) ;;;
  if isCustomItem item then
    lift (migrateCustomItem vaultId sourceToken destToken destVaultId customTemplateId
            item total) ;;;
    sendProgress total
  else
    lift (migrateSdkItem vaultId destVaultId sourceSDK destSDK item total) ;;;
    sendProgress total.

Definition failItemWithProgress (item : Item) (total : nat) (error : JsError)
    : M (Run * R) unit :=
  lift (failItem vaultId vaultName item total error) ;;;
  sendProgress total.

Fixpoint migrateItemsWithProgress (destVaultId : string) (total sourceCount : nat)
    (afterLoop : M (Run * R) VaultResult) (items : list Item) : M (Run * R) VaultResult :=
  match items with
  | [] => afterLoop
  | item :: rest =>
      cancelled <- lift (inEnv isCancelled) ;;
      if cancelled then lift (cancelVault vaultId total sourceCount)
      else
        tryCatch (migrateItemWithProgress destVaultId item total)
                 (failItemWithProgress item total) ;;;
        migrateItemsWithProgress destVaultId total sourceCount afterLoop rest
  end.

Definition migrateVaultWithProgress : M (Run * R) VaultResult :=
  lift (startVault vaultId vaultName) ;;;
  tryCatch
    (opened <- lift (openVault vaultId vaultName sourceToken destToken sourceSDK) ;;
     let '(sourceCount, destVaultId, items) := opened in
     migrateItemsWithProgress destVaultId (length items) sourceCount
       (lift (finishVault vaultId vaultName destToken destVaultId (length items)
                sourceCount))
       items)
    (fun error => lift (failVault vaultId error)).

End WithProgress.
End MigrateVault.

(** ** The routes *)

(** [() => isMigrationCancelled] *)
Definition readCancelled : M Env bool :=
  gets (fun s => isMigrationCancelled remote (world s)).

(** [(a, b)] are different numbers, or [b] is [null]: [a !== b]. *)
Definition differs (a : nat) (b : option nat) : bool :=
  match b with
  | Some n => negb (a =? n)
  | None => true
  end.

Definition statsOf (result : VaultResult) : Stats :=
  {| statSuccessCount := vaultSuccessCount result;
     statFailureCount := vaultFailureCount result;
     statSourceItemCount := sourceItemCount result;
     statDestItemCount := destItemCount result |}.

(** [new OnePasswordSDK(token)] followed by [initializeClient()]. *)
Definition newSDK (token : string) : M Env SDK :=
  client <- initializeClient token ;;
  ret {| sdkToken := token; sdkClient := Some client |}.

(** The answer of the single-vault route to the result of the vault. *)
Definition respond (vaultId vaultName : string) (result : VaultResult)
    : M Run HttpResponse :=
  if (0 <? vaultFailureCount result)
     || differs (sourceItemCount result) (destItemCount result)
  then
    inEnv (logInfo (Some vaultId)
             ("Migration completed with issues - "
                ++ Js.showNat (vaultSuccessCount result) ++ " succeeded, "
                ++ Js.showNat (vaultFailureCount result) ++ " failed")) ;;;
    ret {| httpStatus := 200; httpSuccess := false;
           httpMessage :=
             "Vault " ++ Js.quoted vaultName ++ " migration completed with "
               ++ Js.showNat (vaultFailureCount result) ++ " failures out of "
               ++ Js.showNat (itemsLength result) ++ " items";
           httpResults := vaultResults result;
           httpStats := Some (statsOf result) |}
  else
    inEnv (logInfo (Some vaultId)
             ("Migration successful - " ++ Js.showNat (vaultSuccessCount result)
                ++ " items migrated")) ;;;
    ret {| httpStatus := 200; httpSuccess := true;
           httpMessage :=
             "Successfully migrated vault " ++ Js.quoted vaultName ++ " with "
               ++ Js.showNat (itemsLength result) ++ " items";
           httpResults := vaultResults result;
           httpStats := Some (statsOf result) |}.

(** [POST /migration/migrate-vault]; a member missing from the body is
    the empty string. *)
Definition migrateVaultRoute (vaultId vaultName sourceToken destToken : string)
    (customTemplateId : option string) : M Run HttpResponse :=
  if String.eqb vaultId "" || String.eqb vaultName ""
     || String.eqb sourceToken "" || String.eqb destToken ""
  then
    inEnv (logError None "Missing required parameters for vault migration") ;;;
    ret {| httpStatus := 400; httpSuccess := false;
           httpMessage :=
             "Vault ID, vault name, source token, and destination token are required";
           httpResults := []; httpStats := None |}
  else
    tryCatch
      (sourceSDK <- inEnv (newSDK sourceToken) ;;
       destSDK <- inEnv (newSDK destToken) ;;
       result <- migrateVault vaultId vaultName sourceToken destToken sourceSDK destSDK
                   readCancelled customTemplateId ;;
       respond vaultId vaultName result)
      (fun error =>
         inEnv (logError (Some vaultId)
                  ("Migration endpoint failed: " ++ message error)) ;;;
         ret {| httpStatus := 500; httpSuccess := false;
                httpMessage := "Failed to migrate vault: " ++ message error;
                httpResults := []; httpStats := None |}).

(** The state of the bulk route: a call of [migrateVaultWithProgress] and
    the event stream [res]. *)
Local Abbreviation Stream := (Run * list SseEvent)%type.

Definition write (e : SseEvent) : M Stream unit :=
  modify (fun s => (fst s, snd s ++ [e])).

Definition inServer {A} (m : M Env A) : M Stream A := lift (inEnv m).

(** [listVaults()] of an instance with a client. *)
Definition listVaults (sdk : SDK) : M Env (list VaultRef) :=
  tryCatch
    (client <- match sdkClient sdk with
               | Some c => ret c
               | None => initializeClient (sdkToken sdk)
               end ;;
     vaultList <- call (vaultsList remote client) ;;
     logInfo None ("Listed " ++ Js.showNat (length vaultList) ++ " vaults") ;;;
     ret vaultList)
    (fun error =>
       logError None ("Failed to list vaults: " ++ message error) ;;;
       throw {| message := "Failed to list vaults: " ++ message error |}).

(** The callback the bulk route builds for a vault. *)
Definition progressCallback (vault : VaultRef) (completedVaults totalVaults : nat)
    (itemsProcessed totalItems succeeded failed : nat) : M Stream unit :=
  write (Migrating completedVaults totalVaults (vaultRefId vault) (vaultRefName vault)
           itemsProcessed totalItems succeeded failed).

(** The [outcome] built from the result of a vault. *)
Definition outcomeOf (vault : VaultRef) (result : VaultResult) : Outcome :=
  let success :=
    (vaultFailureCount result =? 0)
    && negb (differs (sourceItemCount result) (destItemCount result)) in
  VaultDone (vaultRefId vault) (vaultRefName vault) success
    (if success then
       "Successfully migrated vault " ++ Js.quoted (vaultRefName vault) ++ " with "
         ++ Js.showNat (itemsLength result) ++ " items"
     else
       "Vault " ++ Js.quoted (vaultRefName vault) ++ " completed with "
         ++ Js.showNat (vaultFailureCount result) ++ " failures out of "
         ++ Js.showNat (itemsLength result) ++ " items")
    result.

Section BulkRoute.
Variables sourceToken destToken : string.
Variables sourceSDK destSDK : SDK.
Variable customTemplateId : option string.

(** One vault of the loop: the [try] block with its [catch]. *)
Definition migrateOneVault (vault : VaultRef) (completedVaults totalVaults : nat)
    : M Stream Outcome :=
  tryCatch
    (result <- migrateVaultWithProgress (vaultRefId vault)
                 (vaultRefName vault ++ " (Migrated)") sourceToken destToken
                 sourceSDK destSDK readCancelled customTemplateId
                 (progressCallback vault completedVaults totalVaults) ;;
     ret (outcomeOf vault result))
    (fun error =>
       inServer (logError (Some (vaultRefId vault))
                   ("Vault migration failed: " ++ message error)) ;;;
       ret (VaultFailed (vaultRefId vault) (vaultRefName vault)
              ("Failed to migrate vault " ++ Js.quoted (vaultRefName vault) ++ ": "
                 ++ message error)
              (message error))).

(** [for (const vault of vaultsToMigrate) { ... }]: the outcomes, or
    [None] when the route returned from inside the loop. *)
Fixpoint migrateVaults (totalVaults completedVaults : nat) (migrated : list Outcome)
    (vaultsToMigrate : list VaultRef) : M Stream (option (list Outcome)) :=
  match vaultsToMigrate with
  | [] => ret (Some migrated)
  | vault :: rest =>
      cancelled <- inServer readCancelled ;;
      if cancelled then
        inServer (logInfo None "Bulk migration cancelled by user") ;;;
        write (CancelledByUser migrated) ;;;
        ret None
      else
        write (Preparing completedVaults totalVaults
                 (vaultRefId vault) (vaultRefName vault)) ;;;
        outcome <- migrateOneVault vault completedVaults totalVaults ;;
        write (VaultOutcome (S completedVaults) totalVaults outcome) ;;;
        migrateVaults totalVaults (S completedVaults) (migrated ++ [outcome]) rest
  end.

End BulkRoute.

(** [GET /migration/migrate-all-vaults], after the query is parsed. *)
Definition migrateAllVaultsRoute (sourceToken destToken : string)
    (selectedVaults : option (list VaultRef)) (customTemplateId : option string)
    : M Stream unit :=
  if String.eqb sourceToken "" || String.eqb destToken "" then
    inServer (logError None "Missing required tokens for bulk migration") ;;;
    write (FinishedWithError "Source token and destination token are required")
  else
    inServer (modify (fun s => {| world := clearMigrationCancelled remote (world s);
                                  logger := logger s |})) ;;;
    inServer (logInfo None "Starting bulk vault migration") ;;;
    tryCatch
      (sourceSDK <- inServer (newSDK sourceToken) ;;
       destSDK <- inServer (newSDK destToken) ;;
       vaultsToMigrate <-
         match selectedVaults with
         | Some (v :: vs) => ret (v :: vs)
         | _ => inServer (listVaults sourceSDK)
         end ;;
       let totalVaults := length vaultsToMigrate in
       finished <- migrateVaults sourceToken destToken sourceSDK destSDK
                     customTemplateId totalVaults 0 [] vaultsToMigrate ;;
       match finished with
       | None => ret tt
       | Some migrated =>
           let failedVaults := filter (fun o => negb (outcomeSuccess o)) migrated in
           summary <- inServer (gets (fun s => Logger.getSummary (logger s))) ;;
           if 0 <? length failedVaults then
             let counts := (Js.showNat (length failedVaults)
                              ++ " vault failures out of " ++ Js.showNat totalVaults
                              ++ " vaults")%string in
             inServer (logInfo None ("Bulk migration completed with " ++ counts)) ;;;
             write (Finished false ("Migration completed with " ++ counts) migrated summary)
           else
             let msg := ("Successfully migrated all " ++ Js.showNat totalVaults
                           ++ " vaults")%string in
             inServer (logInfo None msg) ;;;
             write (Finished true msg migrated summary)
       end)
      (fun error =>
         inServer (logError None ("Bulk migration failed: " ++ message error)) ;;;
         write (FinishedWithError ("Failed to migrate vaults: " ++ message error))).

End Server.

(* ================================================================== *)
(** * Part I, continued: the vocabulary of the properties             *)
(* ================================================================== *)

(** ** Expiry dates and example fields

    Part II states the properties of the definitions above; the notions
    and the examples it speaks with are defined here. *)

Section ExpiryShapes.
Import Js Transcoder.

(** The four accepted shapes, with digits [a] to [f]. *)
Definition monthSlashYear (a b c d e f : ascii) : string :=
  String a (String b (String slash (String c (String d (String e (String f EmptyString)))))).

Definition monthDashYear (a b c d e f : ascii) : string :=
  String a (String b (String dash (String c (String d (String e (String f EmptyString)))))).

Definition fourDigits (a b c d : ascii) : string :=
  String a (String b (String c (String d EmptyString))).

Definition monthSlashShortYear (a b c d : ascii) : string :=
  String a (String b (String slash (String c (String d EmptyString)))).

Definition zero : ascii := "0"%char.

Definition two : ascii := "2"%char.

End ExpiryShapes.

(** A card on which the network is written "jcb". *)
Definition jcbTypeField : Field :=
  {| f_id := "type"; f_title := "type"; f_label := None;
     f_fieldType := ItemFieldType.Text; f_value := "jcb";
     f_sectionId := None; f_details := None |}.

(** A card on which the network is written "MC". *)
Definition mastercardTypeField : Field :=
  {| f_id := "cc-type"; f_title := "Card Type"; f_label := None;
     f_fieldType := ItemFieldType.Text; f_value := "MC";
     f_sectionId := None; f_details := None |}.

(** A field that asks which kind of PIN the card has. *)
Definition pinTypeField : Field :=
  {| f_id := "pin-type"; f_title := "PIN type"; f_label := None;
     f_fieldType := ItemFieldType.Text; f_value := "visa";
     f_sectionId := None; f_details := None |}.

(** A field named "type" whose title speaks of the expiry. *)
Definition expiryTypeField : Field :=
  {| f_id := "type"; f_title := "expiry"; f_label := None;
     f_fieldType := ItemFieldType.Text; f_value := "visa";
     f_sectionId := None; f_details := None |}.

(** A one-time code written as a counter-based [otpauth] URI. *)
Definition hotpField : Field :=
  {| f_id := "otp"; f_title := "one-time password"; f_label := None;
     f_fieldType := ItemFieldType.Totp;
     f_value := "otpauth://hotp/ACME:alice?secret=JBSWY3DPEHPK3PXP&counter=1";
     f_sectionId := None; f_details := None |}.

(** A one-time code written as a base-32 seed. *)
Definition seedField : Field :=
  {| f_id := "otp"; f_title := "one-time password"; f_label := None;
     f_fieldType := ItemFieldType.Totp;
     f_value := "JBSWY3DPEHPK3PXP";
     f_sectionId := None; f_details := None |}.

(** A one-time code kept in the details of the field, not in its value. *)
Definition detailsTotpField : Field :=
  {| f_id := "otp"; f_title := "one-time password"; f_label := None;
     f_fieldType := ItemFieldType.Totp; f_value := "";
     f_sectionId := None;
     f_details :=
       Some {| content :=
                 Some {| street := None; city := None; state := None; zip := None;
                         country := None; privateKey := None;
                         totp := Some "JBSWY3DPEHPK3PXP" |} |} |}.

(** A one-time code that is neither a seed nor a URI. *)
Definition helloField : Field :=
  {| f_id := "otp"; f_title := "one-time password"; f_label := None;
     f_fieldType := ItemFieldType.Totp; f_value := "hello";
     f_sectionId := None; f_details := None |}.

(** ** The events of a call of [retryWithBackoff]

    The wrapped operation [fn] and the timer are instrumented to write an
    event each time they run; the warning that precedes a wait writes
    none.  [tick] and [warn] are what the timer and the warning do to the
    state. *)

Inductive RetryEvent (A : Type) :=
  | Invoked (outcome : Result A)
  | Slept (delay : nat).
Arguments Invoked {A} outcome.
Arguments Slept {A} delay.

Section RetryTrace.
Context {St A : Type}.
Variable tick : nat -> St -> St.
Variable warn : nat -> nat -> JsError -> St -> St.
Variable fn : M St A.

Definition tracedFn : M (St * list (RetryEvent A)) A :=
  fun s =>
    match fn (fst s) with
    | (r, s') => (r, (s', snd s ++ [Invoked r]))
    end.

Definition tracedSleep (delay : nat) : M (St * list (RetryEvent A)) unit :=
  modify (fun s => (tick delay (fst s), snd s ++ [Slept delay])).

Definition tracedWarn (attempt delay : nat) (error : JsError)
    : M (St * list (RetryEvent A)) unit :=
  modify (fun s => (warn attempt delay error (fst s), snd s)).

(** The run of [retryWithBackoff(fn, maxRetries, baseDelay)] from [s],
    with its events. *)
Definition tracedRetry (maxRetries baseDelay : nat) (s : St)
    : Result (option A) * (St * list (RetryEvent A)) :=
  Retry.retryWithBackoff tracedSleep tracedWarn tracedFn maxRetries baseDelay (s, []).

(** The same run without the recording. *)
Definition plainRetry (maxRetries baseDelay : nat) (s : St) : Result (option A) * St :=
  Retry.retryWithBackoff (fun d => modify (tick d)) (fun a d e => modify (warn a d e))
    fn maxRetries baseDelay s.

(** The outcomes of the invocations of a trace, in order. *)
Fixpoint outcomes (tr : list (RetryEvent A)) : list (Result A) :=
  match tr with
  | [] => []
  | Invoked r :: rest => r :: outcomes rest
  | Slept _ :: rest => outcomes rest
  end.

(** The trace of invocations with the given outcomes, numbered from
    [attempt], each but the last followed by the wait
    [baseDelay * 2 ^ (attempt - 1)]. *)
Fixpoint schedule (baseDelay attempt : nat) (outs : list (Result A))
    : list (RetryEvent A) :=
  match outs with
  | [] => []
  | o :: rest =>
      Invoked o ::
      match rest with
      | [] => []
      | _ :: _ => Slept (baseDelay * 2 ^ (attempt - 1)) :: schedule baseDelay (S attempt) rest
      end
  end.

(** The outcomes of the attempts from [attempt] on, and the result of the
    call they lead to. *)
Inductive Attempts (maxRetries : nat) : nat -> list (Result A) -> Result (option A) -> Prop :=
  | attempts_none :
      Attempts maxRetries (S maxRetries) [] (Ok None)
  | attempts_ok attempt a :
      attempt <= maxRetries ->
      Attempts maxRetries attempt [Ok a] (Ok (Some a))
  | attempts_fatal attempt e :
      attempt <= maxRetries -> Retry.isTransient e = false ->
      Attempts maxRetries attempt [Throw e] (Throw e)
  | attempts_exhausted e :
      Attempts maxRetries maxRetries [Throw e] (Throw e)
  | attempts_retry attempt e o outs res :
      attempt < maxRetries -> Retry.isTransient e = true ->
      Attempts maxRetries (S attempt) (o :: outs) res ->
      Attempts maxRetries attempt (Throw e :: o :: outs) res.

End RetryTrace.

(** ** Following a computation *)

Section Following.
Context {St R : Type}.

(** [m] keeps [P]: whatever it returns or throws. *)
Definition Preserves {A} (P : St -> Prop) (m : M St A) : Prop :=
  forall s, P s -> P (snd (m s)).

(** [mp], on the larger state, does to the smaller state what [m] does,
    and returns what [m] returns. *)
Definition Follows {A} (mp : M (St * R) A) (m : M St A) : Prop :=
  forall s r, exists r', mp (s, r) = (fst (m s), (snd (m s), r')).

End Following.

(** ** The state of a call of [migrateVault] *)

(** The counters add up, and every item counted has its result. *)
Definition countsAgree (fr : Frame) : Prop :=
  successCount fr + failureCount fr = processedItems fr
  /\ length (migrationResults fr) = processedItems fr.

(** No item was counted yet. *)
Definition untouched (fr : Frame) : Prop :=
  migrationResults fr = [] /\ processedItems fr = 0
  /\ successCount fr = 0 /\ failureCount fr = 0.

(** The results so far are never rewritten: later ones are added. *)
Definition extends (before after : Frame) : Prop :=
  exists more, migrationResults after = migrationResults before ++ more.

(** What a progress callback is called with:
    [(processedItems, items.length, successCount, failureCount)]. *)
Definition Checkpoint : Type := nat * nat * nat * nat.

Definition checkpointAgrees (c : Checkpoint) : Prop :=
  match c with
  | (processed, _, succeeded, failed) => succeeded + failed = processed
  end.

(** The message of the route for a vault that is not fully migrated. *)
Definition completedWithFailures (vaultName : string) (result : VaultResult) : string :=
  "Vault " ++ Js.quoted vaultName ++ " migration completed with "
    ++ Js.showNat (vaultFailureCount result) ++ " failures out of "
    ++ Js.showNat (itemsLength result) ++ " items".

Section CallVocabulary.
Context {World Client : Type}.
Variable remote : Remote World Client.
Variable categories : ItemCategory.t.
Variable anywhereOnWebsite : string.
Variables vaultId vaultName sourceToken destToken : string.
Variables sourceSDK destSDK : OnePasswordSDK Client.
Variable isCancelled : M (Env World) bool.
Variable customTemplateId : option string.

Local Abbreviation Run := (Env World * Frame)%type.

(** A property of the frame, as a property of the state of a call. *)
Definition onFrame (P : Frame -> Prop) (s : Run) : Prop := P (snd s).

(** The progress callback that writes down what it is called with. *)
Definition recordCheckpoint (processed total succeeded failed : nat)
    : M (Run * list Checkpoint) unit :=
  modify (fun s => (fst s, snd s ++ [(processed, total, succeeded, failed)])).

(** The counters of the call agree, and so did every checkpoint so far. *)
Definition checkpointsAgree (s : Run * list Checkpoint) : Prop :=
  onFrame countsAgree (fst s) /\ Forall checkpointAgrees (snd s).

(** What a result says of the state the call ends in. *)
Definition resultMatches (result : VaultResult) (s : Run) : Prop :=
  vaultResults result = migrationResults (snd s)
  /\ vaultSuccessCount result = successCount (snd s)
  /\ vaultFailureCount result = failureCount (snd s)
  /\ status (logEntry (snd s)) =
       match destItemCount result with
       | Some _ => Completed
       | None => Cancelled
       end.

(** What the [try] block of an item does to the server before it counts
    the item: the first log line, then the bridge or the creation. *)
Definition attemptItem (destVaultId : string) (item : Item) : M (Env World) unit :=
  describeItem vaultId item ;;;
  if isCustomItem categories item then
    sendCustomItem remote vaultId sourceToken destToken destVaultId customTemplateId item
  else
    sendSdkItem remote categories anywhereOnWebsite vaultId destVaultId
      sourceSDK destSDK item.

(** One turn of the loop after the cancellation check: the [try] block
    and its [catch]. *)
Definition itemStep (destVaultId : string) (item : Item) (total : nat) : M Run unit :=
  tryCatch
    (migrateItem remote categories anywhereOnWebsite vaultId sourceToken destToken
       sourceSDK destSDK customTemplateId destVaultId item total)
    (failItem vaultId vaultName item total).

(** The server after the [catch] block logged the failure of an item. *)
Definition afterFailure (item : Item) (error : JsError) (env : Env World) : Env World :=
  {| world := world env;
     logger := Logger.logFailedItem vaultId vaultName (itemId item) (itemTitle item)
                 error (logger env) |}.

(** The state after the loop went through [items] with the flag down at
    each of them; [None] if the flag was up, or the check threw, at one. *)
Fixpoint processed (destVaultId : string) (total : nat) (items : list Item) (s : Run)
    : option Run :=
  match items with
  | [] => Some s
  | item :: rest =>
      match inEnv isCancelled s with
      | (Ok false, s1) =>
          processed destVaultId total rest
            (snd (itemStep destVaultId item total s1))
      | _ => None
      end
  end.

(** The flag, as the routes read it. *)
Definition flagUp (env : Env World) : bool := isMigrationCancelled remote (world env).

(** The command line tool finds no custom template in the destination
    account: listing the templates fails, or lists none that is one. *)
Definition noCustomTemplate : Prop :=
  forall w,
    match opItemTemplateList remote destToken w with
    | (Ok templates, _) => find isCustomTemplate templates = None
    | (Throw _, _) => True
    end.

(** The command line tool reads the item from the source account, with
    its list of fields. *)
Definition sourceItemReadable (item : Item) : Prop :=
  forall w,
    exists raw w',
      opItemGet remote sourceToken (itemId item) vaultId w = (Ok raw, w')
      /\ rawFields raw <> None.

(** The error of the bridge when it finds no template. *)
Definition templateError (reason : string) : JsError :=
  {| message := "Failed to get CUSTOM template: " ++ reason ++ ". "
                  ++ customTemplateHint ++ "." |}.

Section Callback.
Context {R : Type}.
Variable onProgress : nat -> nat -> nat -> nat -> M ((Env World * Frame) * R) unit.

(** A callback that returns, and touches nothing but what is its own. *)
Definition Quiet : Prop :=
  forall processed total succeeded failed (s : Run) (r : R),
    exists r', onProgress processed total succeeded failed (s, r) = (Ok tt, (s, r')).

End Callback.
End CallVocabulary.

(** ** A small world to run the server in

    The destination holds the items created so far; a cancellation request
    may arrive once a given number of items was created; an item titled
    "rejected" is refused by the destination; the command line tool lists
    no template, and reads an item of the source account or not. *)

Module Scenario.

Record World := {
  created : nat;
  cancelAfter : option nat
}.

Definition addItem (w : World) : World :=
  {| created := S (created w); cancelAfter := cancelAfter w |}.

Definition categories : ItemCategory.t :=
  {| ItemCategory.Login := "Login";
     ItemCategory.SecureNote := "SecureNote";
     ItemCategory.CreditCard := "CreditCard";
     ItemCategory.Document := "Document";
     ItemCategory.SshKey := "SshKey";
     ItemCategory.Custom := None |}.

Definition anywhere : string := "AnywhereOnWebsite".

Definition item (id title category : string) : Item :=
  {| itemId := id; itemTitle := title; itemCategory := Some category;
     itemFields := []; itemSections := []; itemFiles := []; itemTags := [];
     itemWebsites := []; itemNotes := "" |}.

Definition login (id : string) : Item := item id ("Login " ++ id) "Login".
Definition rejected : Item := item "r1" "rejected" "Login".
Definition custom : Item := item "x1" "X" "CUSTOM".

Definition overviews (n : nat) : list ItemOverview :=
  repeat {| overviewId := "id"; overviewTitle := "title"; overviewCategory := None |} n.

Definition raw : RawItem :=
  {| rawId := Some "x1"; rawCreatedAt := None; rawUpdatedAt := None;
     rawLastEditedBy := None; rawVersion := None; rawCategory := Some "CUSTOM";
     rawCategoryId := None; rawVaultId := Some "src"; rawFields := Some [];
     rawRest := "" |}.

Definition remote (items : list Item) (cliReads : bool) : Remote World unit :=
  {| createClient := fun _ w => (Ok tt, w);
     vaultsList := fun _ w => (Ok [], w);
     itemsList := fun _ vault filter w =>
       match filter with
       | ArchivedItems => (Ok [], w)
       | ActiveItems =>
           if String.eqb vault "dest" then (Ok (overviews (created w)), w)
           else (Ok (overviews (length items)), w)
       end;
     itemsGet := fun _ _ _ w => (Throw {| message := "item not found" |}, w);
     filesRead := fun _ _ _ _ w => (Throw {| message := "file not found" |}, w);
     itemsCreate := fun _ newItem w =>
       if String.eqb (newTitle newItem) "rejected"
       then (Throw {| message := "invalid item" |}, w)
       else (Ok tt, addItem w);
     listVaultItems := fun _ _ w => ((Ok items, []), w);
     opVaultCreate := fun _ _ w => (Ok "dest", w);
     opItemGet := fun _ _ _ w =>
       if cliReads then (Ok raw, w)
       else (Throw {| message := "item not found" |}, w);
     opItemTemplateList := fun _ w => (Ok [], w);
     opItemCreate := fun _ _ _ w => (Ok "", addItem w);
     writeFileSync := fun _ _ w => (Ok tt, w);
     unlinkSync := fun _ w => (Ok tt, w);
     dateNow := fun _ => 0;
     setTimeout := fun _ w => w;
     isMigrationCancelled := fun w =>
       match cancelAfter w with
       | Some k => k <=? created w
       | None => false
       end;
     clearMigrationCancelled := fun w => {| created := created w; cancelAfter := None |} |}.

Definition sdk : OnePasswordSDK unit := {| sdkToken := "token"; sdkClient := Some tt |}.

(** The server at the start: nothing created, nothing logged. *)
Definition start (cancel : option nat) : Env World * Frame :=
  ({| world := {| created := 0; cancelAfter := cancel |}; logger := Logger.empty |},
   initialFrame).

Definition tenItems : list Item :=
  map login ["1"; "2"; "3"; "4"; "5"; "6"; "7"; "8"; "9"; "10"].

Definition fiveItems : list Item := map login ["1"; "2"; "3"; "4"; "5"].

(** [migrateVault] of the vault "src" in this world. *)
Definition migrate (items : list Item) (cliReads : bool) (cancel : option nat)
    : Result VaultResult * (Env World * Frame) :=
  migrateVault (remote items cliReads) categories anywhere "src" "Personal"
    "source-token" "dest-token" sdk sdk (readCancelled (remote items cliReads)) None
    (start cancel).

(** The ten-item vault with a cancellation request after the fourth
    item: the state once the vault is open, and the state after the four
    items that the loop goes through. *)
Definition opened : Env World * Frame :=
  Eval vm_compute in
    snd (openVault (remote tenItems true) "src" "Personal" "source-token" "dest-token"
           sdk (snd (startVault "src" "Personal" (start (Some 4))))).

Definition afterFour : Env World * Frame :=
  Eval vm_compute in
    match
      processed (remote tenItems true) categories anywhere "src" "Personal"
        "source-token" "dest-token" sdk sdk (readCancelled (remote tenItems true))
        None "dest" 10 (firstn 4 tenItems) opened
    with
    | Some s => s
    | None => opened
    end.

(** A vault of three items, the second of which the destination refuses:
    the server after the attempt at that item, from the start. *)
Definition refusal : JsError := {| message := "invalid item" |}.

Definition afterRefusal : Env World :=
  Eval vm_compute in
    snd (attemptItem (remote [login "a"; rejected; login "c"] true) categories anywhere
           "src" "source-token" "dest-token" sdk sdk None "dest" rejected
           (fst (start None))).

(** The single-vault route on the five-item vault. *)
Definition route : Result HttpResponse * (Env World * Frame) :=
  migrateVaultRoute (remote fiveItems true) categories anywhere "src" "Personal"
    "source-token" "dest-token" None (start None).

Definition answer : HttpResponse :=
  Eval vm_compute in
    match fst route with
    | Ok response => response
    | Throw _ =>
        {| httpStatus := 0; httpSuccess := false; httpMessage := "";
           httpResults := []; httpStats := None |}
    end.

Definition afterRoute : Env World * Frame := Eval vm_compute in snd route.

Definition fiveOfFive : Stats :=
  {| statSuccessCount := 5; statFailureCount := 0;
     statSourceItemCount := 5; statDestItemCount := Some 5 |}.

(** A vault of a bulk run. *)
Definition vault : VaultRef := {| vaultRefId := "src"; vaultRefName := "Personal" |}.

(** A progress callback that throws. *)
Definition closedStream (processed total succeeded failed : nat)
    : M ((Env World * Frame) * unit) unit :=
  throw {| message := "write after end" |}.

End Scenario.

(* ================================================================== *)
(** * Part I, continued: more of the server, and the vault page        *)
(* ================================================================== *)

(** ** LogManager: the calls that write to the log *)

Module LogManagerOps.

(** [this.vaultLogs[vaultId]] is a member of [Object.prototype]: truthy,
    so no array is stored for the id, and without a method [push]. *)
Definition noArrayFor (vaultId : option string) : bool :=
  match vaultId with
  | Some v => Js.namesInherited v
  | None => false
  end.

(** The [TypeError] of [this.vaultLogs[vaultId].push(entry)] then. *)
Definition pushIsNoFunction : JsError :=
  {| message := "this.vaultLogs[vaultId].push is not a function" |}.

(** [log(level, vaultId, message, metadata)], statement by statement: the
    entry goes to the global log; then to the log of the vault, which
    throws for an id without an array; then the counters. *)
Definition log (lv : Level) (vaultId : option string) (msg : string)
    (itemId : option string) : M LogManager unit :=
  fun lm =>
    let pushed :=
      {| globalLog := globalLog lm ++
           [{| level := lv; logVaultId := vaultId; logMessage := msg;
               logItemId := itemId |}];
         errorCount := errorCount lm;
         warningCount := warningCount lm;
         failedItems := failedItems lm;
         vaultSummaries := vaultSummaries lm |} in
    if noArrayFor vaultId then (Throw pushIsNoFunction, pushed)
    else
      (Ok tt,
       {| globalLog := globalLog pushed;
          errorCount := match lv with
                        | ERROR => S (errorCount pushed)
                        | _ => errorCount pushed
                        end;
          warningCount := match lv with
                          | WARNING => S (warningCount pushed)
                          | _ => warningCount pushed
                          end;
          failedItems := failedItems pushed;
          vaultSummaries := vaultSummaries pushed |}).

(** [logFailedItem(vaultId, vaultName, itemId, itemTitle, error)]: the
    item is pushed to [failedItems] before [this.error(...)] is called. *)
Definition logFailedItem (vaultId vaultName itemId itemTitle : string)
    (error : JsError) : M LogManager unit :=
  modify (fun lm =>
            {| globalLog := globalLog lm; errorCount := errorCount lm;
               warningCount := warningCount lm;
               failedItems := failedItems lm ++
                 [{| failedVaultId := vaultId; failedVaultName := vaultName;
                     failedItemId := itemId; failedItemTitle := itemTitle;
                     failedError := Js.orStr (message error) "Error" |}];
               vaultSummaries := vaultSummaries lm |}) ;;;
  log ERROR (Some vaultId)
    ("Failed to migrate item [" ++ itemId ++ "] " ++ Js.quoted itemTitle ++ ": "
       ++ message error)
    (Some itemId).

(** [logVaultComplete(vaultId, vaultName, stats)]: an assignment to
    [this.vaultSummaries[vaultId]], which for the id "__proto__" sets the
    prototype of the object and adds no entry. *)
Definition logVaultComplete (vaultId : string) (stats : VaultStats)
    : M LogManager unit :=
  modify (fun lm =>
            if String.eqb vaultId "__proto__" then lm
            else Logger.logVaultComplete vaultId stats lm).

(** [clear()] *)
Definition clear : M LogManager unit := modify (fun _ => Logger.empty).

(** A call of a method that changes the log.  [info], [warning] and
    [error] are [log] at their level. *)
Inductive Call :=
  | Log (lv : Level) (vaultId : option string) (msg : string) (itemId : option string)
  | LogFailedItem (vaultId vaultName itemId itemTitle : string) (error : JsError)
  | LogVaultComplete (vaultId : string) (stats : VaultStats)
  | Clear.

Definition method (c : Call) : M LogManager unit :=
  match c with
  | Log lv vaultId msg itemId => log lv vaultId msg itemId
  | LogFailedItem vaultId vaultName itemId itemTitle error =>
      logFailedItem vaultId vaultName itemId itemTitle error
  | LogVaultComplete vaultId stats => logVaultComplete vaultId stats
  | Clear => clear
  end.

(** The log after a call, whether it returned or threw. *)
Definition perform (lm : LogManager) (c : Call) : LogManager := snd (method c lm).

(** The log of a server that made these calls since [new LogManager()]. *)
Definition performAll (calls : list Call) : LogManager :=
  fold_left perform calls Logger.empty.

(** The calls that return: those with a vault id that has, or gets, an
    array of its own. *)
Definition returns (c : Call) : bool :=
  match c with
  | Log _ vaultId _ _ => negb (noArrayFor vaultId)
  | LogFailedItem vaultId _ _ _ _ => negb (Js.namesInherited vaultId)
  | LogVaultComplete _ _ | Clear => true
  end.

Definition levelEqb (a b : Level) : bool :=
  match a, b with
  | INFO, INFO | WARNING, WARNING | ERROR, ERROR => true
  | _, _ => false
  end.

(** How many entries of the global log have the level. *)
Definition entriesAt (lv : Level) (lm : LogManager) : nat :=
  length (filter (fun e => levelEqb (level e) lv) (globalLog lm)).

(** The test of the check mark in [getVaultStatsSummary]:
    [stats.failureCount === 0 && stats.sourceItemCount === stats.destItemCount]. *)
Definition fullyMigrated (stats : VaultStats) : bool :=
  (statsFailureCount stats =? 0)
  && (statsSourceItemCount stats =? statsDestItemCount stats).

End LogManagerOps.

(** ** getVaultItemCount, for any vault id

    [getVaultItemCount] is called with the id of the source vault, with
    the id that [op vault create] printed and, by the route that lists
    the vaults, with every id the SDK lists.  Here it is with the log as
    its method is written.  [initializeClient] logs without a vault id,
    where the two logs are the same. *)

Module AnyVaultId.
Section ItemCount.
Context {World Client : Type}.
Variable remote : Remote World Client.

(** [logger.log(...)], in the state of the server. *)
Definition logAt (lv : Level) (vaultId : option string) (msg : string)
    (item : option string) : M (Env World) unit :=
  fun s =>
    match LogManagerOps.log lv vaultId msg item (logger s) with
    | (r, lm) => (r, {| world := world s; logger := lm |})
    end.

Definition logInfo (vaultId : option string) (msg : string) : M (Env World) unit :=
  logAt INFO vaultId msg None.
Definition logWarning (vaultId : option string) (msg : string) : M (Env World) unit :=
  logAt WARNING vaultId msg None.
Definition logError (vaultId : option string) (msg : string) : M (Env World) unit :=
  logAt ERROR vaultId msg None.

(** [getVaultItemCount(vaultId, token, vaultName)] *)
Definition getVaultItemCount (vaultId token : string) : M (Env World) nat :=
  tryCatch
    (client <- initializeClient remote token ;;
     activeItems <- call (itemsList remote client vaultId ActiveItems) ;;
     let activeCount := length activeItems in
     tryCatch
       (archivedItems <- call (itemsList remote client vaultId ArchivedItems) ;;
        let archivedCount := length archivedItems in
        if 0 <? archivedCount then
          logInfo (Some vaultId) ("Contains " ++ Js.showNat archivedCount ++ " archived items")
        else ret tt)
       (fun archiveError =>
          logWarning (Some vaultId)
            ("Could not fetch archived items: " ++ message archiveError)) ;;;
     ret activeCount)
    (fun error =>
       logError (Some vaultId) ("Error fetching item count: " ++ message error) ;;;
       ret 0).

End ItemCount.
End AnyVaultId.

(** ** retryWithBackoff: the time spent waiting *)

Fixpoint totalWait {A : Type} (tr : list (RetryEvent A)) : nat :=
  match tr with
  | [] => 0
  | Slept delay :: rest => delay + totalWait rest
  | Invoked _ :: rest => totalWait rest
  end.

(** ** listVaultItems: the fields of a listed item

    The function that [listVaultItems] maps over the fields of an item
    before [migrateVault] sees them.  Of the members it writes to the
    content of an SSH key, [publicKey], [fingerprint] and [keyType] are
    read by nothing afterwards and are not members of [DetailsContent]. *)

Definition listedField (field : Field) : Field :=
  let withDetails (value : string) (details : option Details) : Field :=
    {| f_id := f_id field; f_title := f_title field; f_label := f_label field;
       f_fieldType := f_fieldType field; f_value := value;
       f_sectionId := f_sectionId field; f_details := details |} in
  if ItemFieldType.eqb (f_fieldType field) ItemFieldType.Address
     && Transcoder.hasContent field then
    withDetails (f_value field)
      (Some {| content :=
                 Some {| street := Some (Js.orOpt (Transcoder.contentMember street field) "");
                         city := Some (Js.orOpt (Transcoder.contentMember city field) "");
                         state := Some (Js.orOpt (Transcoder.contentMember state field) "");
                         zip := Some (Js.orOpt (Transcoder.contentMember zip field) "");
                         country := Some (Js.orOpt (Transcoder.contentMember country field) "");
                         privateKey := None; totp := None |} |})
  else if ItemFieldType.eqb (f_fieldType field) ItemFieldType.SshKey
          && Transcoder.hasContent field then
    withDetails (f_value field)
      (Some {| content :=
                 Some {| street := None; city := None; state := None; zip := None;
                         country := None;
                         privateKey :=
                           Some (Js.orOpt (Transcoder.contentMember privateKey field)
                                          (Js.orStr (f_value field) ""));
                         totp := None |} |})
  else if ItemFieldType.eqb (f_fieldType field) ItemFieldType.Totp then
    withDetails (Js.orOpt (Transcoder.contentMember totp field) (Js.orStr (f_value field) ""))
      (match f_details field with
       | Some details => Some details
       | None => Some {| content := None |}
       end)
  else field.

(** ** The files of an item: what [withFiles] guarantees *)





(** ** The vault manager page: permission check boxes

    [permissionDeps], [handlePermissionChange] and [togglePermission] of
    the page script.  The document is what [getElementById(id).checked]
    reads: the state of the check box with the id, or nothing when no
    element has the id. *)

Module VaultManagerPage.

Definition permissionDeps : list (string * list string) :=
  [ ("perm-view-items", []);
    ("perm-create-items", ["perm-view-items"]);
    ("perm-view-passwords", ["perm-view-items"]);
    ("perm-edit-items", ["perm-view-items"; "perm-view-passwords"]);
    ("perm-archive-items", ["perm-view-items"; "perm-edit-items"; "perm-view-passwords"]);
    ("perm-delete-items", ["perm-view-items"; "perm-edit-items"; "perm-view-passwords"]);
    ("perm-view-history", ["perm-view-items"; "perm-view-passwords"]);
    ("perm-import-items", ["perm-view-items"; "perm-create-items"]);
    ("perm-export-items", ["perm-view-items"; "perm-view-history"; "perm-view-passwords"]);
    ("perm-copy-share", ["perm-view-items"; "perm-view-history"; "perm-view-passwords"]);
    ("perm-move-items", ["perm-view-items"; "perm-edit-items"; "perm-delete-items";
                         "perm-view-history"; "perm-view-passwords"; "perm-copy-share"]);
    ("perm-print-items", ["perm-view-items"; "perm-view-passwords"; "perm-view-history"]);
    ("perm-manage-vault", []) ].

(** [Object.keys(permissionDeps)] *)
Definition permissionIds : list string := map fst permissionDeps.

(** The members an object literal inherits: [permissionDeps[name]] is one
    of them, not a list, when [name] is no key of the table. *)
Definition inheritedMembers : list string :=
  ["constructor"; "__defineGetter__"; "__defineSetter__"; "hasOwnProperty";
   "__lookupGetter__"; "__lookupSetter__"; "isPrototypeOf"; "propertyIsEnumerable";
   "toString"; "valueOf"; "__proto__"; "toLocaleString"].

(** [permissionDeps[permId]] for a key of the table; the empty list
    otherwise. *)
Definition depsOf (permId : string) : list string :=
  match find (fun entry => String.eqb (fst entry) permId) permissionDeps with
  | Some entry => snd entry
  | None => []
  end.

Definition Dom : Type := string -> option bool.

(** [document.getElementById(id).checked = b] for an element that exists. *)
Definition setChecked (id : string) (b : bool) (dom : Dom) : Dom :=
  fun x => if String.eqb x id then Some b else dom x.

(** [deps.forEach(depId => ...)]: every dependency that has a check box
    and is not checked gets checked. *)
Definition checkAll (deps : list string) (dom : Dom) : Dom :=
  fold_left (fun d depId =>
               match d depId with
               | Some false => setChecked depId true d
               | _ => d
               end) deps dom.

(** [Object.keys(permissionDeps).forEach(otherId => ...)]: every
    permission that lists [permId] and is checked gets unchecked. *)
Definition uncheckDependents (permId : string) (dom : Dom) : Dom :=
  fold_left (fun d otherId =>
               if existsb (String.eqb permId) (depsOf otherId) then
                 match d otherId with
                 | Some true => setChecked otherId false d
                 | _ => d
                 end
               else d) permissionIds dom.

Definition handlePermissionChange (permId : string) : M Dom unit :=
  checkbox <- gets (fun dom : Dom => dom permId) ;;
  match checkbox with
  | None => throw {| message := "Cannot read properties of null (reading 'checked')" |}
  | Some true =>
      if existsb (String.eqb permId) permissionIds then modify (checkAll (depsOf permId))
      else if existsb (String.eqb permId) inheritedMembers then
        throw {| message := "deps.forEach is not a function" |}
      else ret tt
  | Some false => modify (uncheckDependents permId)
  end.

Definition togglePermission (permId : string) : M Dom unit :=
  checkbox <- gets (fun dom : Dom => dom permId) ;;
  match checkbox with
  | Some checked =>
      modify (setChecked permId (negb checked)) ;;;
      handlePermissionChange permId
  | None => ret tt
  end.

(** No checked permission has a dependency whose box is unchecked. *)
Definition closed (dom : Dom) : Prop :=
  forall permId depId,
    In depId (depsOf permId) -> dom permId = Some true -> dom depId = Some false -> False.

(** A page with every box of the table, none checked. *)
Definition blankPage : Dom :=
  fun id => if existsb (String.eqb id) permissionIds then Some false else None.

(** *** The selection of vaults

    [selectedVaults], [toggleVaultSelection] and [updateBulkActionButton].
    [renderVaultList()], the last statement of [toggleVaultSelection],
    redraws the list from the selection and writes neither the selection
    nor the button; it is left out. *)

(** The element with the id [bulkActionBtn]: whether its class list has
    [hidden], and its text. *)
Record BulkButton := {
  hidden : bool;
  textContent : string
}.

Record Page := {
  selectedVaults : list string;
  bulkActionBtn : option BulkButton
}.

(** [array.indexOf(x)]; [None] is -1. *)
Fixpoint indexOf (x : string) (l : list string) : option nat :=
  match l with
  | [] => None
  | y :: rest =>
      if String.eqb y x then Some 0
      else match indexOf x rest with
           | Some i => Some (S i)
           | None => None
           end
  end.

(** [array.splice(index, 1)], for what it leaves in the array. *)
Fixpoint splice1 (index : nat) (l : list string) : list string :=
  match l, index with
  | [], _ => []
  | _ :: rest, 0 => rest
  | y :: rest, S i => y :: splice1 i rest
  end.

Definition updateBulkActionButton (p : Page) : Page :=
  match bulkActionBtn p with
  | Some bulkBtn =>
      {| selectedVaults := selectedVaults p;
         bulkActionBtn :=
           Some (if 0 <? length (selectedVaults p) then
                   {| hidden := false;
                      textContent := "Grant Permissions ("
                                       ++ Js.showNat (length (selectedVaults p)) ++ ")" |}
                 else {| hidden := true; textContent := textContent bulkBtn |}) |}
  | None => p
  end.

Definition toggleVaultSelection (vaultId : string) (p : Page) : Page :=
  updateBulkActionButton
    {| selectedVaults :=
         match indexOf vaultId (selectedVaults p) with
         | Some index => splice1 index (selectedVaults p)
         | None => selectedVaults p ++ [vaultId]
         end;
       bulkActionBtn := bulkActionBtn p |}.

(** A page on which two vaults are selected. *)
Definition twoSelected : Page :=
  {| selectedVaults := ["v1"; "v2"];
     bulkActionBtn := Some {| hidden := false; textContent := "Grant Permissions (2)" |} |}.

End VaultManagerPage.

(** ** The event stream of the bulk route *)

(** The events after which the route ends the response. *)
Definition isTerminal (e : SseEvent) : bool :=
  match e with
  | CancelledByUser _ | Finished _ _ _ _ | FinishedWithError _ => true
  | Preparing _ _ _ _ | Migrating _ _ _ _ _ _ _ _ | VaultOutcome _ _ _ => false
  end.

(** The outcomes of the vaults that a stream reports, in order. *)
Definition reportedOutcomes (events : list SseEvent) : list Outcome :=
  flat_map (fun e => match e with
                     | VaultOutcome _ _ outcome => [outcome]
                     | _ => []
                     end) events.

(** A stream that goes on from [events] with events that do not end it. *)
Definition goesOn {S : Type} (events : list SseEvent) (st : S * list SseEvent) : Prop :=
  exists more,
    snd st = events ++ more /\ forallb (fun e => negb (isTerminal e)) more = true.

(** The events of the progress callback of a vault. *)
Definition isProgress (e : SseEvent) : bool :=
  match e with
  | Migrating _ _ _ _ _ _ _ _ => true
  | _ => false
  end.

(** [outcome.vaultId] *)
Definition outcomeVaultId (o : Outcome) : string :=
  match o with
  | VaultDone vaultId _ _ _ _ => vaultId
  | VaultFailed vaultId _ _ _ => vaultId
  end.

(** The new events of a stream are progress events. *)
Definition onlyProgress {S : Type} (events : list SseEvent) (st : S * list SseEvent)
    : Prop :=
  exists more, snd st = events ++ more /\ forallb isProgress more = true.

(** ** More cases to run the server on *)

Module Cases.
Import Scenario.

(** The world of [Scenario], with a destination that may refuse to create
    a vault, a source whose items may fail to list, and a source that
    returns the full item [full] when asked for one. *)
Definition remote (items : list Item) (createFails listFails : bool)
    (full : option FullItem) : Remote World unit :=
  let r := Scenario.remote items true in
  {| createClient := createClient r;
     vaultsList := fun _ w => (Ok [vault; {| vaultRefId := "v2"; vaultRefName := "Work" |}], w);
     itemsList := itemsList r;
     itemsGet := fun client vaultId itemId w =>
       match full with
       | Some fullItem => (Ok fullItem, w)
       | None => itemsGet r client vaultId itemId w
       end;
     filesRead := filesRead r;
     itemsCreate := itemsCreate r;
     listVaultItems := fun sdk vaultId w =>
       if listFails then
         ((Throw {| message := "Failed to list items for vault src: timeout" |}, []), w)
       else listVaultItems r sdk vaultId w;
     opVaultCreate := fun token name w =>
       if createFails then (Throw {| message := "vault limit reached" |}, w)
       else opVaultCreate r token name w;
     opItemGet := opItemGet r;
     opItemTemplateList := opItemTemplateList r;
     opItemCreate := opItemCreate r;
     writeFileSync := writeFileSync r;
     unlinkSync := unlinkSync r;
     dateNow := dateNow r;
     setTimeout := setTimeout r;
     isMigrationCancelled := isMigrationCancelled r;
     clearMigrationCancelled := clearMigrationCancelled r |}.

(** The world of [Scenario] with a command line tool that may refuse to
    create an item, and temporary files that may not be removed. *)
Definition bridgeRemote (createFails unlinkFails : bool) : Remote World unit :=
  let r := Scenario.remote [custom] true in
  {| createClient := createClient r;
     vaultsList := vaultsList r;
     itemsList := itemsList r;
     itemsGet := itemsGet r;
     filesRead := filesRead r;
     itemsCreate := itemsCreate r;
     listVaultItems := listVaultItems r;
     opVaultCreate := opVaultCreate r;
     opItemGet := opItemGet r;
     opItemTemplateList := opItemTemplateList r;
     opItemCreate := fun token vaultId file w =>
       if createFails then (Throw {| message := "item create failed" |}, w)
       else opItemCreate r token vaultId file w;
     writeFileSync := writeFileSync r;
     unlinkSync := fun file w =>
       if unlinkFails then (Throw {| message := "EACCES: permission denied" |}, w)
       else unlinkSync r file w;
     dateNow := dateNow r;
     setTimeout := setTimeout r;
     isMigrationCancelled := isMigrationCancelled r;
     clearMigrationCancelled := clearMigrationCancelled r |}.

(** The world of [Scenario] with other vaults: with [archived] 0, the
    items of a vault cannot be listed; otherwise a vault has two active
    items and [archived] archived ones. *)
Definition unlisted (archived : nat) : Remote World unit :=
  let r := Scenario.remote [] true in
  {| createClient := createClient r;
     vaultsList := vaultsList r;
     itemsList := fun _ _ filter w =>
       match filter with
       | ActiveItems =>
           if 0 <? archived then (Ok (overviews 2), w)
           else (Throw {| message := "vault not found" |}, w)
       | ArchivedItems => (Ok (overviews archived), w)
       end;
     itemsGet := itemsGet r;
     filesRead := filesRead r;
     itemsCreate := itemsCreate r;
     listVaultItems := listVaultItems r;
     opVaultCreate := opVaultCreate r;
     opItemGet := opItemGet r;
     opItemTemplateList := opItemTemplateList r;
     opItemCreate := opItemCreate r;
     writeFileSync := writeFileSync r;
     unlinkSync := unlinkSync r;
     dateNow := dateNow r;
     setTimeout := setTimeout r;
     isMigrationCancelled := isMigrationCancelled r;
     clearMigrationCancelled := clearMigrationCancelled r |}.


(** A secure note whose notes are blank. *)
Definition blankNote : Item :=
  {| itemId := "n1"; itemTitle := "Note"; itemCategory := Some "SecureNote";
     itemFields := []; itemSections := []; itemFiles := []; itemTags := [];
     itemWebsites := []; itemNotes := "  " |}.

(** A payment card, and the full item the source returns for it. *)
Definition card : Item :=
  {| itemId := "c1"; itemTitle := "Visa"; itemCategory := Some "CreditCard";
     itemFields := [seedField]; itemSections := []; itemFiles := []; itemTags := [];
     itemWebsites := []; itemNotes := "" |}.

Definition fullCard : FullItem :=
  {| fullCategory := Some "CreditCard"; fullDocument := None;
     fullFields := [mastercardTypeField] |}.

(** The server at the start of [Scenario], as the state of a stream. *)
Definition startStream : (Env World * Frame) * list SseEvent := (start None, []).

End Cases.

(* ================================================================== *)
(** * Part II: properties                                              *)
(* ================================================================== *)

(** ** Strings *)

Section StringFacts.
Import Js.

Lemma orStr_empty_r (s : string) : orStr s "" = s.
Proof.
  unfold orStr. destruct (String.eqb_spec s ""); congruence.
Qed.

Lemma orStr_nonempty (s d : string) : s <> "" -> orStr s d = s.
Proof.
  intros H. unfold orStr. destruct (String.eqb_spec s ""); congruence.
Qed.

Lemma digit_not_dash (c : ascii) : isDigit c = true -> Ascii.eqb c Transcoder.dash = false.
Proof.
  intros H. destruct (Ascii.eqb_spec c Transcoder.dash) as [->|]; [discriminate H | reflexivity].
Qed.

(** What a match of a four-, five- and seven-character pattern says. *)
Lemma matchSeq4_inv p1 p2 p3 p4 v :
  matchSeq [p1; p2; p3; p4] v = true ->
  exists a b c d,
    v = String a (String b (String c (String d EmptyString)))
    /\ p1 a = true /\ p2 b = true /\ p3 c = true /\ p4 d = true.
Proof.
  intros H.
  destruct v as [|a [|b [|c [|d [|? ?]]]]]; simpl in H;
    repeat rewrite ?andb_false_r in H; try discriminate H.
  repeat (apply andb_prop in H; destruct H as [? H]).
  exists a, b, c, d. repeat split; auto.
Qed.

Lemma matchSeq5_inv p1 p2 p3 p4 p5 v :
  matchSeq [p1; p2; p3; p4; p5] v = true ->
  exists a b c d e,
    v = String a (String b (String c (String d (String e EmptyString))))
    /\ p1 a = true /\ p2 b = true /\ p3 c = true /\ p4 d = true /\ p5 e = true.
Proof.
  intros H.
  destruct v as [|a [|b [|c [|d [|e [|? ?]]]]]]; simpl in H;
    repeat rewrite ?andb_false_r in H; try discriminate H.
  repeat (apply andb_prop in H; destruct H as [? H]).
  exists a, b, c, d, e. repeat split; auto.
Qed.

Lemma matchSeq7_inv p1 p2 p3 p4 p5 p6 p7 v :
  matchSeq [p1; p2; p3; p4; p5; p6; p7] v = true ->
  exists a b c d e f g,
    v = String a (String b (String c (String d (String e (String f (String g EmptyString))))))
    /\ p1 a = true /\ p2 b = true /\ p3 c = true /\ p4 d = true
    /\ p5 e = true /\ p6 f = true /\ p7 g = true.
Proof.
  intros H.
  destruct v as [|a [|b [|c [|d [|e [|f [|g [|? ?]]]]]]]]; simpl in H;
    repeat rewrite ?andb_false_r in H; try discriminate H.
  repeat (apply andb_prop in H; destruct H as [? H]).
  exists a, b, c, d, e, f, g. repeat split; auto.
Qed.

End StringFacts.

(** ** Expiry normalization *)

Section ExpiryFacts.
Import Js Transcoder.

Lemma normalizeExpiry_slash a b c d e f :
  isDigit a = true -> isDigit b = true -> isDigit c = true ->
  isDigit d = true -> isDigit e = true -> isDigit f = true ->
  normalizeExpiry (monthSlashYear a b c d e f) = monthSlashYear a b c d e f.
Proof.
  intros Ha Hb Hc Hd He Hf.
  unfold normalizeExpiry, monthSlashYear, orStr. cbn.
  rewrite Ha, Hb, Hc, Hd, He, Hf. reflexivity.
Qed.

Lemma normalizeExpiry_dash a b c d e f :
  isDigit a = true -> isDigit b = true -> isDigit c = true ->
  isDigit d = true -> isDigit e = true -> isDigit f = true ->
  normalizeExpiry (monthDashYear a b c d e f) = monthSlashYear a b c d e f.
Proof.
  intros Ha Hb Hc Hd He Hf.
  unfold normalizeExpiry, monthDashYear, monthSlashYear, orStr. cbn.
  rewrite Ha, Hb, Hc, Hd, He, Hf. cbn.
  rewrite (digit_not_dash a Ha), (digit_not_dash b Hb). reflexivity.
Qed.

Lemma normalizeExpiry_four a b c d :
  isDigit a = true -> isDigit b = true -> isDigit c = true -> isDigit d = true ->
  normalizeExpiry (fourDigits a b c d) = monthSlashYear a b two zero c d.
Proof.
  intros Ha Hb Hc Hd.
  unfold normalizeExpiry, fourDigits, monthSlashYear, orStr. cbn.
  rewrite Ha, Hb, Hc, Hd. cbn.
  rewrite !andb_false_r. reflexivity.
Qed.

Lemma normalizeExpiry_short a b c d :
  isDigit a = true -> isDigit b = true -> isDigit c = true -> isDigit d = true ->
  normalizeExpiry (monthSlashShortYear a b c d) = monthSlashYear a b two zero c d.
Proof.
  intros Ha Hb Hc Hd.
  unfold normalizeExpiry, monthSlashShortYear, monthSlashYear, orStr. cbn.
  rewrite Ha, Hb. cbn.
  destruct (isDigit slash) eqn:Hs; [discriminate Hs|].
  rewrite Hc, Hd. cbn. reflexivity.
Qed.

End ExpiryFacts.

Section ExpiryTheorems.
Import Js Transcoder.

Lemma monthSlashYear_matches a b c d e f :
  isDigit a = true -> isDigit b = true -> isDigit c = true ->
  isDigit d = true -> isDigit e = true -> isDigit f = true ->
  matchSeq reMonthSlashYear (monthSlashYear a b c d e f) = true.
Proof.
  intros Ha Hb Hc Hd He Hf. unfold monthSlashYear. cbn.
  rewrite Ha, Hb, Hc, Hd, He, Hf. reflexivity.
Qed.

Lemma normalizeExpiry_fixed (v : string) :
  matchSeq reMonthSlashYear v = true -> normalizeExpiry v = v.
Proof.
  intros H. unfold normalizeExpiry. rewrite orStr_empty_r.
  destruct (String.eqb_spec v "") as [->|Hne]; [discriminate H|].
  cbn [negb]. rewrite H. reflexivity.
Qed.

Lemma normalizeExpiry_other (v : string) :
  matchSeq reMonthSlashYear v = false ->
  matchSeq reMonthDashYear v = false ->
  matchSeq reFourDigits v = false ->
  matchSeq reMonthSlashShortYear v = false ->
  normalizeExpiry v = "01/1970".
Proof.
  intros H1 H2 H3 H4. unfold normalizeExpiry. rewrite orStr_empty_r.
  destruct (String.eqb v ""); cbn [negb]; [reflexivity|].
  rewrite H1, H2, H3, H4. reflexivity.
Qed.

Lemma ascii_eqb_true (x y : ascii) : Ascii.eqb x y = true -> y = x.
Proof. intros H. apply Ascii.eqb_eq in H. congruence. Qed.

(** Every expiry comes out in the shape [MM/YYYY]. *)
Lemma normalizeExpiry_shape (v : string) :
  matchSeq reMonthSlashYear (normalizeExpiry v) = true.
Proof.
  destruct (matchSeq reMonthSlashYear v) eqn:H1.
  { rewrite normalizeExpiry_fixed; assumption. }
  destruct (matchSeq reMonthDashYear v) eqn:H2.
  { apply matchSeq7_inv in H2.
    destruct H2 as (a & b & x & c & d & e & f & -> & Ha & Hb & Hx & Hc & Hd & He & Hf).
    apply ascii_eqb_true in Hx. subst x.
    change (matchSeq reMonthSlashYear (normalizeExpiry (monthDashYear a b c d e f)) = true).
    rewrite normalizeExpiry_dash by assumption.
    apply monthSlashYear_matches; assumption. }
  destruct (matchSeq reFourDigits v) eqn:H3.
  { apply matchSeq4_inv in H3.
    destruct H3 as (a & b & c & d & -> & Ha & Hb & Hc & Hd).
    change (matchSeq reMonthSlashYear (normalizeExpiry (fourDigits a b c d)) = true).
    rewrite normalizeExpiry_four by assumption.
    apply monthSlashYear_matches; auto. }
  destruct (matchSeq reMonthSlashShortYear v) eqn:H4.
  { apply matchSeq5_inv in H4.
    destruct H4 as (a & b & x & c & d & -> & Ha & Hb & Hx & Hc & Hd).
    apply ascii_eqb_true in Hx. subst x.
    change (matchSeq reMonthSlashYear (normalizeExpiry (monthSlashShortYear a b c d)) = true).
    rewrite normalizeExpiry_short by assumption.
    apply monthSlashYear_matches; auto. }
  rewrite normalizeExpiry_other by assumption. reflexivity.
Qed.

Lemma normalizeExpiry_idempotent (v : string) :
  normalizeExpiry (normalizeExpiry v) = normalizeExpiry v.
Proof. apply normalizeExpiry_fixed, normalizeExpiry_shape. Qed.

(** The value and the type the payment-card mapper gives a field, by the
    roles of the field: a later role wins. *)
Lemma creditCardField_value (field : Field) :
  nf_value (creditCardField field) =
    if hasExpiryRole field then VStr (normalizeExpiry (f_value field))
    else if hasTypeRole field then cardTypeValue (f_value field)
    else VStr (orStr (f_value field) "").
Proof.
  unfold creditCardField.
  destruct (hasTypeRole field), (hasExpiryRole field), (hasNumberRole field),
    (hasCvvRole field), (hasPinRole field); cbn;
    match goal with |- context [if ?c then _ else _] => destruct c end; reflexivity.
Qed.

Lemma creditCardField_fieldType (field : Field) :
  nf_fieldType (creditCardField field) =
    if hasPinRole field || hasCvvRole field then ItemFieldType.Concealed
    else if hasNumberRole field then ItemFieldType.CreditCardNumber
    else if hasExpiryRole field then ItemFieldType.MonthYear
    else if hasTypeRole field then ItemFieldType.CreditCardType
    else f_fieldType field.
Proof.
  unfold creditCardField.
  destruct (hasTypeRole field), (hasExpiryRole field), (hasNumberRole field),
    (hasCvvRole field), (hasPinRole field); cbn;
    match goal with |- context [if ?c then _ else _] => destruct c end; reflexivity.
Qed.

(** C2.  Expiry normalization, the block of the payment-card mapper that
    every field with the expiry role goes through, always yields a value
    of the shape [MM/YYYY] and is idempotent.  A value already in that
    shape is returned as it is; [MM-YYYY] becomes [MM/YYYY]; [MMYY] and
    [MM/YY] become [MM/20YY], so "0225" becomes "02/2025"; the empty
    string and every value of none of the four shapes become "01/1970".
    The mapper keeps every field, and a field with the expiry role
    carries the normalized value. *)
Theorem C2_expiry_normalization :
  (forall v, matchSeq reMonthSlashYear (normalizeExpiry v) = true)
  /\ (forall v, normalizeExpiry (normalizeExpiry v) = normalizeExpiry v)
  /\ (forall v, matchSeq reMonthSlashYear v = true -> normalizeExpiry v = v)
  /\ (forall a b c d e f,
        forallb isDigit [a; b; c; d; e; f] = true ->
        normalizeExpiry (monthDashYear a b c d e f) = monthSlashYear a b c d e f)
  /\ (forall a b c d,
        forallb isDigit [a; b; c; d] = true ->
        normalizeExpiry (fourDigits a b c d) = monthSlashYear a b two zero c d)
  /\ (forall a b c d,
        forallb isDigit [a; b; c; d] = true ->
        normalizeExpiry (monthSlashShortYear a b c d) = monthSlashYear a b two zero c d)
  /\ normalizeExpiry "0225" = "02/2025"
  /\ normalizeExpiry "" = "01/1970"
  /\ (forall v,
        matchSeq reMonthSlashYear v = false ->
        matchSeq reMonthDashYear v = false ->
        matchSeq reFourDigits v = false ->
        matchSeq reMonthSlashShortYear v = false ->
        normalizeExpiry v = "01/1970")
  /\ (forall field,
        hasExpiryRole field = true ->
        nf_value (creditCardField field) = VStr (normalizeExpiry (f_value field)))
  /\ (forall fields, length (map creditCardField fields) = length fields).
Proof.
  split; [exact normalizeExpiry_shape|].
  split; [exact normalizeExpiry_idempotent|].
  split; [exact normalizeExpiry_fixed|].
  split.
  { intros a b c d e f H. cbn in H.
    repeat (apply andb_prop in H; destruct H as [? H]).
    apply normalizeExpiry_dash; assumption. }
  split.
  { intros a b c d H. cbn in H.
    repeat (apply andb_prop in H; destruct H as [? H]).
    apply normalizeExpiry_four; assumption. }
  split.
  { intros a b c d H. cbn in H.
    repeat (apply andb_prop in H; destruct H as [? H]).
    apply normalizeExpiry_short; assumption. }
  split; [reflexivity|].
  split; [reflexivity|].
  split; [exact normalizeExpiry_other|].
  split.
  { intros field H. rewrite creditCardField_value, H. reflexivity. }
  intros fields. apply length_map.
Qed.

End ExpiryTheorems.

(** ** Card types and one-time codes *)

Section FieldTheorems.
Import Js Transcoder.

Lemma cardTypeValue_unrecognized (v : string) :
  cardTypeMap (toLowerCase v) = None -> cardTypeValue v = VStr (orStr v "Unknown").
Proof. intros H. unfold cardTypeValue. rewrite H. reflexivity. Qed.

Lemma cardTypeValue_recognized (v : string) :
  (toLowerCase v = "mc" -> cardTypeValue v = VStr "Mastercard")
  /\ (toLowerCase v = "visa" -> cardTypeValue v = VStr "Visa")
  /\ (toLowerCase v = "amex" -> cardTypeValue v = VStr "American Express")
  /\ (toLowerCase v = "discover" -> cardTypeValue v = VStr "Discover").
Proof.
  unfold cardTypeValue. repeat split; intros ->; reflexivity.
Qed.

(** C1, as stated, fails: "jcb" is not one of the four abbreviations, the
    field has the card-type role, and the destination value is "jcb", not
    "Unknown".  Besides, a field with the card-type role whose title also
    contains "pin" ends with the concealed type, not the card-type one;
    and one that also has the expiry role ends as an expiry date. *)
Lemma C1_unrecognized_abbreviation_is_kept :
  hasTypeRole jcbTypeField = true
  /\ cardTypeMap (toLowerCase (f_value jcbTypeField)) = None
  /\ nf_fieldType (creditCardField jcbTypeField) = ItemFieldType.CreditCardType
  /\ nf_value (creditCardField jcbTypeField) = VStr "jcb"
  /\ nf_value (creditCardField jcbTypeField) <> VStr "Unknown"
  /\ hasTypeRole pinTypeField = true
  /\ nf_fieldType (creditCardField pinTypeField) = ItemFieldType.Concealed
  /\ hasTypeRole expiryTypeField = true
  /\ nf_fieldType (creditCardField expiryTypeField) = ItemFieldType.MonthYear
  /\ nf_value (creditCardField expiryTypeField) = VStr "01/1970".
Proof.
  repeat split; try reflexivity. cbv. discriminate.
Qed.

(** The keys at which [cardTypeMap[key]] is not [undefined]: the four of
    the table, and the two names of inherited members that are in lower
    case. *)
Lemma cardTypeMap_none (key : string) :
  ~ In key ["mc"; "visa"; "amex"; "discover"; "constructor"; "__proto__"] ->
  cardTypeMap key = None.
Proof.
  intros Hout. unfold cardTypeMap.
  repeat match goal with
         | |- context [String.eqb key ?k] =>
             destruct (String.eqb_spec key k) as [->|_];
             [exfalso; apply Hout; cbn; tauto|]
         end.
  reflexivity.
Qed.

(** C1, amended.  For a payment-card field whose id is "type" or whose
    title contains "type" in any case, and which has not the expiry role
    as well: the destination value is "Mastercard", "Visa", "American
    Express" or "Discover" when the value is "mc", "visa", "amex" or
    "discover" in any case; a value that is not empty and, in lower case,
    is none of these four and neither "constructor" nor "__proto__" is
    kept as it is; and the empty value becomes "Unknown".  The
    destination type is the credit-card-type one unless the field also has
    the number, verification or PIN role, which come later and win. *)
Theorem C1_card_type_field (field : Field) :
  hasTypeRole field = true ->
  hasExpiryRole field = false ->
  let value := f_value field in
  let newField := creditCardField field in
  (hasNumberRole field = false -> hasCvvRole field = false -> hasPinRole field = false ->
   nf_fieldType newField = ItemFieldType.CreditCardType)
  /\ (toLowerCase value = "mc" -> nf_value newField = VStr "Mastercard")
  /\ (toLowerCase value = "visa" -> nf_value newField = VStr "Visa")
  /\ (toLowerCase value = "amex" -> nf_value newField = VStr "American Express")
  /\ (toLowerCase value = "discover" -> nf_value newField = VStr "Discover")
  /\ (value <> "" ->
      ~ In (toLowerCase value)
           ["mc"; "visa"; "amex"; "discover"; "constructor"; "__proto__"] ->
      nf_value newField = VStr value)
  /\ (value = "" -> nf_value newField = VStr "Unknown").
Proof.
  intros Htype Hexpiry value newField. subst value newField.
  rewrite creditCardField_value, creditCardField_fieldType, Htype, Hexpiry.
  destruct (cardTypeValue_recognized (f_value field)) as (Hmc & Hvisa & Hamex & Hdisc).
  repeat split; auto.
  - intros -> -> ->. reflexivity.
  - intros Hne Hout. rewrite cardTypeValue_unrecognized by (apply cardTypeMap_none, Hout).
    rewrite orStr_nonempty by assumption. reflexivity.
  - intros ->. reflexivity.
Qed.

Lemma C1_card_type_field_witness :
  nf_fieldType (creditCardField mastercardTypeField) = ItemFieldType.CreditCardType
  /\ nf_value (creditCardField mastercardTypeField) = VStr "Mastercard".
Proof.
  destruct (C1_card_type_field mastercardTypeField eq_refl eq_refl)
    as (Htype & Hmc & _).
  split; [apply Htype; reflexivity | apply Hmc; reflexivity].
Defined.

(** What C1, amended, leaves out: a card type that reads "constructor" or
    "__proto__" in lower case finds the member of that name which the
    table inherits, and the member, not a string, is the value written. *)
Remark a_card_type_may_name_an_inherited_member :
  let field (value : string) :=
    {| f_id := "type"; f_title := "type"; f_label := None;
       f_fieldType := ItemFieldType.Text; f_value := value;
       f_sectionId := None; f_details := None |} in
  nf_value (creditCardField (field "Constructor")) = VInherited "constructor"
  /\ nf_value (creditCardField (field "__proto__")) = VInherited "__proto__"
  /\ nf_value (creditCardField (field "toString")) = VStr "toString".
Proof. repeat split. Qed.

(** C3, as stated, fails: the value starts with the [otpauth] URI scheme,
    yet the field is downgraded to plain text, because the code asks for
    the longer prefix [otpauth://totp/].  Besides, the mapper of payment
    cards has no one-time-code branch: there a code that is neither a seed
    nor a URI keeps its type; and a field with an empty value takes the
    code of its details for value. *)
Lemma C3_otpauth_scheme_is_not_enough :
  f_fieldType hotpField = ItemFieldType.Totp
  /\ startsWith (f_value hotpField) "otpauth://" = true
  /\ nf_fieldType (otherField hotpField) = ItemFieldType.Text
  /\ nf_fieldType (otherField hotpField) <> ItemFieldType.Totp
  /\ f_fieldType detailsTotpField = ItemFieldType.Totp
  /\ f_value detailsTotpField = ""
  /\ nf_value (otherField detailsTotpField) = VStr "JBSWY3DPEHPK3PXP"
  /\ f_fieldType helloField = ItemFieldType.Totp
  /\ isPotentialTotpSeed (f_value helloField) = false
  /\ startsWith (f_value helloField) "otpauth://" = false
  /\ nf_fieldType (creditCardField helloField) = ItemFieldType.Totp.
Proof.
  repeat split; try reflexivity. cbv. discriminate.
Qed.

(** C3, amended.  For a field of one-time-code type of an item that is
    not a payment card, let the code be the value of the field, or
    [details.content.totp] when the value is empty.  If the code matches
    [^[A-Z2-7]{16,32}$] in any case or starts with [otpauth://totp/], the
    destination field keeps the one-time-code type and carries the code;
    otherwise the type is downgraded to plain text and the field still
    carries the code unchanged. *)
Theorem C3_totp_field (field : Field) :
  f_fieldType field = ItemFieldType.Totp ->
  let code := totpValueOf field in
  let newField := otherField field in
  (f_value field <> "" -> code = f_value field)
  /\ nf_value newField = VStr code
  /\ (isPotentialTotpSeed code = true \/ isValidTotpUri code = true ->
      nf_fieldType newField = ItemFieldType.Totp)
  /\ (isPotentialTotpSeed code = false -> isValidTotpUri code = false ->
      nf_fieldType newField = ItemFieldType.Text).
Proof.
  intros Htotp code newField. subst code newField.
  split.
  { intros Hne. unfold totpValueOf. apply orStr_nonempty. assumption. }
  unfold otherField. rewrite Htotp. cbn [ItemFieldType.eqb andb orb].
  destruct (isValidTotpUri (totpValueOf field)) eqn:Huri;
    destruct (isPotentialTotpSeed (totpValueOf field)) eqn:Hseed; cbn;
    repeat split; auto; try discriminate.
  intros [H|H]; discriminate H.
Qed.

Lemma C3_totp_field_witness :
  nf_fieldType (otherField seedField) = ItemFieldType.Totp
  /\ nf_value (otherField seedField) = VStr "JBSWY3DPEHPK3PXP".
Proof.
  destruct (C3_totp_field seedField eq_refl) as (_ & Hvalue & Hkeep & _).
  split; [apply Hkeep; left; reflexivity | exact Hvalue].
Defined.

End FieldTheorems.

(** ** retryWithBackoff

    To speak of the invocations and the waits of a run, the operation and
    the timer are made to record them: the state is paired with the list
    of events so far.  The timer and the warning never throw (in the
    server they are [setTimeout] and [logger.warning]). *)

Section RetryTrace.
Context {St A : Type}.
Variable tick : nat -> St -> St.
Variable warn : nat -> nat -> JsError -> St -> St.
Variable fn : M St A.

Lemma outcomes_app (tr1 tr2 : list (RetryEvent A)) :
  outcomes (tr1 ++ tr2) = outcomes tr1 ++ outcomes tr2.
Proof.
  induction tr1 as [|[r|d] tr1 IH]; cbn; [reflexivity | f_equal; exact IH | exact IH].
Qed.

Lemma outcomes_schedule (baseDelay attempt : nat) (outs : list (Result A)) :
  outcomes (schedule baseDelay attempt outs) = outs.
Proof.
  revert attempt. induction outs as [|o [|o' rest] IH]; intros attempt; cbn; try reflexivity.
  f_equal. exact (IH (S attempt)).
Qed.

(** One turn of the recorded loop. *)
Lemma retryLoop_step (maxRetries baseDelay remaining attempt : nat) s tr :
  Retry.retryLoop (tracedSleep tick) (tracedWarn warn) (tracedFn fn)
    maxRetries baseDelay (S remaining) attempt (s, tr)
  = match fn s with
    | (Ok a, s1) => (Ok (Some a), (s1, tr ++ [Invoked (Ok a)]))
    | (Throw e, s1) =>
        if Retry.isTransient e && (attempt <? maxRetries) then
          let delay := baseDelay * 2 ^ (attempt - 1) in
          Retry.retryLoop (tracedSleep tick) (tracedWarn warn) (tracedFn fn)
            maxRetries baseDelay remaining (S attempt)
            (tick delay (warn attempt delay e s1),
             (tr ++ [Invoked (Throw e)]) ++ [Slept delay])
        else (Throw e, (s1, tr ++ [Invoked (Throw e)]))
    end.
Proof.
  cbn [Retry.retryLoop]. unfold tryCatch, bind, tracedFn. cbn [fst snd].
  destruct (fn s) as [[a|e] s1]; [reflexivity|].
  destruct (Retry.isTransient e && (attempt <? maxRetries)); reflexivity.
Qed.

(** The loop, entered at [attempt] with [remaining] turns left, appends
    to the trace the schedule of some attempts. *)
Lemma retryLoop_trace (maxRetries baseDelay : nat) :
  forall remaining attempt s tr,
    remaining + attempt = S maxRetries ->
    1 <= attempt ->
    exists outs,
      Attempts maxRetries attempt outs
        (fst (Retry.retryLoop (tracedSleep tick) (tracedWarn warn) (tracedFn fn)
                maxRetries baseDelay remaining attempt (s, tr)))
      /\ snd (snd (Retry.retryLoop (tracedSleep tick) (tracedWarn warn) (tracedFn fn)
                     maxRetries baseDelay remaining attempt (s, tr)))
         = tr ++ schedule baseDelay attempt outs
      /\ (remaining <> 0 -> outs <> []).
Proof.
  induction remaining as [|remaining IH]; intros attempt s tr Hsum Hpos.
  - exists []. cbn. rewrite app_nil_r. split; [|split; [reflexivity | congruence]].
    assert (attempt = S maxRetries) as -> by lia. apply attempts_none.
  - rewrite retryLoop_step.
    destruct (fn s) as [[a|e] s1] eqn:Hfn.
    + exists [Ok a]. cbn. split; [|split; [reflexivity | discriminate]].
      apply attempts_ok; lia.
    + destruct (Retry.isTransient e) eqn:Htr; cbn [andb].
      * destruct (Nat.ltb_spec attempt maxRetries) as [Hlt|Hge].
        -- cbv zeta.
           destruct (IH (S attempt) (tick (baseDelay * 2 ^ (attempt - 1))
                                      (warn attempt (baseDelay * 2 ^ (attempt - 1)) e s1))
                       ((tr ++ [Invoked (Throw e)])
                          ++ [Slept (baseDelay * 2 ^ (attempt - 1))]))
             as (outs & Hatt & Htrace & Hne); [lia | lia |].
           destruct outs as [|o outs]; [exfalso; apply Hne; [lia | reflexivity]|].
           exists (Throw e :: o :: outs). split; [|split; [|discriminate]].
           ++ apply attempts_retry; assumption.
           ++ rewrite Htrace. cbn [schedule]. rewrite <- !app_assoc. reflexivity.
        -- exists [Throw e]. cbn. split; [|split; [reflexivity | discriminate]].
           assert (attempt = maxRetries) as -> by lia. apply attempts_exhausted.
      * exists [Throw e]. cbn. split; [|split; [reflexivity | discriminate]].
        apply attempts_fatal; [lia | assumption].
Qed.

(** Recording changes neither the result nor the state. *)
Lemma retryLoop_erase (maxRetries baseDelay : nat) :
  forall remaining attempt s tr,
    let traced := Retry.retryLoop (tracedSleep tick) (tracedWarn warn) (tracedFn fn)
                    maxRetries baseDelay remaining attempt (s, tr) in
    Retry.retryLoop (fun d => modify (tick d)) (fun a d e => modify (warn a d e))
      fn maxRetries baseDelay remaining attempt s
    = (fst traced, fst (snd traced)).
Proof.
  induction remaining as [|remaining IH]; intros attempt s tr; [reflexivity|].
  cbv zeta. rewrite retryLoop_step.
  cbn [Retry.retryLoop]. unfold tryCatch, bind.
  destruct (fn s) as [[a|e] s1]; [reflexivity|].
  destruct (Retry.isTransient e && (attempt <? maxRetries)); [|reflexivity].
  unfold modify at 1 2. cbv zeta. apply IH.
Qed.

End RetryTrace.

Section RetryTheorems.
Context {St A : Type}.

Lemma attempts_bound (maxRetries attempt : nat) (outs : list (Result A)) res :
  Attempts maxRetries attempt outs res -> 1 <= attempt ->
  length outs + attempt <= S maxRetries.
Proof.
  induction 1 as [|attempt a H|attempt e H Ht|e|attempt e o outs res Hlt Ht Hatt IH];
    intros Hpos; cbn in *; try lia.
Qed.

(** A failure that is followed by another attempt was transient, with
    attempts left; and a transient failure with attempts left is followed
    by another attempt. *)
Lemma attempts_retry_iff (maxRetries attempt : nat) (outs : list (Result A)) res :
  Attempts maxRetries attempt outs res ->
  forall i e, nth_error outs i = Some (Throw e) ->
    (S i < length outs <->
     Retry.isTransient e = true /\ attempt + i < maxRetries).
Proof.
  induction 1 as [|attempt a H|attempt e0 H Ht|e0|attempt e0 o outs res Hlt Ht Hatt IH];
    intros i e Hnth.
  - destruct i; discriminate Hnth.
  - destruct i as [|[|i]]; discriminate Hnth.
  - destruct i as [|[|i]]; try discriminate Hnth. injection Hnth as <-.
    cbn. split; [lia | intros [Htrue _]; congruence].
  - destruct i as [|[|i]]; try discriminate Hnth. cbn. split; lia.
  - destruct i as [|i].
    + injection Hnth as <-. cbn. split; [intros _; split; [assumption | lia] | lia].
    + cbn [nth_error] in Hnth. specialize (IH i e Hnth). cbn [length] in *.
      split.
      * intros Hi. destruct IH as [IH _]. destruct (IH ltac:(lia)). split; [assumption | lia].
      * intros [Htrue Hi]. destruct IH as [_ IH].
        assert (S attempt + i < maxRetries) as Hi' by lia.
        specialize (IH (conj Htrue Hi')). lia.
Qed.

(** The last outcome decides the result. *)
Lemma attempts_last (maxRetries attempt : nat) (outs : list (Result A)) res :
  Attempts maxRetries attempt outs res ->
  forall i, S i = length outs ->
    match nth_error outs i with
    | Some (Ok a) => res = Ok (Some a)
    | Some (Throw e) => res = Throw e
    | None => False
    end.
Proof.
  induction 1 as [|attempt a H|attempt e0 H Ht|e0|attempt e0 o outs res Hlt Ht Hatt IH];
    intros i Hi; cbn in Hi.
  - discriminate Hi.
  - injection Hi as ->. reflexivity.
  - injection Hi as ->. reflexivity.
  - injection Hi as ->. reflexivity.
  - destruct i as [|i]; [discriminate Hi|]. cbn [nth_error]. apply IH. cbn. lia.
Qed.

(** A success is the last outcome. *)
Lemma attempts_ok_last (maxRetries attempt : nat) (outs : list (Result A)) res :
  Attempts maxRetries attempt outs res ->
  forall i a, nth_error outs i = Some (Ok a) -> S i = length outs.
Proof.
  induction 1 as [|attempt a0 H|attempt e0 H Ht|e0|attempt e0 o outs res Hlt Ht Hatt IH];
    intros i a Hnth.
  - destruct i; discriminate Hnth.
  - destruct i as [|[|i]]; try discriminate Hnth. reflexivity.
  - destruct i as [|[|i]]; discriminate Hnth.
  - destruct i as [|[|i]]; discriminate Hnth.
  - destruct i as [|i]; [discriminate Hnth|]. cbn [nth_error] in Hnth.
    cbn [length] in *. f_equal. exact (IH i a Hnth).
Qed.

Lemma attempts_empty (maxRetries attempt : nat) res :
  Attempts maxRetries attempt (@nil (Result A)) res -> res = Ok None /\ maxRetries < attempt.
Proof. inversion 1; subst. split; [reflexivity | lia]. Qed.

Variable tick : nat -> St -> St.
Variable warn : nat -> nat -> JsError -> St -> St.
Variable fn : M St A.

(** C4.  A call [retryWithBackoff(fn, maxRetries, baseDelay)] invokes
    [fn] at most [maxRetries] times (3 by default, with a base delay of
    1000 ms).  Its events are its invocations in order, each but the last
    followed by one wait, which after attempt number [n] lasts
    [baseDelay * 2 ^ (n - 1)].  A failure is followed by another attempt
    exactly when its message is transient and attempts are left; a failure
    whose message is not transient is the last invocation and is the error
    of the call; so is the failure of attempt number [maxRetries]; and a
    success is the last invocation and its value is returned. *)
Theorem C4_retry_with_backoff (maxRetries baseDelay : nat) (s : St) :
  let run := tracedRetry tick warn fn maxRetries baseDelay s in
  let res := fst run in
  let trace := snd (snd run) in
  let outs := outcomes trace in
  plainRetry tick warn fn maxRetries baseDelay s = (res, fst (snd run))
  /\ Retry.defaultMaxRetries = 3 /\ Retry.defaultBaseDelay = 1000
  /\ length outs <= maxRetries
  /\ trace = schedule baseDelay 1 outs
  /\ (forall i e, nth_error outs i = Some (Throw e) ->
        (S i < length outs <-> Retry.isTransient e = true /\ S i < maxRetries))
  /\ (forall i e, nth_error outs i = Some (Throw e) ->
        Retry.isTransient e = false -> S i = length outs /\ res = Throw e)
  /\ (forall e, nth_error outs (maxRetries - 1) = Some (Throw e) ->
        maxRetries = length outs /\ res = Throw e)
  /\ (forall i a, nth_error outs i = Some (Ok a) ->
        S i = length outs /\ res = Ok (Some a))
  /\ (outs = [] -> maxRetries = 0 /\ res = Ok None).
Proof.
  intros run res trace outs.
  destruct (retryLoop_trace tick warn fn maxRetries baseDelay maxRetries 1 s [])
    as (outs' & Hatt & Htrace & _); [lia | lia |].
  change (Attempts maxRetries 1 outs' res) in Hatt.
  change (trace = schedule baseDelay 1 outs') in Htrace.
  assert (Houts : outs = outs').
  { unfold outs. rewrite Htrace. apply outcomes_schedule. }
  rewrite <- Houts in *. clear Houts outs'.
  pose proof (attempts_bound _ _ _ _ Hatt ltac:(lia)) as Hbound.
  assert (Hlast : forall i e, nth_error outs i = Some (Throw e) ->
                    S i = length outs -> res = Throw e).
  { intros i e Hnth Hi. pose proof (attempts_last _ _ _ _ Hatt i Hi) as H.
    rewrite Hnth in H. exact H. }
  assert (Hlen : forall i (o : Result A), nth_error outs i = Some o -> i < length outs).
  { intros i o Hnth. apply nth_error_Some. congruence. }
  split.
  { unfold plainRetry, Retry.retryWithBackoff.
    rewrite (retryLoop_erase tick warn fn maxRetries baseDelay maxRetries 1 s []).
    reflexivity. }
  split; [reflexivity|]. split; [reflexivity|].
  split; [lia|]. split; [exact Htrace|].
  split.
  { intros i e Hnth. exact (attempts_retry_iff _ _ _ _ Hatt i e Hnth). }
  split.
  { intros i e Hnth Hfatal.
    pose proof (attempts_retry_iff _ _ _ _ Hatt i e Hnth) as [Hretry _].
    pose proof (Hlen _ _ Hnth).
    assert (S i = length outs) as Hi.
    { destruct (Nat.eq_dec (S i) (length outs)) as [|Hne]; [assumption|].
      destruct (Hretry ltac:(lia)). congruence. }
    split; [exact Hi | exact (Hlast i e Hnth Hi)]. }
  split.
  { intros e Hnth.
    pose proof (attempts_retry_iff _ _ _ _ Hatt _ e Hnth) as [Hretry _].
    pose proof (Hlen _ _ Hnth).
    assert (S (maxRetries - 1) = length outs) as Hi.
    { destruct (Nat.eq_dec (S (maxRetries - 1)) (length outs)) as [|Hne]; [assumption|].
      destruct (Hretry ltac:(lia)). lia. }
    split; [lia | exact (Hlast _ e Hnth Hi)]. }
  split.
  { intros i a Hnth.
    pose proof (attempts_ok_last _ _ _ _ Hatt i a Hnth) as Hi.
    split; [exact Hi|].
    pose proof (attempts_last _ _ _ _ Hatt i Hi) as H. rewrite Hnth in H. exact H. }
  intros Hnil. rewrite Hnil in Hatt.
  destruct (attempts_empty _ _ _ Hatt). split; [lia | assumption].
Qed.

End RetryTheorems.

(** ** getVaultItemCount *)

(** Unfolding the plumbing of a computation. *)
Ltac run_monad :=
  unfold bind, tryCatch, tryFinally, ret, throw, modify, gets in *; cbn [fst snd] in *.

Section ItemCountTheorems.
Context {World Client : Type}.
Variable remote : Remote World Client.

(** The run of [getVaultItemCount], case by case. *)
Lemma getVaultItemCount_run (vaultId token : string) (s : Env World) :
  getVaultItemCount remote vaultId token s
  = match initializeClient remote token s with
    | (Throw e, s1) =>
        (Ok 0, snd (logError (Some vaultId)
                      ("Error fetching item count: " ++ message e) s1))
    | (Ok client, s1) =>
        match call (itemsList remote client vaultId ActiveItems) s1 with
        | (Throw e, s2) =>
            (Ok 0, snd (logError (Some vaultId)
                          ("Error fetching item count: " ++ message e) s2))
        | (Ok items, s2) =>
            match call (itemsList remote client vaultId ArchivedItems) s2 with
            | (Ok archived, s3) =>
                (Ok (length items),
                 if 0 <? length archived then
                   snd (logInfo (Some vaultId)
                          ("Contains " ++ Js.showNat (length archived)
                             ++ " archived items") s3)
                 else s3)
            | (Throw e, s3) =>
                (Ok (length items),
                 snd (logWarning (Some vaultId)
                        ("Could not fetch archived items: " ++ message e) s3))
            end
        end
    end.
Proof.
  unfold getVaultItemCount. run_monad.
  destruct (initializeClient remote token s) as [[client|e0] s1]; [|reflexivity].
  destruct (call (itemsList remote client vaultId ActiveItems) s1)
    as [[items|e1] s2]; [|reflexivity].
  destruct (call (itemsList remote client vaultId ArchivedItems) s2)
    as [[archived|e2] s3]; [|reflexivity].
  destruct (0 <? length archived); reflexivity.
Qed.

(** The method [log] returns for a vault id that has, or gets, an array
    of its own, and leaves the log that [Logger.log] computes. *)
Lemma log_returns (lv : Level) (vaultId : option string) (msg : string)
    (itemId : option string) (lm : LogManager) :
  LogManagerOps.noArrayFor vaultId = false ->
  LogManagerOps.log lv vaultId msg itemId lm
  = (Ok tt, Logger.log lv vaultId msg itemId lm).
Proof. intros H. unfold LogManagerOps.log. rewrite H. reflexivity. Qed.

Lemma log_throws (lv : Level) (vaultId : option string) (msg : string)
    (itemId : option string) (lm : LogManager) :
  LogManagerOps.noArrayFor vaultId = true ->
  fst (LogManagerOps.log lv vaultId msg itemId lm) = Throw LogManagerOps.pushIsNoFunction.
Proof. intros H. unfold LogManagerOps.log. rewrite H. reflexivity. Qed.

Lemma logAt_any_id (lv : Level) (vaultId : option string) (msg : string)
    (item : option string) (s : Env World) :
  LogManagerOps.noArrayFor vaultId = false ->
  AnyVaultId.logAt lv vaultId msg item s = logAt lv vaultId msg item s.
Proof. intros H. unfold AnyVaultId.logAt. rewrite log_returns by exact H. reflexivity. Qed.

(** For a vault id that names no inherited member, [getVaultItemCount]
    as written is the function of the server above. *)
Lemma getVaultItemCount_any_id (vaultId token : string) (s : Env World) :
  Js.namesInherited vaultId = false ->
  AnyVaultId.getVaultItemCount remote vaultId token s
  = getVaultItemCount remote vaultId token s.
Proof.
  intros Hid.
  assert (Hlog : forall lv msg (s' : Env World),
             AnyVaultId.logAt lv (Some vaultId) msg None s'
             = logAt lv (Some vaultId) msg None s').
  { intros. apply logAt_any_id. exact Hid. }
  rewrite getVaultItemCount_run.
  unfold AnyVaultId.getVaultItemCount, AnyVaultId.logInfo, AnyVaultId.logWarning,
    AnyVaultId.logError, logInfo, logWarning, logError.
  unfold tryCatch at 1. unfold bind at 1.
  destruct (initializeClient remote token s) as [[client|e0] s1].
  2:{ unfold bind. rewrite Hlog. reflexivity. }
  unfold bind at 1.
  destruct (call (itemsList remote client vaultId ActiveItems) s1) as [[items|e1] s2].
  2:{ unfold bind. rewrite Hlog. reflexivity. }
  unfold bind at 1. unfold tryCatch at 1. unfold bind at 1.
  destruct (call (itemsList remote client vaultId ArchivedItems) s2)
    as [[archived|e2] s3].
  - destruct (0 <? length archived); [rewrite Hlog|]; reflexivity.
  - rewrite Hlog. reflexivity.
Qed.

End ItemCountTheorems.


(** ** The loop over the items *)

Lemma lift_run {St R A} (m : M St A) (s : St) (r : R) :
  lift m (s, r) = (fst (m s), (snd (m s), r)).
Proof. unfold lift. cbn. destruct (m s). reflexivity. Qed.

Section LoopFacts.
Context {World Client : Type}.
Variable remote : Remote World Client.
Variable categories : ItemCategory.t.
Variable anywhereOnWebsite : string.
Variables vaultId vaultName sourceToken destToken : string.
Variables sourceSDK destSDK : OnePasswordSDK Client.
Variable isCancelled : M (Env World) bool.
Variable customTemplateId : option string.

Local Abbreviation Run := (Env World * Frame)%type.

(** A turn never throws: the item is counted as migrated when the attempt
    returns, and as failed, with the message of the error, when it throws. *)
Lemma itemStep_run (destVaultId : string) (item : Item) (total : nat)
    (env : Env World) (fr : Frame) :
  itemStep remote categories anywhereOnWebsite vaultId vaultName sourceToken destToken
    sourceSDK destSDK customTemplateId destVaultId item total (env, fr)
  = match attemptItem remote categories anywhereOnWebsite vaultId sourceToken destToken
            sourceSDK destSDK customTemplateId destVaultId item env with
    | (Ok _, env1) =>
        (Ok tt, (snd (logMigrated categories vaultId item env1),
                 recordSuccess item total fr))
    | (Throw e, env1) =>
        (Ok tt, (afterFailure vaultId vaultName item e env1, recordFailure item total e fr))
    end.
Proof.
  unfold itemStep, migrateItem, attemptItem, tryCatch, bind, inEnv.
  rewrite lift_run.
  destruct (describeItem vaultId item env) as [[[]|e] env0] eqn:Hd;
    [|unfold describeItem, logInfo, logAt, modify in Hd; discriminate Hd].
  cbn [fst snd].
  destruct (isCustomItem categories item).
  - unfold migrateCustomItem, bind, inEnv. rewrite lift_run.
    destruct (sendCustomItem remote vaultId sourceToken destToken destVaultId
                customTemplateId item env0) as [[[]|e0] env1]; reflexivity.
  - unfold migrateSdkItem, bind, inEnv. rewrite lift_run.
    destruct (sendSdkItem remote categories anywhereOnWebsite vaultId destVaultId
                sourceSDK destSDK item env0) as [[[]|e0] env1]; reflexivity.
Qed.

(** The loop, turn by turn. *)
Lemma migrateItems_cons (destVaultId : string) (total sourceCount : nat)
    (afterLoop : M Run VaultResult) (item : Item) (rest : list Item) (s : Run) :
  migrateItems remote categories anywhereOnWebsite vaultId vaultName sourceToken destToken
    sourceSDK destSDK isCancelled customTemplateId destVaultId total sourceCount
    afterLoop (item :: rest) s
  = match inEnv isCancelled s with
    | (Ok true, s1) => cancelVault vaultId total sourceCount s1
    | (Ok false, s1) =>
        migrateItems remote categories anywhereOnWebsite vaultId vaultName sourceToken
          destToken sourceSDK destSDK isCancelled customTemplateId destVaultId total
          sourceCount afterLoop rest
          (snd (itemStep remote categories anywhereOnWebsite vaultId vaultName sourceToken
                  destToken sourceSDK destSDK customTemplateId destVaultId item total s1))
    | (Throw e, s1) => (Throw e, s1)
    end.
Proof.
  cbn [migrateItems]. unfold bind at 1.
  destruct (inEnv isCancelled s) as [[[|]|e] s1]; try reflexivity.
  unfold bind at 1.
  fold (itemStep remote categories anywhereOnWebsite vaultId vaultName sourceToken
          destToken sourceSDK destSDK customTemplateId destVaultId item total).
  destruct s1 as [env fr]. rewrite itemStep_run.
  destruct (attemptItem remote categories anywhereOnWebsite vaultId sourceToken destToken
              sourceSDK destSDK customTemplateId destVaultId item env)
    as [[[]|e] env1]; reflexivity.
Qed.

End LoopFacts.

(** ** Two ways to follow a computation *)

Section MonadFacts.
Context {St : Type}.

Lemma preserves_ret {A} (P : St -> Prop) (a : A) : Preserves P (ret a).
Proof. intros s H. exact H. Qed.

Lemma preserves_throw {A} (P : St -> Prop) (e : JsError) : Preserves P (@throw St A e).
Proof. intros s H. exact H. Qed.

Lemma preserves_bind {A B} (P : St -> Prop) (m : M St A) (k : A -> M St B) :
  Preserves P m -> (forall a, Preserves P (k a)) -> Preserves P (bind m k).
Proof.
  intros Hm Hk s H. unfold bind. specialize (Hm s H).
  destruct (m s) as [[a|e] s']; cbn in *; [apply Hk; assumption | assumption].
Qed.

Lemma preserves_tryCatch {A} (P : St -> Prop) (m : M St A) (h : JsError -> M St A) :
  Preserves P m -> (forall e, Preserves P (h e)) -> Preserves P (tryCatch m h).
Proof.
  intros Hm Hh s H. unfold tryCatch. specialize (Hm s H).
  destruct (m s) as [[a|e] s']; cbn in *; [assumption | apply Hh; assumption].
Qed.

Lemma preserves_modify (P : St -> Prop) (f : St -> St) :
  (forall s, P s -> P (f s)) -> Preserves P (modify f).
Proof. intros Hf s H. apply Hf, H. Qed.

Lemma preserves_gets {A} (P : St -> Prop) (f : St -> A) : Preserves P (gets f).
Proof. intros s H. exact H. Qed.

End MonadFacts.

Section LiftFacts.
Context {St R : Type}.

(** A computation on the smaller state leaves the rest as it is. *)
Lemma preserves_lift {A} (P : St -> Prop) (Q : R -> Prop) (m : M St A) :
  Preserves P m -> Preserves (fun s : St * R => P (fst s) /\ Q (snd s)) (lift m).
Proof.
  intros Hm [s r] [H1 H2]. rewrite lift_run. cbn in *. split; [apply Hm, H1 | exact H2].
Qed.

Lemma preserves_lift_snd {A} (Q : R -> Prop) (m : M St A) :
  Preserves (fun s : St * R => Q (snd s)) (lift m).
Proof. intros [s r] H. rewrite lift_run. exact H. Qed.

Lemma follows_lift {A} (m : M St A) : Follows (lift (R := R) m) m.
Proof. intros s r. exists r. apply lift_run. Qed.

Lemma follows_bind {A B} (mp : M (St * R) A) (m : M St A)
    (kp : A -> M (St * R) B) (k : A -> M St B) :
  Follows mp m -> (forall a, Follows (kp a) (k a)) -> Follows (bind mp kp) (bind m k).
Proof.
  intros Hm Hk s r. unfold bind. destruct (Hm s r) as [r1 ->].
  destruct (m s) as [[a|e] s1]; cbn [fst snd].
  - apply Hk.
  - exists r1. reflexivity.
Qed.

Lemma follows_tryCatch {A} (mp : M (St * R) A) (m : M St A)
    (hp : JsError -> M (St * R) A) (h : JsError -> M St A) :
  Follows mp m -> (forall e, Follows (hp e) (h e)) -> Follows (tryCatch mp hp) (tryCatch m h).
Proof.
  intros Hm Hh s r. unfold tryCatch. destruct (Hm s r) as [r1 ->].
  destruct (m s) as [[a|e] s1]; cbn [fst snd].
  - exists r1. reflexivity.
  - apply Hh.
Qed.

Lemma follows_ext {A} (mp : M (St * R) A) (m m' : M St A) :
  (forall s, m s = m' s) -> Follows mp m -> Follows mp m'.
Proof. intros Heq H s r. rewrite <- Heq. apply H. Qed.

Lemma bind_ret_unit (m : M St unit) (s : St) : bind m (fun _ => ret tt) s = m s.
Proof. unfold bind, ret. destruct (m s) as [[[]|e] s']; reflexivity. Qed.

End LiftFacts.

(** ** The two procedures agree *)

Section Agreement.
Context {World Client R : Type}.
Variable remote : Remote World Client.
Variable categories : ItemCategory.t.
Variable anywhereOnWebsite : string.
Variables vaultId vaultName sourceToken destToken : string.
Variables sourceSDK destSDK : OnePasswordSDK Client.
Variable isCancelled : M (Env World) bool.
Variable customTemplateId : option string.
Variable onProgress : nat -> nat -> nat -> nat -> M ((Env World * Frame) * R) unit.

Local Abbreviation Run := (Env World * Frame)%type.

Hypothesis onProgress_quiet : Quiet onProgress.

Lemma sendProgress_follows (total : nat) :
  Follows (sendProgress onProgress total) (ret tt).
Proof.
  intros s r. unfold sendProgress, bind. rewrite lift_run. cbn [fst snd readFrame gets].
  destruct ((processedItems (snd s) mod 3 =? 0) || (processedItems (snd s) =? total)).
  - apply onProgress_quiet.
  - exists r. reflexivity.
Qed.

Lemma then_progress_follows (m : M Run unit) (total : nat) :
  Follows (lift m ;;; sendProgress onProgress total) m.
Proof.
  apply follows_ext with (m := bind m (fun _ => ret tt)); [apply bind_ret_unit|].
  apply follows_bind; [apply follows_lift | intros; apply sendProgress_follows].
Qed.

Lemma migrateItemWithProgress_follows (destVaultId : string) (item : Item) (total : nat) :
  Follows
    (migrateItemWithProgress remote categories anywhereOnWebsite vaultId sourceToken
       destToken sourceSDK destSDK customTemplateId onProgress destVaultId item total)
    (migrateItem remote categories anywhereOnWebsite vaultId sourceToken destToken
       sourceSDK destSDK customTemplateId destVaultId item total).
Proof.
  unfold migrateItemWithProgress, migrateItem.
  apply follows_bind; [apply follows_lift|]. intros _.
  destruct (isCustomItem categories item); apply then_progress_follows.
Qed.

Lemma failItemWithProgress_follows (item : Item) (total : nat) (error : JsError) :
  Follows (failItemWithProgress vaultId vaultName onProgress item total error)
          (failItem vaultId vaultName item total error).
Proof. unfold failItemWithProgress. apply then_progress_follows. Qed.

Lemma migrateItemsWithProgress_follows (destVaultId : string) (total sourceCount : nat)
    (afterLoopP : M (Run * R) VaultResult) (afterLoop : M Run VaultResult)
    (items : list Item) :
  Follows afterLoopP afterLoop ->
  Follows
    (migrateItemsWithProgress remote categories anywhereOnWebsite vaultId vaultName
       sourceToken destToken sourceSDK destSDK isCancelled customTemplateId onProgress
       destVaultId total sourceCount afterLoopP items)
    (migrateItems remote categories anywhereOnWebsite vaultId vaultName sourceToken
       destToken sourceSDK destSDK isCancelled customTemplateId destVaultId total
       sourceCount afterLoop items).
Proof.
  intros Hafter. induction items as [|item rest IH]; [exact Hafter|].
  cbn [migrateItemsWithProgress migrateItems].
  apply follows_bind; [apply follows_lift|]. intros [|].
  - apply follows_lift.
  - apply follows_bind; [|intros _; exact IH].
    apply follows_tryCatch.
    + apply migrateItemWithProgress_follows.
    + intros e. apply failItemWithProgress_follows.
Qed.

Lemma migrateVaultWithProgress_follows :
  Follows
    (migrateVaultWithProgress remote categories anywhereOnWebsite vaultId vaultName
       sourceToken destToken sourceSDK destSDK isCancelled customTemplateId onProgress)
    (migrateVault remote categories anywhereOnWebsite vaultId vaultName sourceToken
       destToken sourceSDK destSDK isCancelled customTemplateId).
Proof.
  unfold migrateVaultWithProgress, migrateVault.
  apply follows_bind; [apply follows_lift|]. intros _.
  apply follows_tryCatch; [|intros e; apply follows_lift].
  apply follows_bind; [apply follows_lift|]. intros [[sourceCount destVaultId] items].
  apply migrateItemsWithProgress_follows. apply follows_lift.
Qed.

End Agreement.

Section AgreementTheorem.
Context {World Client : Type}.
Variable remote : Remote World Client.
Variable categories : ItemCategory.t.
Variable anywhereOnWebsite : string.
Variables vaultId vaultName sourceToken destToken : string.
Variables sourceSDK destSDK : OnePasswordSDK Client.
Variable isCancelled : M (Env World) bool.
Variable customTemplateId : option string.

Local Abbreviation Run := (Env World * Frame)%type.

(** The callback of the bulk route writes one event and does nothing else. *)
Lemma progressCallback_quiet (vault : VaultRef) (completedVaults totalVaults : nat) :
  Quiet (progressCallback (World := World) vault completedVaults totalVaults).
Proof.
  intros processed total succeeded failed s r. eexists. reflexivity.
Qed.

(** C9.  Given the same vault, names, tokens, SDK instances, cancellation
    function and template id, from the same state of the server,
    [migrateVaultWithProgress] returns or throws exactly what
    [migrateVault] does (the per-item results, the counts, the item
    counts of both sides), and leaves the server, the log and the log
    entry with its status exactly as [migrateVault] leaves them: the two
    differ by what the callback did to its own state.  This holds for
    every progress callback that returns and touches only what is its
    own, and so for the callback the bulk route passes, which writes
    events to the response. *)
Theorem C9_progress_variant_agrees (s : Run) :
  let plain :=
    migrateVault remote categories anywhereOnWebsite vaultId vaultName sourceToken
      destToken sourceSDK destSDK isCancelled customTemplateId s in
  (forall (R : Type) (onProgress : nat -> nat -> nat -> nat -> M (Run * R) unit) (r : R),
     Quiet onProgress ->
     exists r',
       migrateVaultWithProgress remote categories anywhereOnWebsite vaultId vaultName
         sourceToken destToken sourceSDK destSDK isCancelled customTemplateId onProgress
         (s, r)
       = (fst plain, (snd plain, r')))
  /\ (forall (vault : VaultRef) (completedVaults totalVaults : nat)
             (events : list SseEvent),
        exists events',
          migrateVaultWithProgress remote categories anywhereOnWebsite vaultId vaultName
            sourceToken destToken sourceSDK destSDK isCancelled customTemplateId
            (progressCallback vault completedVaults totalVaults) (s, events)
          = (fst plain, (snd plain, events'))).
Proof.
  intros plain. split.
  - intros R onProgress r Hquiet.
    exact (migrateVaultWithProgress_follows remote categories anywhereOnWebsite vaultId
             vaultName sourceToken destToken sourceSDK destSDK isCancelled
             customTemplateId onProgress Hquiet s r).
  - intros vault completedVaults totalVaults events.
    exact (migrateVaultWithProgress_follows remote categories anywhereOnWebsite vaultId
             vaultName sourceToken destToken sourceSDK destSDK isCancelled
             customTemplateId (progressCallback vault completedVaults totalVaults)
             (progressCallback_quiet vault completedVaults totalVaults) s events).
Qed.

End AgreementTheorem.

(** ** Invariants of a call *)

Section FrameFacts.
Context {World Client : Type}.
Variable remote : Remote World Client.
Variable categories : ItemCategory.t.
Variable anywhereOnWebsite : string.
Variables vaultId vaultName sourceToken destToken : string.
Variables sourceSDK destSDK : OnePasswordSDK Client.
Variable isCancelled : M (Env World) bool.
Variable customTemplateId : option string.

Local Abbreviation Run := (Env World * Frame)%type.

Lemma countsAgree_initial : countsAgree initialFrame.
Proof. split; reflexivity. Qed.

Lemma countsAgree_setLogEntry (e : LogEntry) (fr : Frame) :
  countsAgree fr -> countsAgree (setLogEntry e fr).
Proof. intros H. exact H. Qed.

Lemma countsAgree_recordSuccess (item : Item) (total : nat) (fr : Frame) :
  countsAgree fr -> countsAgree (recordSuccess item total fr).
Proof.
  intros [H1 H2]. split; cbn; [lia | rewrite length_app; cbn; lia].
Qed.

Lemma countsAgree_recordFailure (item : Item) (total : nat) (e : JsError) (fr : Frame) :
  countsAgree fr -> countsAgree (recordFailure item total e fr).
Proof.
  intros [H1 H2]. split; cbn; [lia | rewrite length_app; cbn; lia].
Qed.

Lemma preserves_inEnv {A} (P : Frame -> Prop) (m : M (Env World) A) :
  Preserves (onFrame P) (inEnv m).
Proof. unfold inEnv, onFrame. apply (preserves_lift_snd P m). Qed.

Lemma preserves_updateFrame (P : Frame -> Prop) (f : Frame -> Frame) :
  (forall fr, P fr -> P (f fr)) -> Preserves (onFrame P) (@updateFrame World f).
Proof. intros Hf [env fr] H. apply Hf, H. Qed.

Lemma preserves_updateLogEntry (f : LogEntry -> LogEntry) :
  Preserves (onFrame countsAgree) (@updateLogEntry World f).
Proof. apply preserves_updateFrame. intros fr H. exact H. Qed.

Lemma preserves_readFrame (P : Frame -> Prop) : Preserves (onFrame P) (@readFrame World).
Proof. intros s H. exact H. Qed.

End FrameFacts.

(** Steps that keep a property of the frame, found by the shape of the
    computation. *)
Ltac keeps_frame :=
  repeat first
    [ match goal with |- forall _, _ => intro end
    | match goal with |- Preserves _ (let '(_, _) := ?p in _) => destruct p end
    | match goal with |- Preserves _ (if ?c then _ else _) => destruct c end
    | apply preserves_bind
    | apply preserves_tryCatch
    | apply preserves_inEnv
    | apply preserves_updateLogEntry
    | apply preserves_readFrame
    | apply preserves_ret
    | apply preserves_throw ].

Section CallInvariant.
Context {World Client : Type}.
Variable remote : Remote World Client.
Variable categories : ItemCategory.t.
Variable anywhereOnWebsite : string.
Variables vaultId vaultName sourceToken destToken : string.
Variables sourceSDK destSDK : OnePasswordSDK Client.
Variable isCancelled : M (Env World) bool.
Variable customTemplateId : option string.

Local Abbreviation Run := (Env World * Frame)%type.

Lemma openVault_keeps_counts :
  Preserves (onFrame countsAgree)
    (openVault remote vaultId vaultName sourceToken destToken sourceSDK).
Proof. unfold openVault. keeps_frame. Qed.

Lemma cancelVault_keeps_counts (total sourceCount : nat) :
  Preserves (onFrame countsAgree) (@cancelVault World vaultId total sourceCount).
Proof. unfold cancelVault. keeps_frame. Qed.

Lemma finishVault_keeps_counts (destVaultId : string) (total sourceCount : nat) :
  Preserves (onFrame countsAgree)
    (finishVault remote vaultId vaultName destToken destVaultId total sourceCount).
Proof. unfold finishVault. keeps_frame. Qed.

Lemma failVault_keeps_counts {A} (e : JsError) :
  Preserves (onFrame countsAgree) (@failVault World A vaultId e).
Proof. unfold failVault. keeps_frame. Qed.

Lemma migrateCustomItem_keeps_counts (destVaultId : string) (item : Item) (total : nat) :
  Preserves (onFrame countsAgree)
    (migrateCustomItem remote categories vaultId sourceToken destToken destVaultId
       customTemplateId item total).
Proof.
  unfold migrateCustomItem. keeps_frame.
  apply preserves_updateFrame. intros fr. apply countsAgree_recordSuccess.
Qed.

Lemma migrateSdkItem_keeps_counts (destVaultId : string) (item : Item) (total : nat) :
  Preserves (onFrame countsAgree)
    (migrateSdkItem remote categories anywhereOnWebsite vaultId destVaultId
       sourceSDK destSDK item total).
Proof.
  unfold migrateSdkItem. keeps_frame.
  apply preserves_updateFrame. intros fr. apply countsAgree_recordSuccess.
Qed.

Lemma failItem_keeps_counts (item : Item) (total : nat) (e : JsError) :
  Preserves (onFrame countsAgree) (@failItem World vaultId vaultName item total e).
Proof.
  unfold failItem. keeps_frame.
  apply preserves_updateFrame. intros fr. apply countsAgree_recordFailure.
Qed.

Lemma lift_keeps_checkpoints {A} (m : M Run A) :
  Preserves (onFrame countsAgree) m -> Preserves checkpointsAgree (lift m).
Proof.
  intros H. exact (preserves_lift (onFrame countsAgree) (Forall checkpointAgrees) m H).
Qed.

Lemma sendProgress_keeps_checkpoints (total : nat) :
  Preserves checkpointsAgree (sendProgress (@recordCheckpoint World) total).
Proof.
  intros [[env fr] cps] [Hfr Hcps]. unfold sendProgress, bind. rewrite lift_run.
  cbn [fst snd readFrame gets].
  destruct ((processedItems fr mod 3 =? 0) || (processedItems fr =? total)); cbn.
  - split; [exact Hfr|]. apply Forall_app. split; [exact Hcps|].
    constructor; [|constructor]. exact (proj1 Hfr).
  - split; assumption.
Qed.

Lemma migrateItemsWithProgress_keeps_checkpoints (destVaultId : string)
    (total sourceCount : nat) (afterLoop : M (Run * list Checkpoint) VaultResult)
    (items : list Item) :
  Preserves checkpointsAgree afterLoop ->
  Preserves checkpointsAgree
    (migrateItemsWithProgress remote categories anywhereOnWebsite vaultId vaultName
       sourceToken destToken sourceSDK destSDK isCancelled customTemplateId
       recordCheckpoint destVaultId total sourceCount afterLoop items).
Proof.
  intros Hafter. induction items as [|item rest IH]; [exact Hafter|].
  cbn [migrateItemsWithProgress].
  apply preserves_bind.
  { apply lift_keeps_checkpoints. apply preserves_inEnv. }
  intros [|].
  { apply lift_keeps_checkpoints, cancelVault_keeps_counts. }
  apply preserves_bind; [|intros _; exact IH].
  apply preserves_tryCatch.
  - unfold migrateItemWithProgress. apply preserves_bind.
    { apply lift_keeps_checkpoints. apply preserves_inEnv. }
    intros _. destruct (isCustomItem categories item);
      (apply preserves_bind; [|intros _; apply sendProgress_keeps_checkpoints]);
      apply lift_keeps_checkpoints.
    + apply migrateCustomItem_keeps_counts.
    + apply migrateSdkItem_keeps_counts.
  - intros e. unfold failItemWithProgress.
    apply preserves_bind; [|intros _; apply sendProgress_keeps_checkpoints].
    apply lift_keeps_checkpoints, failItem_keeps_counts.
Qed.

(** Every progress checkpoint of a call has
    [successCount + failureCount = itemsProcessed]. *)
Lemma checkpoints_agree (s : Run) :
  Forall checkpointAgrees
    (snd (snd (migrateVaultWithProgress remote categories anywhereOnWebsite vaultId
                 vaultName sourceToken destToken sourceSDK destSDK isCancelled
                 customTemplateId recordCheckpoint (s, [])))).
Proof.
  unfold migrateVaultWithProgress. unfold bind at 1. rewrite lift_run.
  assert (Hstart : fst (startVault vaultId vaultName s) = Ok tt
                   /\ snd (snd (startVault vaultId vaultName s)) = initialFrame).
  { destruct s as [env fr]. split; reflexivity. }
  destruct Hstart as [Hok Hframe]. rewrite Hok.
  match goal with |- Forall _ (snd (snd (?m ?st))) =>
    assert (H : checkpointsAgree (snd (m st))); [|exact (proj2 H)] end.
  apply preserves_tryCatch.
  - apply preserves_bind.
    { apply lift_keeps_checkpoints, openVault_keeps_counts. }
    intros [[sourceCount destVaultId] items].
    apply migrateItemsWithProgress_keeps_checkpoints.
    apply lift_keeps_checkpoints, finishVault_keeps_counts.
  - intros e. apply lift_keeps_checkpoints, failVault_keeps_counts.
  - split; [|constructor]. unfold onFrame. cbn [fst snd]. rewrite Hframe.
    apply countsAgree_initial.
Qed.

End CallInvariant.

(** ** Where a call ends *)

Section CallEnds.
Context {World Client : Type}.
Variable remote : Remote World Client.
Variable categories : ItemCategory.t.
Variable anywhereOnWebsite : string.
Variables vaultId vaultName sourceToken destToken : string.
Variables sourceSDK destSDK : OnePasswordSDK Client.
Variable isCancelled : M (Env World) bool.
Variable customTemplateId : option string.

Local Abbreviation Run := (Env World * Frame)%type.

Lemma getVaultItemCount_ok (vault token : string) (env : Env World) :
  exists n, fst (getVaultItemCount remote vault token env) = Ok n.
Proof.
  rewrite getVaultItemCount_run.
  destruct (initializeClient remote token env) as [[client|e0] s1]; [|eexists; reflexivity].
  destruct (call (itemsList remote client vault ActiveItems) s1)
    as [[items|e1] s2]; [|eexists; reflexivity].
  destruct (call (itemsList remote client vault ArchivedItems) s2)
    as [[archived|e2] s3]; eexists; reflexivity.
Qed.

Lemma cancelVault_run (total sourceCount : nat) (env : Env World) (fr : Frame) :
  cancelVault vaultId total sourceCount (env, fr)
  = (Ok {| itemsLength := total;
           vaultResults := migrationResults fr;
           sourceItemCount := sourceCount;
           destItemCount := None;
           vaultSuccessCount := successCount fr;
           vaultFailureCount := failureCount fr |},
     (snd (logInfo (Some vaultId) "Migration cancelled by user" env),
      setLogEntry (setStatus Cancelled (logEntry fr)) fr)).
Proof. reflexivity. Qed.

(** After the loop the destination is counted again, whatever happened to
    the items; the call then returns, with the count, and the log entry
    says [completed]. *)
Lemma finishVault_run (destVaultId : string) (total sourceCount : nat)
    (env : Env World) (fr : Frame) :
  exists destCount env',
    fst (getVaultItemCount remote destVaultId destToken env) = Ok destCount
    /\ finishVault remote vaultId vaultName destToken destVaultId total sourceCount (env, fr)
       = (Ok {| itemsLength := total;
                vaultResults := migrationResults fr;
                sourceItemCount := sourceCount;
                destItemCount := Some destCount;
                vaultSuccessCount := successCount fr;
                vaultFailureCount := failureCount fr |},
          (env',
           setLogEntry (completeEntry destCount (successCount fr) (failureCount fr)
                          (logEntry fr)) fr)).
Proof.
  destruct (getVaultItemCount_ok destVaultId destToken env) as [destCount Hcount].
  exists destCount.
  unfold finishVault, bind, inEnv. rewrite lift_run, Hcount. cbn [fst snd].
  unfold readFrame, updateLogEntry, updateFrame, logInfo, logWarning, logAt, modify,
    gets, ret, lift. cbn [fst snd].
  destruct ((sourceCount =? destCount) && (failureCount fr =? 0)); cbn [fst snd];
    eexists; (split; [reflexivity|]); reflexivity.
Qed.

Lemma extends_refl (fr : Frame) : extends fr fr.
Proof. exists []. symmetry. apply app_nil_r. Qed.

Lemma extends_trans (a b c : Frame) : extends a b -> extends b c -> extends a c.
Proof.
  intros [m1 H1] [m2 H2]. exists (m1 ++ m2). rewrite H2, H1. symmetry. apply app_assoc.
Qed.

Lemma itemStep_extends (destVaultId : string) (item : Item) (total : nat) (s : Run) :
  extends (snd s)
    (snd (snd (itemStep remote categories anywhereOnWebsite vaultId vaultName
                 sourceToken destToken sourceSDK destSDK customTemplateId
                 destVaultId item total s))).
Proof.
  destruct s as [env fr]. rewrite itemStep_run.
  destruct (attemptItem _ _ _ _ _ _ _ _ _ _ _ env) as [[[]|e] env1];
    cbn [fst snd]; eexists; reflexivity.
Qed.

Lemma itemStep_keeps_counts (destVaultId : string) (item : Item) (total : nat) (s : Run) :
  countsAgree (snd s) ->
  countsAgree
    (snd (snd (itemStep remote categories anywhereOnWebsite vaultId vaultName
                 sourceToken destToken sourceSDK destSDK customTemplateId
                 destVaultId item total s))).
Proof.
  destruct s as [env fr]. intros H. rewrite itemStep_run.
  destruct (attemptItem _ _ _ _ _ _ _ _ _ _ _ env) as [[[]|e] env1]; cbn [fst snd].
  - apply countsAgree_recordSuccess, H.
  - apply countsAgree_recordFailure, H.
Qed.

Lemma inEnv_frame {A} (m : M (Env World) A) (s : Run) : snd (snd (inEnv m s)) = snd s.
Proof. destruct s as [env fr]. unfold inEnv. rewrite lift_run. reflexivity. Qed.

(** Where the loop ends, if it returns. *)
Lemma migrateItems_ends (destVaultId : string) (total sourceCount : nat)
    (items : list Item) :
  forall s : Run,
    countsAgree (snd s) ->
    match
      migrateItems remote categories anywhereOnWebsite vaultId vaultName sourceToken
        destToken sourceSDK destSDK isCancelled customTemplateId destVaultId total
        sourceCount
        (finishVault remote vaultId vaultName destToken destVaultId total sourceCount)
        items s
    with
    | (Ok result, s') =>
        resultMatches result s' /\ countsAgree (snd s') /\ extends (snd s) (snd s')
    | (Throw _, _) => True
    end.
Proof.
  induction items as [|item rest IH]; intros s Hcounts.
  - cbn [migrateItems]. destruct s as [env fr].
    destruct (finishVault_run destVaultId total sourceCount env fr)
      as (destCount & env' & _ & ->).
    split; [|split; [exact Hcounts | exists []; symmetry; apply app_nil_r]].
    repeat split.
  - rewrite migrateItems_cons.
    pose proof (inEnv_frame isCancelled s) as Hframe.
    destruct (inEnv isCancelled s) as [[[|]|e] [env1 fr1]]; cbn [fst snd] in Hframe;
      [| |exact I]; subst fr1.
    + rewrite cancelVault_run.
      split; [|split; [exact Hcounts | exists []; symmetry; apply app_nil_r]].
      repeat split.
    + pose proof (itemStep_keeps_counts destVaultId item total (env1, snd s) Hcounts) as Hc.
      pose proof (itemStep_extends destVaultId item total (env1, snd s)) as Hext.
      specialize (IH _ Hc).
      destruct (migrateItems _ _ _ _ _ _ _ _ _ _ _ _ _ _ _ rest _) as [[result|e] s'];
        [|exact I].
      destruct IH as (H1 & H2 & H3).
      split; [exact H1|]. split; [exact H2|].
      exact (extends_trans _ _ _ Hext H3).
Qed.

End CallEnds.

(** ** Cancellation between two items *)

Section Cancellation.
Context {World Client : Type}.
Variable remote : Remote World Client.
Variable categories : ItemCategory.t.
Variable anywhereOnWebsite : string.
Variables vaultId vaultName sourceToken destToken : string.
Variables sourceSDK destSDK : OnePasswordSDK Client.
Variable isCancelled : M (Env World) bool.
Variable customTemplateId : option string.

Local Abbreviation Run := (Env World * Frame)%type.

Lemma untouched_counts (fr : Frame) : untouched fr -> countsAgree fr.
Proof. intros (H1 & H2 & H3 & H4). split; [lia | rewrite H1, H2; reflexivity]. Qed.

Lemma openVault_keeps_untouched :
  Preserves (onFrame untouched)
    (openVault remote vaultId vaultName sourceToken destToken sourceSDK).
Proof.
  unfold openVault.
  repeat first
    [ match goal with |- forall _, _ => intro end
    | apply preserves_bind
    | apply preserves_tryCatch
    | apply preserves_inEnv
    | apply preserves_ret
    | apply preserves_throw
    | (apply preserves_updateFrame; intros fr H; exact H) ].
Qed.

Lemma migrateItems_processed (destVaultId : string) (total sourceCount : nat)
    (afterLoop : M Run VaultResult) (pre rest : list Item) :
  forall s sk,
    processed remote categories anywhereOnWebsite vaultId vaultName sourceToken destToken
      sourceSDK destSDK isCancelled customTemplateId destVaultId total pre s = Some sk ->
    migrateItems remote categories anywhereOnWebsite vaultId vaultName sourceToken
      destToken sourceSDK destSDK isCancelled customTemplateId destVaultId total
      sourceCount afterLoop (pre ++ rest) s
    = migrateItems remote categories anywhereOnWebsite vaultId vaultName sourceToken
        destToken sourceSDK destSDK isCancelled customTemplateId destVaultId total
        sourceCount afterLoop rest sk.
Proof.
  induction pre as [|item pre IH]; intros s sk H.
  - injection H as <-. reflexivity.
  - cbn [app]. rewrite migrateItems_cons. cbn [processed] in H.
    destruct (inEnv isCancelled s) as [[[|]|e] s1]; try discriminate H.
    apply IH, H.
Qed.

(** Each item gone through has one result, in order. *)
Lemma processed_results (destVaultId : string) (total : nat) (pre : list Item) :
  forall s sk,
    processed remote categories anywhereOnWebsite vaultId vaultName sourceToken destToken
      sourceSDK destSDK isCancelled customTemplateId destVaultId total pre s = Some sk ->
    map resultId (migrationResults (snd sk))
    = map resultId (migrationResults (snd s)) ++ map itemId pre.
Proof.
  induction pre as [|item pre IH]; intros s sk H.
  - injection H as <-. cbn. symmetry. apply app_nil_r.
  - cbn [processed] in H.
    pose proof (inEnv_frame isCancelled s) as Hframe.
    destruct (inEnv isCancelled s) as [[[|]|e] [env1 fr1]]; try discriminate H.
    cbn [fst snd] in Hframe. subst fr1.
    rewrite (IH _ _ H). rewrite itemStep_run.
    destruct (attemptItem _ _ _ _ _ _ _ _ _ _ _ env1) as [[[]|e] env2];
      cbn [fst snd recordSuccess recordFailure migrationResults];
      rewrite map_app, <- app_assoc; reflexivity.
Qed.

(** The flag seen up before an item: the call returns the results it has,
    marks the vault cancelled and logs one line; nothing else happens. *)
Lemma migrateVault_cancelled (s0 s1 sk sk' : Run) (sourceCount : nat)
    (destVaultId : string) (pre : list Item) (next : Item) (rest : list Item) :
  openVault remote vaultId vaultName sourceToken destToken sourceSDK
    (snd (startVault vaultId vaultName s0))
  = (Ok (sourceCount, destVaultId, pre ++ next :: rest), s1) ->
  processed remote categories anywhereOnWebsite vaultId vaultName sourceToken destToken
    sourceSDK destSDK isCancelled customTemplateId destVaultId
    (length (pre ++ next :: rest)) pre s1 = Some sk ->
  inEnv isCancelled sk = (Ok true, sk') ->
  migrateVault remote categories anywhereOnWebsite vaultId vaultName sourceToken
    destToken sourceSDK destSDK isCancelled customTemplateId s0
  = (Ok {| itemsLength := length (pre ++ next :: rest);
           vaultResults := migrationResults (snd sk);
           sourceItemCount := sourceCount;
           destItemCount := None;
           vaultSuccessCount := successCount (snd sk);
           vaultFailureCount := failureCount (snd sk) |},
     (snd (logInfo (Some vaultId) "Migration cancelled by user" (fst sk')),
      setLogEntry (setStatus Cancelled (logEntry (snd sk))) (snd sk))).
Proof.
  intros Hopen Hpre Hflag.
  unfold migrateVault. unfold bind at 1.
  assert (Hstart : startVault vaultId vaultName s0
                   = (Ok tt, snd (startVault vaultId vaultName s0))).
  { destruct s0; reflexivity. }
  rewrite Hstart. unfold tryCatch, bind. rewrite Hopen.
  rewrite (migrateItems_processed _ _ _ _ _ _ _ _ Hpre).
  rewrite migrateItems_cons, Hflag.
  pose proof (inEnv_frame isCancelled sk) as Hframe. rewrite Hflag in Hframe.
  destruct sk' as [env' fr']. cbn [fst snd] in Hframe. subst fr'.
  rewrite cancelVault_run. reflexivity.
Qed.

End Cancellation.

(** ** Cancellation in a bulk run *)

Section BulkCancellation.
Context {World Client : Type}.
Variable remote : Remote World Client.
Variable categories : ItemCategory.t.
Variable anywhereOnWebsite : string.
Variables sourceToken destToken : string.
Variables sourceSDK destSDK : OnePasswordSDK Client.
Variable customTemplateId : option string.

Local Abbreviation Run := (Env World * Frame)%type.
Local Abbreviation Stream := (Run * list SseEvent)%type.

Lemma readCancelled_run (s : Run) :
  inEnv (readCancelled remote) s = (Ok (flagUp remote (fst s)), s).
Proof. destruct s as [env fr]. reflexivity. Qed.

Lemma failVault_throws {A} (vaultId : string) (e : JsError) (s : Run) :
  fst (@failVault World A vaultId e s) = Throw e.
Proof. destruct s as [env fr]. reflexivity. Qed.

(** A result without a destination count comes from the cancellation
    branch, and the flag is still up where the call ends. *)
Lemma migrateItems_cancelled_flag (vaultId vaultName destVaultId : string)
    (total sourceCount : nat) (items : list Item) :
  forall s : Run,
    match
      migrateItems remote categories anywhereOnWebsite vaultId vaultName sourceToken
        destToken sourceSDK destSDK (readCancelled remote) customTemplateId destVaultId
        total sourceCount
        (finishVault remote vaultId vaultName destToken destVaultId total sourceCount)
        items s
    with
    | (Ok result, s') => destItemCount result = None -> flagUp remote (fst s') = true
    | (Throw _, _) => True
    end.
Proof.
  induction items as [|item rest IH]; intros s.
  - cbn [migrateItems]. destruct s as [env fr].
    destruct (finishVault_run remote vaultId vaultName destToken destVaultId total
                sourceCount env fr) as (destCount & env' & _ & ->).
    cbn. discriminate.
  - rewrite migrateItems_cons, readCancelled_run.
    destruct (flagUp remote (fst s)) eqn:Hflag.
    + destruct s as [env fr]. rewrite cancelVault_run. intros _. exact Hflag.
    + apply IH.
Qed.

Lemma migrateVault_cancelled_flag (vaultId vaultName : string) (s : Run) :
  match
    migrateVault remote categories anywhereOnWebsite vaultId vaultName sourceToken
      destToken sourceSDK destSDK (readCancelled remote) customTemplateId s
  with
  | (Ok result, s') => destItemCount result = None -> flagUp remote (fst s') = true
  | (Throw _, _) => True
  end.
Proof.
  unfold migrateVault. unfold bind at 1.
  assert (Hstart : startVault vaultId vaultName s
                   = (Ok tt, snd (startVault vaultId vaultName s))).
  { destruct s; reflexivity. }
  rewrite Hstart. unfold tryCatch, bind.
  destruct (openVault remote vaultId vaultName sourceToken destToken sourceSDK
              (snd (startVault vaultId vaultName s)))
    as [[[[sourceCount destVaultId] items]|e] s1].
  - pose proof (migrateItems_cancelled_flag vaultId vaultName destVaultId
                  (length items) sourceCount items s1) as H.
    destruct (migrateItems _ _ _ _ _ _ _ _ _ _ _ _ _ _ _ items s1) as [[result|e] s'].
    + exact H.
    + pose proof (failVault_throws (A := VaultResult) vaultId e s') as Hf.
      destruct (failVault vaultId e s') as [[r|e'] s'']; [discriminate Hf | exact I].
  - pose proof (failVault_throws (A := VaultResult) vaultId e s1) as Hf.
    destruct (failVault vaultId e s1) as [[r|e'] s'']; [discriminate Hf | exact I].
Qed.

(** A vault of a bulk run that ends cancelled leaves the flag up. *)
Lemma migrateOneVault_cancelled (vault : VaultRef) (completedVaults totalVaults : nat)
    (st st' : Stream) (vaultId vaultName msg : string) (success : bool)
    (result : VaultResult) :
  migrateOneVault remote categories anywhereOnWebsite sourceToken destToken sourceSDK
    destSDK customTemplateId vault completedVaults totalVaults st
  = (Ok (VaultDone vaultId vaultName success msg result), st') ->
  destItemCount result = None ->
  flagUp remote (fst (fst st')) = true.
Proof.
  intros Hrun Hnone. unfold migrateOneVault, tryCatch, bind in Hrun.
  destruct st as [s r].
  destruct (migrateVaultWithProgress_follows remote categories anywhereOnWebsite
              (vaultRefId vault) (vaultRefName vault ++ " (Migrated)") sourceToken
              destToken sourceSDK destSDK (readCancelled remote) customTemplateId
              (progressCallback vault completedVaults totalVaults)
              (progressCallback_quiet vault completedVaults totalVaults) s r)
    as [r' Hagree].
  rewrite Hagree in Hrun.
  pose proof (migrateVault_cancelled_flag (vaultRefId vault)
                (vaultRefName vault ++ " (Migrated)") s) as Hflag.
  destruct (migrateVault _ _ _ _ _ _ _ _ _ _ _ s) as [[result'|e] s'']; cbn [fst snd] in Hrun.
  - unfold ret, outcomeOf in Hrun. injection Hrun as _ _ _ _ <- <-.
    cbn [fst]. exact (Hflag Hnone).
  - unfold inServer, inEnv in Hrun. rewrite !lift_run in Hrun. discriminate Hrun.
Qed.

(** With the flag up, the loop over the vaults starts none: it logs one
    line, writes the cancellation event and returns. *)
Lemma migrateVaults_stops (totalVaults completedVaults : nat) (migrated : list Outcome)
    (vault : VaultRef) (rest : list VaultRef) (st : Stream) :
  flagUp remote (fst (fst st)) = true ->
  migrateVaults remote categories anywhereOnWebsite sourceToken destToken sourceSDK
    destSDK customTemplateId totalVaults completedVaults migrated (vault :: rest) st
  = (Ok None,
     ((snd (logInfo None "Bulk migration cancelled by user" (fst (fst st))),
       snd (fst st)),
      snd st ++ [CancelledByUser migrated])).
Proof.
  intros Hflag. destruct st as [[env fr] events]. cbn [fst snd] in *.
  cbn [migrateVaults]. unfold bind at 1. unfold inServer at 1.
  rewrite lift_run, readCancelled_run. cbn [fst snd]. rewrite Hflag. reflexivity.
Qed.

End BulkCancellation.

(** ** The call as a whole *)

Section CallTheorems.
Context {World Client : Type}.
Variable remote : Remote World Client.
Variable categories : ItemCategory.t.
Variable anywhereOnWebsite : string.
Variables vaultId vaultName sourceToken destToken : string.
Variables sourceSDK destSDK : OnePasswordSDK Client.
Variable isCancelled : M (Env World) bool.
Variable customTemplateId : option string.

Local Abbreviation Run := (Env World * Frame)%type.
Local Abbreviation Stream := (Run * list SseEvent)%type.

Lemma startVault_run (s : Run) :
  startVault vaultId vaultName s = (Ok tt, snd (startVault vaultId vaultName s))
  /\ snd (snd (startVault vaultId vaultName s)) = initialFrame.
Proof. destruct s as [env fr]. split; reflexivity. Qed.

(** Where [migrateVault] ends, if it returns. *)
Lemma migrateVault_ends (s : Run) :
  match
    migrateVault remote categories anywhereOnWebsite vaultId vaultName sourceToken
      destToken sourceSDK destSDK isCancelled customTemplateId s
  with
  | (Ok result, s') => resultMatches result s' /\ countsAgree (snd s')
  | (Throw _, _) => True
  end.
Proof.
  unfold migrateVault. unfold bind at 1.
  destruct (startVault_run s) as [Hstart Hframe]. rewrite Hstart.
  unfold tryCatch, bind.
  pose proof (openVault_keeps_counts remote vaultId vaultName sourceToken destToken
                sourceSDK (snd (startVault vaultId vaultName s))) as Hopen.
  unfold onFrame in Hopen. rewrite Hframe in Hopen. specialize (Hopen countsAgree_initial).
  destruct (openVault remote vaultId vaultName sourceToken destToken sourceSDK
              (snd (startVault vaultId vaultName s)))
    as [[[[sourceCount destVaultId] items]|e] s1]; cbn [snd] in Hopen.
  - pose proof (migrateItems_ends remote categories anywhereOnWebsite vaultId vaultName
                  sourceToken destToken sourceSDK destSDK isCancelled customTemplateId
                  destVaultId (length items) sourceCount items s1 Hopen) as H.
    destruct (migrateItems _ _ _ _ _ _ _ _ _ _ _ _ _ _ _ items s1) as [[result|e] s'].
    + destruct H as (H1 & H2 & _). split; assumption.
    + pose proof (failVault_throws (A := VaultResult) vaultId e s') as Hf.
      destruct (failVault vaultId e s') as [[r|e'] s'']; [discriminate Hf | exact I].
  - pose proof (failVault_throws (A := VaultResult) vaultId e s1) as Hf.
    destruct (failVault vaultId e s1) as [[r|e'] s'']; [discriminate Hf | exact I].
Qed.

(** C5.  Suppose a vault was opened with the items [pre ++ next :: rest],
    the loop went through the [k] items of [pre] with the cancellation
    flag down, and before [next] the flag is seen up.  Then [migrateVault]
    returns a result with exactly [k] per-item results, those of [pre] in
    order, and without a destination count; the log entry of the vault
    says [cancelled]; and after the flag was seen, the call does nothing
    to the world and logs one line: [next] and the items after it are not
    attempted.  In a bulk run, a vault that ends cancelled leaves the flag
    up, and the loop over the vaults, finding the flag up, starts no
    vault: it logs one line and writes the cancellation event. *)
Theorem C5_cancellation (s0 s1 sk sk' : Run) (sourceCount : nat) (destVaultId : string)
    (pre : list Item) (next : Item) (rest : list Item) :
  openVault remote vaultId vaultName sourceToken destToken sourceSDK
    (snd (startVault vaultId vaultName s0))
  = (Ok (sourceCount, destVaultId, pre ++ next :: rest), s1) ->
  processed remote categories anywhereOnWebsite vaultId vaultName sourceToken destToken
    sourceSDK destSDK isCancelled customTemplateId destVaultId
    (length (pre ++ next :: rest)) pre s1 = Some sk ->
  inEnv isCancelled sk = (Ok true, sk') ->
  let final :=
    migrateVault remote categories anywhereOnWebsite vaultId vaultName sourceToken
      destToken sourceSDK destSDK isCancelled customTemplateId s0 in
  (exists result,
     fst final = Ok result
     /\ length (vaultResults result) = length pre
     /\ map resultId (vaultResults result) = map itemId pre
     /\ itemsLength result = length pre + S (length rest)
     /\ destItemCount result = None)
  /\ status (logEntry (snd (snd final))) = Cancelled
  /\ world (fst (snd final)) = world (fst sk')
  /\ logger (fst (snd final))
     = Logger.log INFO (Some vaultId) "Migration cancelled by user" None
         (logger (fst sk'))
  /\ (forall vault completedVaults totalVaults (st st' : Stream)
             doneId doneName success msg result,
        migrateOneVault remote categories anywhereOnWebsite sourceToken destToken
          sourceSDK destSDK customTemplateId vault completedVaults totalVaults st
        = (Ok (VaultDone doneId doneName success msg result), st') ->
        destItemCount result = None ->
        flagUp remote (fst (fst st')) = true)
  /\ (forall totalVaults completedVaults migrated vault others (st : Stream),
        flagUp remote (fst (fst st)) = true ->
        migrateVaults remote categories anywhereOnWebsite sourceToken destToken
          sourceSDK destSDK customTemplateId totalVaults completedVaults migrated
          (vault :: others) st
        = (Ok None,
           ((snd (logInfo None "Bulk migration cancelled by user" (fst (fst st))),
             snd (fst st)),
            snd st ++ [CancelledByUser migrated]))).
Proof.
  intros Hopen Hpre Hflag final. subst final.
  rewrite (migrateVault_cancelled remote categories anywhereOnWebsite vaultId vaultName
             sourceToken destToken sourceSDK destSDK isCancelled customTemplateId
             s0 s1 sk sk' sourceCount destVaultId pre next rest Hopen Hpre Hflag).
  cbn [fst snd].
  assert (Hfresh : untouched (snd s1)).
  { pose proof (openVault_keeps_untouched remote vaultId vaultName sourceToken destToken
                  sourceSDK (snd (startVault vaultId vaultName s0))) as H.
    unfold onFrame in H. rewrite (proj2 (startVault_run s0)), Hopen in H.
    apply H. repeat split. }
  pose proof (processed_results remote categories anywhereOnWebsite vaultId vaultName
                sourceToken destToken sourceSDK destSDK isCancelled customTemplateId
                destVaultId _ pre s1 sk Hpre) as Hids.
  rewrite (proj1 Hfresh) in Hids. cbn [map app] in Hids.
  split.
  { eexists. split; [reflexivity|]. cbn.
    split; [rewrite <- (length_map resultId), Hids; apply length_map|].
    split; [exact Hids|].
    split; [rewrite length_app; reflexivity | reflexivity]. }
  split; [reflexivity|]. split; [reflexivity|]. split; [reflexivity|].
  split.
  - intros vault completedVaults totalVaults st st' doneId doneName success msg result.
    apply migrateOneVault_cancelled.
  - intros totalVaults completedVaults migrated vault others st.
    apply migrateVaults_stops.
Qed.

(** C6.  A turn of the loop whose attempt throws does not throw itself:
    the loop goes on with the next item, in a state where the failing item
    has one more result, a failure carrying the message of the error,
    after the results recorded before, which are as they were; the failure
    counter is one more and the success counter is as it was.  Every
    checkpoint the progress callback is called with has
    [successCount + failureCount = itemsProcessed]; the result of a call
    that returns has as many results as its two counters together; and
    the loop only adds results to those recorded before. *)
Theorem C6_failures_are_counted (destVaultId : string) (total sourceCount : nat)
    (afterLoop : M Run VaultResult) (item : Item) (rest : list Item)
    (env env0 env1 : Env World) (fr : Frame) (e : JsError) :
  isCancelled env = (Ok false, env0) ->
  attemptItem remote categories anywhereOnWebsite vaultId sourceToken destToken
    sourceSDK destSDK customTemplateId destVaultId item env0 = (Throw e, env1) ->
  let fr' := recordFailure item total e fr in
  migrateItems remote categories anywhereOnWebsite vaultId vaultName sourceToken
    destToken sourceSDK destSDK isCancelled customTemplateId destVaultId total
    sourceCount afterLoop (item :: rest) (env, fr)
  = migrateItems remote categories anywhereOnWebsite vaultId vaultName sourceToken
      destToken sourceSDK destSDK isCancelled customTemplateId destVaultId total
      sourceCount afterLoop rest (afterFailure vaultId vaultName item e env1, fr')
  /\ migrationResults fr'
     = migrationResults fr ++
         [{| resultId := itemId item; resultTitle := itemTitle item;
             resultSuccess := false; resultError := Some (message e);
             resultProgress := (S (processedItems fr), total) |}]
  /\ failureCount fr' = S (failureCount fr)
  /\ successCount fr' = successCount fr
  /\ processedItems fr' = S (processedItems fr)
  /\ (forall s : Run,
        Forall checkpointAgrees
          (snd (snd (migrateVaultWithProgress remote categories anywhereOnWebsite
                       vaultId vaultName sourceToken destToken sourceSDK destSDK
                       isCancelled customTemplateId recordCheckpoint (s, [])))))
  /\ (forall s : Run,
        match
          migrateVault remote categories anywhereOnWebsite vaultId vaultName
            sourceToken destToken sourceSDK destSDK isCancelled customTemplateId s
        with
        | (Ok result, _) =>
            vaultSuccessCount result + vaultFailureCount result
            = length (vaultResults result)
        | (Throw _, _) => True
        end)
  /\ (forall items (s : Run),
        countsAgree (snd s) ->
        match
          migrateItems remote categories anywhereOnWebsite vaultId vaultName
            sourceToken destToken sourceSDK destSDK isCancelled customTemplateId
            destVaultId total sourceCount
            (finishVault remote vaultId vaultName destToken destVaultId total
               sourceCount)
            items s
        with
        | (Ok result, _) =>
            exists more, vaultResults result = migrationResults (snd s) ++ more
        | (Throw _, _) => True
        end).
Proof.
  intros Hflag Hattempt fr'. subst fr'.
  split.
  { rewrite migrateItems_cons. unfold inEnv. rewrite lift_run, Hflag. cbn [fst snd].
    rewrite itemStep_run, Hattempt. reflexivity. }
  split; [reflexivity|]. split; [reflexivity|]. split; [reflexivity|].
  split; [reflexivity|].
  split.
  { intros s. apply checkpoints_agree. }
  split.
  { intros s.
    pose proof (migrateVault_ends s) as H.
    destruct (migrateVault _ _ _ _ _ _ _ _ _ _ _ s) as [[result|e'] s']; [|exact I].
    destruct H as ((Hres & Hs & Hf & _) & (Hsum & Hlen)).
    rewrite Hres, Hs, Hf, Hlen. exact Hsum. }
  intros items s Hcounts.
  pose proof (migrateItems_ends remote categories anywhereOnWebsite vaultId vaultName
                sourceToken destToken sourceSDK destSDK isCancelled customTemplateId
                destVaultId total sourceCount items s Hcounts) as H.
  destruct (migrateItems _ _ _ _ _ _ _ _ _ _ _ _ _ _ _ items s) as [[result|e'] s'];
    [|exact I].
  destruct H as ((Hres & _) & _ & [more Hmore]).
  exists more. rewrite Hres. exact Hmore.
Qed.

End CallTheorems.

(** ** Reconciliation *)

Section Reconciliation.
Context {World Client : Type}.
Variable remote : Remote World Client.
Variable categories : ItemCategory.t.
Variable anywhereOnWebsite : string.

Local Abbreviation Run := (Env World * Frame)%type.

(** The two tests of the routes say the same: no failure, and as many
    items on both sides. *)
Lemma reconciled_iff (result : VaultResult) (destCount : nat) :
  destItemCount result = Some destCount ->
  ((0 <? vaultFailureCount result)
   || differs (sourceItemCount result) (destItemCount result) = false
   <-> vaultFailureCount result = 0 /\ sourceItemCount result = destCount).
Proof.
  intros ->. unfold differs.
  destruct (Nat.ltb_spec 0 (vaultFailureCount result));
    destruct (Nat.eqb_spec (sourceItemCount result) destCount); cbn;
    split; try discriminate; try lia; intros [? ?]; lia.
Qed.

Lemma respond_run (vaultId vaultName : string) (result : VaultResult) (s : Run) :
  exists response env',
    respond vaultId vaultName result s = (Ok response, (env', snd s))
    /\ httpStatus response = 200
    /\ httpSuccess response
       = negb ((0 <? vaultFailureCount result)
               || differs (sourceItemCount result) (destItemCount result))
    /\ httpResults response = vaultResults result
    /\ httpStats response = Some (statsOf result)
    /\ (httpSuccess response = false ->
        httpMessage response = completedWithFailures vaultName result).
Proof.
  destruct s as [env fr]. unfold respond.
  destruct ((0 <? vaultFailureCount result)
            || differs (sourceItemCount result) (destItemCount result));
    eexists; eexists; (split; [reflexivity|]); repeat split; discriminate.
Qed.

(** An answer of the single-vault route that carries statistics is the
    answer to a result of [migrateVault]. *)
Lemma migrateVaultRoute_answers (vaultId vaultName sourceToken destToken : string)
    (customTemplateId : option string) (s s' : Run) (response : HttpResponse)
    (stats : Stats) :
  migrateVaultRoute remote categories anywhereOnWebsite vaultId vaultName sourceToken
    destToken customTemplateId s = (Ok response, s') ->
  httpStats response = Some stats ->
  exists sourceSDK destSDK s1 result s2,
    migrateVault remote categories anywhereOnWebsite vaultId vaultName sourceToken
      destToken sourceSDK destSDK (readCancelled remote) customTemplateId s1
    = (Ok result, s2)
    /\ stats = statsOf result
    /\ snd s' = snd s2
    /\ httpSuccess response
       = negb ((0 <? vaultFailureCount result)
               || differs (sourceItemCount result) (destItemCount result))
    /\ httpResults response = vaultResults result
    /\ (httpSuccess response = false ->
        httpMessage response = completedWithFailures vaultName result).
Proof.
  intros Hroute Hstats. unfold migrateVaultRoute in Hroute.
  destruct s as [env fr]. cbn [snd].
  destruct (String.eqb vaultId "" || String.eqb vaultName ""
            || String.eqb sourceToken "" || String.eqb destToken "").
  { unfold bind, inEnv in Hroute. rewrite lift_run in Hroute. cbn in Hroute.
    injection Hroute as <- _. discriminate Hstats. }
  unfold tryCatch, bind, inEnv in Hroute. rewrite lift_run in Hroute.
  destruct (newSDK remote sourceToken env) as [[sourceSDK|e] env1]; cbn [fst snd] in Hroute.
  2:{ rewrite lift_run in Hroute. cbn in Hroute. injection Hroute as <- _.
      discriminate Hstats. }
  rewrite lift_run in Hroute.
  destruct (newSDK remote destToken env1) as [[destSDK|e] env2]; cbn [fst snd] in Hroute.
  2:{ rewrite lift_run in Hroute. cbn in Hroute. injection Hroute as <- _.
      discriminate Hstats. }
  destruct (migrateVault remote categories anywhereOnWebsite vaultId vaultName
              sourceToken destToken sourceSDK destSDK (readCancelled remote)
              customTemplateId (env2, fr)) as [[result|e] s2] eqn:Hrun.
  2:{ destruct s2 as [env3 fr3]. rewrite lift_run in Hroute. cbn in Hroute.
      injection Hroute as <- _. discriminate Hstats. }
  destruct (respond_run vaultId vaultName result s2)
    as (response' & env' & Hrespond & _ & Hsuccess & Hresults & Hstats' & Hmsg).
  rewrite Hrespond in Hroute. injection Hroute as <- <-.
  exists sourceSDK, destSDK, (env2, fr), result, s2.
  split; [exact Hrun|]. split; [congruence|]. split; [reflexivity|].
  split; [assumption|]. split; assumption.
Qed.

(** C7.  After the items of a vault the destination is counted again
    ([finishVault] returns the count [getVaultItemCount] gives for the
    new vault, and marks the log entry [completed]).  For a vault whose
    items were all processed, that is whose result carries a destination
    count, the single-vault route answers [success: true] if and only if
    the failure count is 0 and the source count equals the destination
    count; otherwise it answers [success: false] with the message that the
    migration completed with that many failures.  The log entry says
    [completed] in both cases: what tells the two apart is [success] and
    the message.  The outcome of a vault in a bulk run has [success] under
    the same condition. *)
Theorem C7_reconciliation (vaultId vaultName sourceToken destToken : string)
    (customTemplateId : option string) (s s' : Run) (response : HttpResponse)
    (stats : Stats) (destCount : nat) :
  migrateVaultRoute remote categories anywhereOnWebsite vaultId vaultName sourceToken
    destToken customTemplateId s = (Ok response, s') ->
  httpStats response = Some stats ->
  statDestItemCount stats = Some destCount ->
  (httpSuccess response = true
   <-> statFailureCount stats = 0 /\ statSourceItemCount stats = destCount)
  /\ (httpSuccess response = false ->
      exists items : nat,
        httpMessage response
        = ("Vault " ++ Js.quoted vaultName ++ " migration completed with "
             ++ Js.showNat (statFailureCount stats) ++ " failures out of "
             ++ Js.showNat items ++ " items")%string)
  /\ status (logEntry (snd s')) = Completed
  /\ statSuccessCount stats + statFailureCount stats = length (httpResults response)
  /\ (forall vault result,
        destItemCount result = Some destCount ->
        (outcomeSuccess (outcomeOf vault result) = true
         <-> vaultFailureCount result = 0 /\ sourceItemCount result = destCount))
  /\ (forall vault name token newVault total sourceCount (env : Env World) (fr : Frame),
        exists recount env',
          fst (getVaultItemCount remote newVault token env) = Ok recount
          /\ fst (finishVault remote vault name token newVault total sourceCount (env, fr))
             = Ok {| itemsLength := total;
                     vaultResults := migrationResults fr;
                     sourceItemCount := sourceCount;
                     destItemCount := Some recount;
                     vaultSuccessCount := successCount fr;
                     vaultFailureCount := failureCount fr |}
          /\ snd (finishVault remote vault name token newVault total sourceCount (env, fr))
             = (env', setLogEntry (completeEntry recount (successCount fr)
                                     (failureCount fr) (logEntry fr)) fr)).
Proof.
  intros Hroute Hstats Hdest.
  destruct (migrateVaultRoute_answers _ _ _ _ _ _ _ _ _ Hroute Hstats)
    as (sourceSDK & destSDK & s1 & result & s2 & Hrun & -> & Hframe & Hsuccess
        & Hresults & Hmsg).
  cbn [statsOf statDestItemCount statFailureCount statSourceItemCount statSuccessCount]
    in *.
  pose proof (migrateVault_ends remote categories anywhereOnWebsite vaultId vaultName
                sourceToken destToken sourceSDK destSDK (readCancelled remote)
                customTemplateId s1) as Hends.
  rewrite Hrun in Hends. destruct Hends as ((Hres & Hs & Hf & Hstatus) & (Hsum & Hlen)).
  split.
  { rewrite Hsuccess, negb_true_iff. apply reconciled_iff, Hdest. }
  split.
  { intros Hfalse. exists (itemsLength result). exact (Hmsg Hfalse). }
  split.
  { rewrite Hframe, Hstatus, Hdest. reflexivity. }
  split.
  { rewrite Hresults, Hres, Hs, Hf, Hlen. exact Hsum. }
  split.
  { intros vault result' Hdest'. unfold outcomeOf, outcomeSuccess.
    rewrite Hdest'. unfold differs.
    rewrite negb_involutive, andb_true_iff, !Nat.eqb_eq. tauto. }
  intros vault name token newVault total sourceCount env fr.
  destruct (finishVault_run remote vault name token newVault total sourceCount env fr)
    as (recount & env' & Hcount & Hfinish).
  exists recount, env'. rewrite Hfinish. repeat split. exact Hcount.
Qed.

End Reconciliation.

(** ** The bridge without a template *)

Section IncludesFacts.
Import Js.

Lemma startsWith_app (sub t : string) : startsWith (sub ++ t) sub = true.
Proof.
  induction sub as [|c sub IH]; [destruct t; reflexivity|].
  cbn. rewrite Ascii.eqb_refl. exact IH.
Qed.

Lemma includes_unfold (s sub : string) :
  includes s sub
  = startsWith s sub
    || match s with
       | EmptyString => false
       | String _ r => includes r sub
       end.
Proof. destruct s; reflexivity. Qed.

Lemma includes_here (sub t : string) : includes (sub ++ t) sub = true.
Proof. rewrite includes_unfold, startsWith_app. reflexivity. Qed.

Lemma includes_skip (p s sub : string) :
  includes s sub = true -> includes (p ++ s) sub = true.
Proof.
  intros H. induction p as [|c p IH]; [exact H|].
  cbn. rewrite IH. apply orb_true_r.
Qed.

End IncludesFacts.

Section BridgeTheorems.
Context {World Client : Type}.
Variable remote : Remote World Client.
Variable categories : ItemCategory.t.
Variable anywhereOnWebsite : string.
Variables vaultId vaultName sourceToken destToken : string.
Variables sourceSDK destSDK : OnePasswordSDK Client.
Variable isCancelled : M (Env World) bool.
Variable customTemplateId : option string.

Local Abbreviation Run := (Env World * Frame)%type.

Lemma templateError_hint (reason : string) :
  Js.includes (message (templateError reason)) customTemplateHint = true.
Proof.
  unfold templateError. cbn [message].
  apply (includes_skip "Failed to get CUSTOM template: ").
  apply includes_skip. apply (includes_skip ". "). apply includes_here.
Qed.

Lemma detectCustomTemplate_fails (env : Env World) :
  noCustomTemplate remote destToken ->
  exists reason env',
    detectCustomTemplate remote destToken vaultId env
    = (Throw (templateError reason), env').
Proof.
  intros Hnone. unfold detectCustomTemplate, bind, tryCatch, call.
  cbn [logInfo logAt modify fst snd world].
  specialize (Hnone (world env)).
  destruct (opItemTemplateList remote destToken (world env)) as [[templates|e] w'].
  - rewrite Hnone. eexists. eexists. reflexivity.
  - eexists. eexists. reflexivity.
Qed.

(** Without a template id and without a template to find, the bridge
    throws the error that asks for a template id, once the item is read. *)
Lemma createCustomItemViaCLI_fails (item : Item) (destVaultId : string)
    (env : Env World) :
  templateIdGiven customTemplateId = false ->
  noCustomTemplate remote destToken ->
  sourceItemReadable remote vaultId sourceToken item ->
  exists reason env',
    createCustomItemViaCLI remote item sourceToken destToken vaultId destVaultId vaultId
      customTemplateId env
    = (Throw (templateError reason), env').
Proof.
  intros Hblank Hnone Hread.
  unfold createCustomItemViaCLI. unfold tryCatch at 1. unfold bind at 1 2.
  cbn [logInfo logAt modify]. unfold call at 1. cbn [world].
  destruct (Hread (world env)) as (raw & w' & Hget & Hfields). rewrite Hget.
  destruct (rawFields raw) as [fields|]; [|congruence].
  unfold bind at 1. rewrite Hblank.
  match goal with |- context [detectCustomTemplate remote destToken vaultId ?e] =>
    destruct (detectCustomTemplate_fails e Hnone) as (reason & env' & ->) end.
  exists reason. eexists. reflexivity.
Qed.

(** C8, amended.  Take a source item that is routed to the bridge, no
    template id from the operator, no custom template to be found in the
    destination account, and let the command line tool read the item from
    the source account, with its fields.  Then the bridge throws an error
    whose message asks to provide a Custom Template UUID; the turn of the
    loop does not throw: it records the item as failed, with that message,
    and the loop goes on with the items that remain. *)
Theorem C8_bridge_without_template (item : Item) (rest : list Item)
    (destVaultId : string) (total sourceCount : nat) (afterLoop : M Run VaultResult)
    (env env0 : Env World) (fr : Frame) :
  isCustomItem categories item = true ->
  templateIdGiven customTemplateId = false ->
  noCustomTemplate remote destToken ->
  sourceItemReadable remote vaultId sourceToken item ->
  isCancelled env = (Ok false, env0) ->
  exists error env1,
    Js.includes (message error) customTemplateHint = true
    /\ (forall env2, exists reason env3,
          createCustomItemViaCLI remote item sourceToken destToken vaultId destVaultId
            vaultId customTemplateId env2
          = (Throw (templateError reason), env3))
    /\ attemptItem remote categories anywhereOnWebsite vaultId sourceToken destToken
         sourceSDK destSDK customTemplateId destVaultId item env0 = (Throw error, env1)
    /\ itemStep remote categories anywhereOnWebsite vaultId vaultName sourceToken
         destToken sourceSDK destSDK customTemplateId destVaultId item total (env0, fr)
       = (Ok tt, (afterFailure vaultId vaultName item error env1,
                  recordFailure item total error fr))
    /\ last (migrationResults (recordFailure item total error fr))
            {| resultId := ""; resultTitle := ""; resultSuccess := true;
               resultError := None; resultProgress := (0, 0) |}
       = {| resultId := itemId item; resultTitle := itemTitle item;
            resultSuccess := false; resultError := Some (message error);
            resultProgress := (S (processedItems fr), total) |}
    /\ migrateItems remote categories anywhereOnWebsite vaultId vaultName sourceToken
         destToken sourceSDK destSDK isCancelled customTemplateId destVaultId total
         sourceCount afterLoop (item :: rest) (env, fr)
       = migrateItems remote categories anywhereOnWebsite vaultId vaultName sourceToken
           destToken sourceSDK destSDK isCancelled customTemplateId destVaultId total
           sourceCount afterLoop rest
           (afterFailure vaultId vaultName item error env1,
            recordFailure item total error fr).
Proof.
  intros Hcustom Hblank Hnone Hread Hflag.
  assert (Hattempt : exists reason env1,
             attemptItem remote categories anywhereOnWebsite vaultId sourceToken
               destToken sourceSDK destSDK customTemplateId destVaultId item env0
             = (Throw (templateError reason), env1)).
  { unfold attemptItem, bind. cbn [describeItem logInfo logAt modify].
    rewrite Hcustom. unfold sendCustomItem, bind. cbn [logInfo logAt modify].
    match goal with |- context [createCustomItemViaCLI _ _ _ _ _ _ _ _ ?e] =>
      destruct (createCustomItemViaCLI_fails item destVaultId e Hblank Hnone Hread)
        as (reason & env1 & ->) end.
    exists reason, env1. reflexivity. }
  destruct Hattempt as (reason & env1 & Hattempt).
  exists (templateError reason), env1.
  split; [apply templateError_hint|].
  split.
  { intros env2. apply createCustomItemViaCLI_fails; assumption. }
  split; [exact Hattempt|].
  split.
  { rewrite itemStep_run, Hattempt. reflexivity. }
  split.
  { cbn [recordFailure migrationResults]. apply last_last. }
  rewrite migrateItems_cons. unfold inEnv. rewrite lift_run, Hflag. cbn [fst snd].
  rewrite itemStep_run, Hattempt. reflexivity.
Qed.

End BridgeTheorems.

Section Witnesses.
Import Scenario.

(** C5 at the ten-item vault with a cancellation request after the fourth
    item: four results, those of the items 1 to 4, a cancelled log entry,
    and four items in the destination. *)
Lemma C5_cancellation_witness :
  (exists result,
     fst (migrate tenItems true (Some 4)) = Ok result
     /\ length (vaultResults result) = 4
     /\ map resultId (vaultResults result) = ["1"; "2"; "3"; "4"]
     /\ itemsLength result = 10
     /\ destItemCount result = None)
  /\ status (logEntry (snd (snd (migrate tenItems true (Some 4))))) = Cancelled
  /\ created (world (fst (snd (migrate tenItems true (Some 4))))) = 4.
Proof.
  destruct (C5_cancellation (remote tenItems true) categories anywhere "src" "Personal"
              "source-token" "dest-token" sdk sdk (readCancelled (remote tenItems true))
              None (start (Some 4)) opened afterFour afterFour 10 "dest"
              (firstn 4 tenItems) (login "5") (skipn 5 tenItems))
    as ((result & Hres & Hlen & Hids & Htotal & Hdest) & Hstatus & Hworld & _).
  - vm_compute. reflexivity.
  - vm_compute. reflexivity.
  - vm_compute. reflexivity.
  - split; [|split].
    + exists result. repeat split; assumption.
    + exact Hstatus.
    + unfold migrate. rewrite Hworld. reflexivity.
Defined.

(** C6 at a vault whose second item the destination refuses: the turn
    of that item records one failure with the message of the refusal, and
    the loop goes on with the third item. *)
Lemma C6_failures_are_counted_witness :
  let r := remote [login "a"; rejected; login "c"] true in
  let fr' := recordFailure rejected 3 refusal initialFrame in
  migrateItems r categories anywhere "src" "Personal" "source-token" "dest-token"
    sdk sdk (readCancelled r) None "dest" 3 3
    (finishVault r "src" "Personal" "dest-token" "dest" 3 3)
    [rejected; login "c"] (start None)
  = migrateItems r categories anywhere "src" "Personal" "source-token" "dest-token"
      sdk sdk (readCancelled r) None "dest" 3 3
      (finishVault r "src" "Personal" "dest-token" "dest" 3 3)
      [login "c"] (afterFailure "src" "Personal" rejected refusal afterRefusal, fr')
  /\ map resultError (migrationResults fr') = [Some "invalid item"]
  /\ failureCount fr' = 1
  /\ successCount fr' = 0.
Proof.
  intros r fr'.
  destruct (C6_failures_are_counted r categories anywhere "src" "Personal"
              "source-token" "dest-token" sdk sdk (readCancelled r) None "dest" 3 3
              (finishVault r "src" "Personal" "dest-token" "dest" 3 3)
              rejected [login "c"] (fst (start None)) (fst (start None)) afterRefusal
              initialFrame refusal)
    as (Hloop & Hresults & Hfailed & Hsucceeded & _).
  - reflexivity.
  - vm_compute. reflexivity.
  - split; [exact Hloop|]. split; [|split].
    + fold fr' in Hresults. rewrite Hresults. reflexivity.
    + exact Hfailed.
    + exact Hsucceeded.
Defined.

(** C7 at the vault of five items, all created: the route answers
    [success: true], with five items counted on both sides, and the log
    entry says [completed]. *)
Lemma C7_reconciliation_witness :
  fst route = Ok answer
  /\ httpStats answer = Some fiveOfFive
  /\ httpSuccess answer = true
  /\ status (logEntry (snd (snd route))) = Completed.
Proof.
  destruct (C7_reconciliation (remote fiveItems true) categories anywhere "src"
              "Personal" "source-token" "dest-token" None (start None) afterRoute
              answer fiveOfFive 5)
    as (Hiff & _ & Hstatus & _).
  - vm_compute. reflexivity.
  - reflexivity.
  - reflexivity.
  - split; [vm_compute; reflexivity|]. split; [reflexivity|].
    split; [apply Hiff; split; reflexivity|].
    exact Hstatus.
Defined.

(** C8, as stated, fails: the item is routed to the bridge, no template
    id is given and no custom template is to be found, yet the error of
    the bridge is that of the command line tool that could not read the
    item from the source, and asks for no template id.  The item is still
    recorded as failed. *)
Lemma C8_unreadable_item_gives_another_error :
  isCustomItem categories custom = true
  /\ templateIdGiven None = false
  /\ noCustomTemplate (remote [custom] false) "dest-token"
  /\ fst (createCustomItemViaCLI (remote [custom] false) custom "source-token"
            "dest-token" "src" "dest" "src" None (fst (start None)))
     = Throw {| message := "item not found" |}
  /\ Js.includes "item not found" "Template" = false
  /\ (exists result,
        fst (migrate [custom] false None) = Ok result
        /\ map resultError (vaultResults result) = [Some "item not found"]).
Proof.
  split; [reflexivity|]. split; [reflexivity|].
  split; [intros w; reflexivity|].
  split; [vm_compute; reflexivity|]. split; [reflexivity|].
  eexists. split; vm_compute; reflexivity.
Qed.

(** C8 at the item "X" of category CUSTOM, which the command line tool
    reads: the bridge asks for a template id, the item is recorded as
    failed. *)
Lemma C8_bridge_without_template_witness :
  let r := remote [custom] true in
  exists error env1,
    Js.includes (message error) customTemplateHint = true
    /\ itemStep r categories anywhere "src" "Personal" "source-token" "dest-token"
         sdk sdk None "dest" custom 1 (start None)
       = (Ok tt, (afterFailure "src" "Personal" custom error env1,
                  recordFailure custom 1 error initialFrame)).
Proof.
  intros r.
  destruct (C8_bridge_without_template r categories anywhere "src" "Personal"
              "source-token" "dest-token" sdk sdk (readCancelled r) None custom []
              "dest" 1 1 (finishVault r "src" "Personal" "dest-token" "dest" 1 1)
              (fst (start None)) (fst (start None)) initialFrame)
    as (error & env1 & Hhint & _ & _ & Hstep & _).
  - reflexivity.
  - reflexivity.
  - intros w. reflexivity.
  - intros w. exists raw, w. split; [reflexivity | discriminate].
  - reflexivity.
  - exists error, env1. split; [exact Hhint | exact Hstep].
Defined.

(** C9 at the five-item vault, with the callback of the bulk route: the
    result and the state of [migrateVault], and the events written. *)
Lemma C9_progress_variant_agrees_witness :
  let r := remote fiveItems true in
  exists events,
    migrateVaultWithProgress r categories anywhere "src" "Personal" "source-token"
      "dest-token" sdk sdk (readCancelled r) None (progressCallback vault 0 1)
      (start None, [])
    = (fst (migrate fiveItems true None), (snd (migrate fiveItems true None), events)).
Proof.
  intros r.
  destruct (C9_progress_variant_agrees r categories anywhere "src" "Personal"
              "source-token" "dest-token" sdk sdk (readCancelled r) None (start None))
    as [_ Hroute].
  exact (Hroute vault 0 1 []).
Defined.

(** What the hypothesis on the callback is for.  The progress update of a
    migrated item is inside the [try] block of the item: a callback that
    throws there sends the item, already counted as migrated, to the
    [catch] block, which counts it again, as failed. *)
Remark throwing_callback_counts_the_item_again :
  let r := remote [login "1"] true in
  (exists result,
     fst (migrateVaultWithProgress r categories anywhere "src" "Personal" "source-token"
            "dest-token" sdk sdk (readCancelled r) None closedStream (start None, tt))
     = Ok result
     /\ map resultSuccess (vaultResults result) = [true; false]
     /\ vaultSuccessCount result = 1 /\ vaultFailureCount result = 1)
  /\ (exists result,
        fst (migrate [login "1"] true None) = Ok result
        /\ map resultSuccess (vaultResults result) = [true]
        /\ vaultSuccessCount result = 1 /\ vaultFailureCount result = 0).
Proof.
  split; eexists; (split; [vm_compute; reflexivity|]); repeat split.
Qed.

End Witnesses.

(* ================================================================== *)
(** * Part II, continued: more properties of the code                  *)
(* ================================================================== *)

(** ** The log and its counters *)

Section LogManagerFacts.
Import LogManagerOps.

Lemma filter_snoc_length {X : Type} (f : X -> bool) (l : list X) (x : X) :
  length (filter f (l ++ [x])) = length (filter f l) + (if f x then 1 else 0).
Proof.
  rewrite filter_app, length_app. cbn. destruct (f x); reflexivity.
Qed.

Lemma entriesAt_log (lv lv' : Level) (vaultId : option string) (msg : string)
    (itemId : option string) (lm : LogManager) :
  entriesAt lv (Logger.log lv' vaultId msg itemId lm)
  = entriesAt lv lm + (if levelEqb lv' lv then 1 else 0).
Proof.
  unfold entriesAt, Logger.log. cbn [globalLog]. rewrite filter_snoc_length. reflexivity.
Qed.

(** The log after a call of [log]: the one [Logger.log] computes when the
    call returns; the entry and nothing else when it throws. *)
Lemma log_run (lv : Level) (vaultId : option string) (msg : string)
    (itemId : option string) (lm : LogManager) :
  let after := snd (log lv vaultId msg itemId lm) in
  globalLog after = globalLog (Logger.log lv vaultId msg itemId lm)
  /\ failedItems after = failedItems lm
  /\ (if noArrayFor vaultId then
        errorCount after = errorCount lm /\ warningCount after = warningCount lm
      else after = Logger.log lv vaultId msg itemId lm).
Proof.
  unfold log. destruct (noArrayFor vaultId); cbn; repeat split.
Qed.

(** Every call keeps the counters at or below what the log holds. *)
Lemma perform_keeps_counters (lm : LogManager) (c : Call) :
  errorCount lm <= entriesAt ERROR lm
  /\ warningCount lm <= entriesAt WARNING lm
  /\ length (failedItems lm) <= entriesAt ERROR lm ->
  errorCount (perform lm c) <= entriesAt ERROR (perform lm c)
  /\ warningCount (perform lm c) <= entriesAt WARNING (perform lm c)
  /\ length (failedItems (perform lm c)) <= entriesAt ERROR (perform lm c).
Proof.
  intros (He & Hw & Hf). unfold perform.
  destruct c as [lv vaultId msg itemId|v n i t e|v st|]; cbn [method].
  - destruct (log_run lv vaultId msg itemId lm) as (Hlog & Hfailed & Hcount).
    unfold entriesAt in *. rewrite Hlog, Hfailed. cbn [Logger.log globalLog].
    rewrite !filter_snoc_length. cbn [level].
    destruct (noArrayFor vaultId).
    + destruct Hcount as [-> ->]. repeat split; lia.
    + rewrite Hcount. destruct lv; cbn; repeat split; lia.
  - unfold logFailedItem, bind, modify. cbn [fst snd].
    match goal with |- context [log ERROR ?v ?m ?i ?l] =>
      destruct (log_run ERROR v m i l) as (Hlog & Hfailed & Hcount) end.
    unfold entriesAt in *. rewrite Hlog, Hfailed. cbn [Logger.log globalLog failedItems].
    rewrite !filter_snoc_length, length_app. cbn [level levelEqb length].
    destruct (noArrayFor (Some v)).
    + destruct Hcount as [-> ->]. cbn [errorCount warningCount]. repeat split; lia.
    + rewrite Hcount. cbn. repeat split; lia.
  - unfold logVaultComplete, modify, entriesAt in *. cbn [snd].
    destruct (String.eqb v "__proto__"); cbn; repeat split; assumption.
  - unfold clear, modify, entriesAt. cbn. repeat split; lia.
Qed.

(** A call that returns keeps the counters equal to what the log holds. *)
Lemma perform_keeps_counters_equal (lm : LogManager) (c : Call) :
  returns c = true ->
  errorCount lm = entriesAt ERROR lm
  /\ warningCount lm = entriesAt WARNING lm
  /\ length (failedItems lm) <= errorCount lm ->
  errorCount (perform lm c) = entriesAt ERROR (perform lm c)
  /\ warningCount (perform lm c) = entriesAt WARNING (perform lm c)
  /\ length (failedItems (perform lm c)) <= errorCount (perform lm c).
Proof.
  intros Hreturns (He & Hw & Hf). unfold perform.
  destruct c as [lv vaultId msg itemId|v n i t e|v st|]; cbn [method returns] in *.
  - apply negb_true_iff in Hreturns.
    rewrite log_returns by exact Hreturns. cbn [snd].
    rewrite !entriesAt_log. destruct lv; cbn; repeat split; lia.
  - apply negb_true_iff in Hreturns.
    unfold logFailedItem, bind, modify. cbn [fst snd].
    rewrite log_returns by exact Hreturns. cbn [snd].
    rewrite !entriesAt_log. cbn.
    unfold entriesAt in *. cbn [globalLog] in *. rewrite length_app. cbn.
    repeat split; lia.
  - unfold logVaultComplete, modify, entriesAt in *. cbn [snd].
    destruct (String.eqb v "__proto__"); cbn; repeat split; assumption.
  - unfold clear, modify, entriesAt. cbn. repeat split; lia.
Qed.

Lemma performAll_keeps_counters (calls : list Call) (lm : LogManager) :
  errorCount lm <= entriesAt ERROR lm
  /\ warningCount lm <= entriesAt WARNING lm
  /\ length (failedItems lm) <= entriesAt ERROR lm ->
  let lm' := fold_left perform calls lm in
  errorCount lm' <= entriesAt ERROR lm'
  /\ warningCount lm' <= entriesAt WARNING lm'
  /\ length (failedItems lm') <= entriesAt ERROR lm'.
Proof.
  revert lm. induction calls as [|c calls IH]; intros lm H; [exact H|].
  cbn. apply IH, perform_keeps_counters, H.
Qed.

Lemma performAll_keeps_counters_equal (calls : list Call) (lm : LogManager) :
  forallb returns calls = true ->
  errorCount lm = entriesAt ERROR lm
  /\ warningCount lm = entriesAt WARNING lm
  /\ length (failedItems lm) <= errorCount lm ->
  let lm' := fold_left perform calls lm in
  errorCount lm' = entriesAt ERROR lm'
  /\ warningCount lm' = entriesAt WARNING lm'
  /\ length (failedItems lm') <= errorCount lm'.
Proof.
  revert lm. induction calls as [|c calls IH]; intros lm Hall H; [exact H|].
  cbn [forallb] in Hall. apply andb_true_iff in Hall as [Hc Hall].
  cbn. apply IH; [exact Hall|]. apply perform_keeps_counters_equal; assumption.
Qed.

Lemma levels_partition (lm : LogManager) :
  entriesAt ERROR lm + entriesAt WARNING lm + entriesAt INFO lm = length (globalLog lm).
Proof.
  unfold entriesAt. induction (globalLog lm) as [|e l IH]; [reflexivity|].
  cbn. destruct (level e); cbn; lia.
Qed.

(** X1.  Whatever the server logged since it started or since the log was
    last cleared, the summary never counts more than the log holds:
    [errors] and [warnings] are at most the numbers of entries of the
    global log at these levels, every failed item has its error entry,
    and the entries are errors, warnings or informations.  A call under
    a vault id that names a member of [Object.prototype] throws with its
    entry in the log and not counted; when no call was of that kind,
    [errors] and [warnings] are exactly those numbers. *)
Theorem log_summary_counts_the_log (calls : list Call) :
  let lm := performAll calls in
  let summary := Logger.getSummary lm in
  errors summary <= entriesAt ERROR lm
  /\ warnings summary <= entriesAt WARNING lm
  /\ failedItemCount summary <= entriesAt ERROR lm
  /\ entriesAt ERROR lm + entriesAt WARNING lm + entriesAt INFO lm = totalEntries summary
  /\ (forallb returns calls = true ->
      errors summary = entriesAt ERROR lm
      /\ warnings summary = entriesAt WARNING lm
      /\ failedItemCount summary <= errors summary).
Proof.
  intros lm summary.
  destruct (performAll_keeps_counters calls Logger.empty) as (He & Hw & Hf).
  { cbn. repeat split; lia. }
  fold (performAll calls) in He, Hw, Hf. fold lm in He, Hw, Hf.
  subst summary. cbn [Logger.getSummary errors warnings failedItemCount totalEntries].
  split; [exact He|]. split; [exact Hw|]. split; [exact Hf|].
  split; [apply levels_partition|].
  intros Hall.
  destruct (performAll_keeps_counters_equal calls Logger.empty Hall) as (He' & Hw' & Hf').
  { cbn. repeat split; lia. }
  repeat split; assumption.
Qed.

(** An error logged under the vault id "constructor" is in the log and
    not in the summary. *)
Remark an_error_that_is_not_counted :
  let lm := performAll [Log ERROR (Some "constructor") "Vault migration failed" None] in
  entriesAt ERROR lm = 1
  /\ errors (Logger.getSummary lm) = 0
  /\ vaults (Logger.getSummary lm) = 0.
Proof. repeat split. Qed.

Lemma nodup_snoc_length (l : list string) (v : string) :
  length (nodup string_dec (l ++ [v]))
  = if in_dec string_dec v l then length (nodup string_dec l)
    else S (length (nodup string_dec l)).
Proof.
  induction l as [|x l IH].
  - cbn. destruct (in_dec string_dec v []) as [[]|]; reflexivity.
  - cbn [app nodup].
    destruct (in_dec string_dec x (l ++ [v])) as [H1|H1];
      destruct (in_dec string_dec x l) as [H2|H2];
      destruct (in_dec string_dec v (x :: l)) as [H3|H3];
      cbn [length]; rewrite IH;
      destruct (in_dec string_dec v l) as [H4|H4];
      try reflexivity;
      exfalso; rewrite ?in_app_iff in *; cbn [In] in *; intuition congruence.
Qed.

Lemma nodup_length_le (l : list string) : length (nodup string_dec l) <= length l.
Proof.
  induction l as [|x l IH]; [reflexivity|]. cbn.
  destruct (in_dec string_dec x l); cbn; lia.
Qed.

Lemma loggedVaults_log (lv : Level) (vaultId : option string) (msg : string)
    (itemId : option string) (lm : LogManager) :
  Logger.loggedVaults (snd (log lv vaultId msg itemId lm))
  = nodup string_dec
      (flat_map (fun e => match logVaultId e with
                          | Some v =>
                              if String.eqb v "" || Js.namesInherited v then [] else [v]
                          | None => []
                          end) (globalLog lm)
       ++ match vaultId with
          | Some v => if String.eqb v "" || Js.namesInherited v then [] else [v]
          | None => []
          end).
Proof.
  unfold Logger.loggedVaults.
  rewrite (proj1 (log_run lv vaultId msg itemId lm)).
  cbn [Logger.log globalLog]. rewrite flat_map_app. cbn [flat_map logVaultId].
  rewrite app_nil_r. reflexivity.
Qed.

(** X2.  The summary counts a vault once, however often it is logged: an
    entry without a vault id, or with the empty one, adds no vault; an
    entry of a vault that was logged before adds none; an entry of a new
    vault adds one.  The exception is a vault id that names a member of
    [Object.prototype]: the call throws, and no vault is added.  There
    are never more vaults than entries. *)
Theorem log_summary_counts_each_vault_once (lv : Level) (vaultId : option string)
    (msg : string) (itemId : option string) (lm : LogManager) :
  let run := log lv vaultId msg itemId lm in
  let before := vaults (Logger.getSummary lm) in
  let after := vaults (Logger.getSummary (snd run)) in
  (Js.truthy vaultId = false -> fst run = Ok tt /\ after = before)
  /\ (forall v, vaultId = Some v -> Js.namesInherited v = true ->
        fst run = Throw pushIsNoFunction /\ after = before)
  /\ (forall v, vaultId = Some v -> v <> "" -> Js.namesInherited v = false ->
        In v (Logger.loggedVaults lm) -> fst run = Ok tt /\ after = before)
  /\ (forall v, vaultId = Some v -> v <> "" -> Js.namesInherited v = false ->
        ~ In v (Logger.loggedVaults lm) -> fst run = Ok tt /\ after = S before)
  /\ before <= totalEntries (Logger.getSummary lm).
Proof.
  intros run before after. subst run before after.
  cbn [Logger.getSummary vaults totalEntries].
  rewrite loggedVaults_log.
  split; [|split; [|split; [|split]]].
  - intros Hfalsy. destruct vaultId as [v|]; cbn in Hfalsy.
    + apply negb_false_iff in Hfalsy. rewrite Hfalsy, app_nil_r.
      apply String.eqb_eq in Hfalsy. subst v. split; reflexivity.
    + rewrite app_nil_r. split; reflexivity.
  - intros v -> Hname. split; [apply log_throws; exact Hname|].
    rewrite Hname, orb_true_r, app_nil_r. reflexivity.
  - intros v -> Hne Hname Hin. split; [rewrite log_returns by exact Hname; reflexivity|].
    apply String.eqb_neq in Hne. rewrite Hne, Hname. cbn [orb].
    rewrite nodup_snoc_length. apply nodup_In in Hin.
    destruct (in_dec string_dec v _); [reflexivity | contradiction].
  - intros v -> Hne Hname Hout. split; [rewrite log_returns by exact Hname; reflexivity|].
    apply String.eqb_neq in Hne. rewrite Hne, Hname. cbn [orb].
    rewrite nodup_snoc_length.
    destruct (in_dec string_dec v _) as [Hin|]; [|reflexivity].
    exfalso. apply Hout. apply nodup_In. exact Hin.
  - etransitivity; [apply nodup_length_le|].
    induction (globalLog lm) as [|e l IH]; [reflexivity|].
    cbn [flat_map]. rewrite length_app. cbn [length].
    destruct (logVaultId e) as [v|];
      [destruct (String.eqb v "" || Js.namesInherited v)|]; cbn [length]; lia.
Qed.

End LogManagerFacts.

(** ** retryWithBackoff: how long it waits, and what it returns *)

Section RetryWaits.
Context {St A : Type}.

Lemma pow2_double (n : nat) : 1 <= n -> 2 ^ (n - 1) + 2 ^ (n - 1) = 2 ^ n.
Proof.
  intros H. destruct n as [|n]; [lia|]. cbn [Nat.sub]. rewrite Nat.sub_0_r.
  rewrite Nat.pow_succ_r'. lia.
Qed.

(** The waits of a schedule that starts at [attempt] double each time. *)
Lemma totalWait_schedule (baseDelay : nat) (o : Result A) (rest : list (Result A)) :
  forall attempt,
    1 <= attempt ->
    totalWait (schedule baseDelay attempt (o :: rest)) + baseDelay * 2 ^ (attempt - 1)
    = baseDelay * 2 ^ (attempt - 1 + length rest).
Proof.
  revert o. induction rest as [|o' rest IH]; intros o attempt Hpos.
  - cbn. rewrite Nat.add_0_r. reflexivity.
  - cbn [schedule totalWait length].
    change (match rest with
            | [] => []
            | _ :: _ => Slept (baseDelay * 2 ^ (S attempt - 1))
                          :: schedule baseDelay (S (S attempt)) rest
            end) with (tl (schedule baseDelay (S attempt) (o' :: rest))).
    assert (Htl : totalWait (Invoked o' :: tl (schedule baseDelay (S attempt) (o' :: rest)))
                  = totalWait (schedule baseDelay (S attempt) (o' :: rest)))
      by reflexivity.
    cbn [totalWait] in Htl. rewrite Htl.
    specialize (IH o' (S attempt) ltac:(lia)).
    replace (S attempt - 1) with attempt in IH by lia.
    replace (attempt - 1 + S (length rest)) with (attempt + length rest) by lia.
    rewrite <- IH. pose proof (pow2_double attempt Hpos). nia.
Qed.

Lemma schedule_length (baseDelay : nat) (outs : list (Result A)) :
  forall attempt,
    length (schedule baseDelay attempt outs) = length outs + (length outs - 1).
Proof.
  induction outs as [|o [|o' rest] IH]; intros attempt; [reflexivity | reflexivity |].
  cbn [schedule length]. specialize (IH (S attempt)). cbn [schedule length] in IH.
  rewrite IH. lia.
Qed.

Variable tick : nat -> St -> St.
Variable warn : nat -> nat -> JsError -> St -> St.
Variable fn : M St A.

(** X3.  A call [retryWithBackoff(fn, maxRetries, baseDelay)] that
    invokes [fn] [n] times waits [n - 1] times, for
    [baseDelay * (2 ^ (n - 1) - 1)] milliseconds in all, so never longer
    than [baseDelay * (2 ^ (maxRetries - 1) - 1)]: with the default
    arguments, at most 3000 ms. *)
Theorem retry_total_wait (maxRetries baseDelay : nat) (s : St) :
  let trace := snd (snd (tracedRetry tick warn fn maxRetries baseDelay s)) in
  let n := length (outcomes trace) in
  totalWait trace + baseDelay = baseDelay * 2 ^ (n - 1)
  /\ length trace = n + (n - 1)
  /\ totalWait trace + baseDelay <= baseDelay * 2 ^ (maxRetries - 1)
  /\ (maxRetries = Retry.defaultMaxRetries -> baseDelay = Retry.defaultBaseDelay ->
      totalWait trace <= 3000).
Proof.
  intros trace n.
  destruct (retryLoop_trace tick warn fn maxRetries baseDelay maxRetries 1 s [])
    as (outs & Hatt & Htrace & _); [lia | lia |].
  change (trace = schedule baseDelay 1 outs) in Htrace.
  assert (Hn : n = length outs).
  { unfold n. rewrite Htrace, outcomes_schedule. reflexivity. }
  pose proof (attempts_bound _ _ _ _ Hatt ltac:(lia)) as Hbound.
  assert (Hsum : totalWait trace + baseDelay = baseDelay * 2 ^ (n - 1)).
  { rewrite Hn, Htrace. destruct outs as [|o rest]; [cbn; lia|].
    pose proof (totalWait_schedule baseDelay o rest 1 ltac:(lia)) as H.
    cbn [Nat.sub Nat.pow length Nat.add] in *. rewrite Nat.sub_0_r.
    rewrite Nat.mul_1_r in H. exact H. }
  assert (Hle : totalWait trace + baseDelay <= baseDelay * 2 ^ (maxRetries - 1)).
  { rewrite Hsum. apply Nat.mul_le_mono_l. apply Nat.pow_le_mono_r; lia. }
  split; [exact Hsum|].
  split; [rewrite Hn, Htrace; apply schedule_length|].
  split; [exact Hle|].
  intros Hm Hb. rewrite Hm, Hb in Hle.
  change Retry.defaultMaxRetries with 3 in Hle.
  change Retry.defaultBaseDelay with 1000 in Hle.
  change (2 ^ (3 - 1)) with 4 in Hle. lia.
Qed.

End RetryWaits.

Section RetryDefined.
Context {St A : Type}.
Variable sleep : nat -> M St unit.
Variable warnRetry : nat -> nat -> JsError -> M St unit.
Variable fn : M St A.

(** With a turn left, the loop returns a value of [fn] or throws. *)
Lemma retryLoop_defined (maxRetries baseDelay : nat) :
  forall remaining attempt s,
    S remaining + attempt = S maxRetries ->
    match fst (Retry.retryLoop sleep warnRetry fn maxRetries baseDelay
                 (S remaining) attempt s) with
    | Ok None => False
    | _ => True
    end.
Proof.
  induction remaining as [|remaining IH]; intros attempt s Hsum;
    cbn [Retry.retryLoop]; unfold tryCatch, bind, ret, throw;
    destruct (fn s) as [[a|e] s1]; cbn [fst]; try exact I.
  - assert ((attempt <? maxRetries) = false) as -> by (apply Nat.ltb_ge; lia).
    rewrite andb_false_r. exact I.
  - destruct (Retry.isTransient e && (attempt <? maxRetries)); [|exact I].
    cbv zeta. destruct (warnRetry _ _ _ s1) as [[[]|e1] s2]; [|exact I].
    destruct (sleep _ s2) as [[[]|e2] s3]; [|exact I].
    apply IH. lia.
Qed.

(** X4.  [retryWithBackoff] returns [undefined] only when it is asked for
    no attempt at all, and then it does not invoke [fn]: with
    [maxRetries >= 1] a call returns a value of [fn] or throws. *)
Theorem retry_returns_a_value_or_throws (baseDelay : nat) (s : St) :
  Retry.retryWithBackoff sleep warnRetry fn 0 baseDelay s = (Ok None, s)
  /\ (forall maxRetries,
        1 <= maxRetries ->
        match fst (Retry.retryWithBackoff sleep warnRetry fn maxRetries baseDelay s) with
        | Ok None => False
        | _ => True
        end).
Proof.
  split; [reflexivity|].
  intros [|maxRetries] H; [lia|].
  unfold Retry.retryWithBackoff. apply retryLoop_defined. lia.
Qed.

End RetryDefined.

(** ** The two field mappers *)

Section MapperFacts.
Import Js Transcoder.

Lemma orStr_default (s d : string) : String.eqb d "" = false -> String.eqb (orStr s d) "" = false.
Proof.
  intros Hd. unfold orStr. destruct (String.eqb s "") eqn:Hs; assumption.
Qed.

Lemma orOpt_default (a : option string) (d : string) :
  String.eqb d "" = false -> String.eqb (orOpt a d) "" = false.
Proof. intros Hd. destruct a; cbn; [apply orStr_default|]; assumption. Qed.

Lemma orStr_orOpt (a : option string) (d : string) : orStr (orOpt a d) d = orOpt a d.
Proof.
  unfold orStr. destruct (String.eqb_spec (orOpt a d) "") as [He|]; [|reflexivity].
  destruct a as [s|]; cbn in *; [|congruence].
  unfold orStr in *. destruct (String.eqb_spec s ""); congruence.
Qed.

(** What the payment-card mapper does to the section of a field. *)
Lemma creditCardField_sectionId (field : Field) :
  nf_sectionId (creditCardField field)
  = if negb (truthy (f_sectionId field))
       && negb (existsb (String.eqb (orStr (f_id field) "unnamed")) builtInFieldIds)
    then Some "add more" else f_sectionId field.
Proof.
  unfold creditCardField.
  destruct (hasTypeRole field), (hasExpiryRole field), (hasNumberRole field),
    (hasCvvRole field), (hasPinRole field); cbn;
    match goal with |- context [if ?c then _ else _] => destruct c end; reflexivity.
Qed.

Lemma creditCardField_id (field : Field) :
  nf_id (creditCardField field) = orStr (f_id field) "unnamed"
  /\ nf_title (creditCardField field)
     = orStr (f_title field) (orOpt (f_label field) "unnamed").
Proof.
  unfold creditCardField.
  destruct (hasTypeRole field), (hasExpiryRole field), (hasNumberRole field),
    (hasCvvRole field), (hasPinRole field); cbn;
    match goal with |- context [if ?c then _ else _] => destruct c end; split; reflexivity.
Qed.

(** X5.  The payment-card mapper leaves no custom field outside a
    section: a field that comes with a section keeps it; a field without
    one goes to the section "add more", unless its id is one of the six
    built-in ids, which stay where they are.  Every field it returns has
    an id and a title. *)
Theorem credit_card_fields_get_a_section (field : Field) :
  let newField := creditCardField field in
  (truthy (f_sectionId field) = true -> nf_sectionId newField = f_sectionId field)
  /\ (truthy (f_sectionId field) = false ->
      existsb (String.eqb (nf_id newField)) builtInFieldIds = false ->
      nf_sectionId newField = Some "add more")
  /\ (truthy (f_sectionId field) = false ->
      existsb (String.eqb (nf_id newField)) builtInFieldIds = true ->
      nf_sectionId newField = f_sectionId field)
  /\ (truthy (nf_sectionId newField) = true
      \/ In (nf_id newField) builtInFieldIds)
  /\ String.eqb (nf_id newField) "" = false
  /\ String.eqb (nf_title newField) "" = false.
Proof.
  intros newField. subst newField.
  destruct (creditCardField_id field) as [Hid Htitle].
  rewrite creditCardField_sectionId, Hid, Htitle.
  destruct (truthy (f_sectionId field)) eqn:Hsection;
    destruct (existsb (String.eqb (orStr (f_id field) "unnamed")) builtInFieldIds)
      eqn:Hbuiltin; cbn [negb andb];
    repeat split; try congruence; try reflexivity;
    try (apply orStr_default; reflexivity);
    try (apply orStr_default, orOpt_default; reflexivity).
  - left. exact Hsection.
  - left. exact Hsection.
  - right. apply existsb_exists in Hbuiltin. destruct Hbuiltin as (x & Hin & Hx).
    apply String.eqb_eq in Hx. rewrite Hx. exact Hin.
  - left. reflexivity.
Qed.

(** X6.  The mapper of the other categories writes only the eleven field
    types it knows: a field of one of them keeps its type (a one-time code
    may become text), a field of any other type (a card type or number, a
    reference, an unsupported one) becomes plain text.  The section of
    the field is copied as it is, and every field it returns has an id
    and a title. *)
Theorem other_fields_have_a_known_type (field : Field) :
  let newField := otherField field in
  In (nf_fieldType newField)
     [ItemFieldType.Text; ItemFieldType.Concealed; ItemFieldType.Totp;
      ItemFieldType.Address; ItemFieldType.SshKey; ItemFieldType.Date;
      ItemFieldType.MonthYear; ItemFieldType.Email; ItemFieldType.Phone;
      ItemFieldType.Url; ItemFieldType.Menu]
  /\ (In (f_fieldType field)
         [ItemFieldType.Text; ItemFieldType.Concealed; ItemFieldType.Address;
          ItemFieldType.SshKey; ItemFieldType.Date; ItemFieldType.MonthYear;
          ItemFieldType.Email; ItemFieldType.Phone; ItemFieldType.Url;
          ItemFieldType.Menu] ->
      nf_fieldType newField = f_fieldType field)
  /\ (In (f_fieldType field)
         [ItemFieldType.CreditCardType; ItemFieldType.CreditCardNumber;
          ItemFieldType.Reference; ItemFieldType.Unsupported] ->
      nf_fieldType newField = ItemFieldType.Text)
  /\ nf_sectionId newField = f_sectionId field
  /\ String.eqb (nf_id newField) "" = false
  /\ String.eqb (nf_title newField) "" = false.
Proof.
  intros newField. subst newField. unfold otherField.
  assert (Hid : String.eqb (orStr (f_id field) "unnamed") "" = false)
    by (apply orStr_default; reflexivity).
  assert (Htitle : String.eqb (orStr (f_title field) (orOpt (f_label field) "unnamed")) ""
                   = false)
    by (apply orStr_default, orOpt_default; reflexivity).
  destruct (f_fieldType field) eqn:Htype; cbn [ItemFieldType.eqb andb orb destinationFieldType];
    try destruct (hasContent field);
    try destruct (isValidTotpUri (totpValueOf field) || isPotentialTotpSeed (totpValueOf field));
    cbn; repeat split; try assumption; try reflexivity;
    try (intros H; repeat (destruct H as [H|H]; try discriminate H); try contradiction);
    tauto.
Qed.

Ltac simp_listed :=
  cbn [ItemFieldType.eqb andb f_fieldType f_value f_details f_id f_title f_label
       f_sectionId content street city state zip country privateKey totp].

Lemma totp_twice (t : option string) (v : string) :
  orStr (orOpt t (orStr v "")) (orOpt t "") = orOpt t v.
Proof.
  rewrite orStr_empty_r. destruct t as [s|]; cbn; [|apply orStr_empty_r].
  destruct (String.eqb_spec s "") as [->|Hs].
  - cbn. apply orStr_empty_r.
  - rewrite !(orStr_nonempty s) by assumption. reflexivity.
Qed.

Lemma otherField_totp_value (field : Field) :
  f_fieldType field = ItemFieldType.Totp ->
  nf_value (otherField field) = VStr (totpValueOf field).
Proof.
  intros Htype. unfold otherField. rewrite Htype. cbn [ItemFieldType.eqb andb].
  destruct (isValidTotpUri (totpValueOf field) || isPotentialTotpSeed (totpValueOf field));
    reflexivity.
Qed.

Lemma otherField_sshKey_value (field : Field) :
  f_fieldType field = ItemFieldType.SshKey -> hasContent field = true ->
  nf_value (otherField field)
  = VStr (orOpt (contentMember privateKey field) (orStr (f_value field) "")).
Proof.
  intros Htype Hcontent. unfold otherField. rewrite Htype, Hcontent. reflexivity.
Qed.

(** X7.  What [listVaultItems] does to a field composes with the mapper
    of [migrateVault]: the one-time code written to the destination is
    [details.content.totp] when that is not empty, and the value of the
    field otherwise; the private key written for an SSH key field with
    details is [details.content.privateKey] when that is not empty, and
    the value of the field otherwise.  Listing a field again changes
    nothing. *)
Theorem listed_fields_are_transcoded (field : Field) :
  (f_fieldType field = ItemFieldType.Totp ->
   nf_value (otherField (listedField field))
   = VStr (orOpt (contentMember totp field) (f_value field)))
  /\ (f_fieldType field = ItemFieldType.SshKey -> hasContent field = true ->
      nf_value (otherField (listedField field))
      = VStr (orOpt (contentMember privateKey field) (f_value field)))
  /\ listedField (listedField field) = listedField field.
Proof.
  destruct field as [id title label type value section details].
  split; [|split].
  - cbn [f_fieldType]. intros ->.
    rewrite otherField_totp_value by reflexivity. f_equal.
    unfold listedField, totpValueOf, contentMember, detailsContent.
    cbn [ItemFieldType.eqb andb f_fieldType f_value f_details].
    destruct details as [[[c|]]|];
      [exact (totp_twice (totp c) value) | exact (totp_twice None value)
      | exact (totp_twice None value)].
  - cbn [f_fieldType]. intros -> Hcontent.
    unfold hasContent, detailsContent in Hcontent. cbn [f_details] in Hcontent.
    destruct details as [[[c|]]|]; try discriminate Hcontent.
    rewrite otherField_sshKey_value by reflexivity. f_equal.
    unfold listedField, hasContent, contentMember, detailsContent. cbn.
    rewrite orStr_empty_r. fold (orOpt (privateKey c) value).
    change (orStr (orOpt (privateKey c) value) value = orOpt (privateKey c) value).
    apply orStr_orOpt.
  - unfold listedField, hasContent, contentMember, detailsContent.
    destruct type; try reflexivity.
    + (* one-time code *)
      destruct details as [[[c|]]|]; simp_listed.
      * f_equal. rewrite (orStr_empty_r (orOpt _ _)).
        destruct (totp c) as [s|]; cbn [orOpt]; [|rewrite !orStr_empty_r; reflexivity].
        destruct (String.eqb_spec s "") as [->|Hs];
          [cbn; rewrite !orStr_empty_r; reflexivity|].
        rewrite !(orStr_nonempty s) by assumption. reflexivity.
      * f_equal. cbn [orOpt]. rewrite !orStr_empty_r. reflexivity.
      * f_equal. cbn [orOpt]. rewrite !orStr_empty_r. reflexivity.
    + (* SSH key *)
      destruct details as [[[c|]]|]; simp_listed; try reflexivity.
      cbn [orOpt]. rewrite orStr_orOpt. reflexivity.
    + (* address *)
      destruct details as [[[c|]]|]; simp_listed; try reflexivity.
      cbn [orOpt]. rewrite !orStr_empty_r. reflexivity.
Qed.

End MapperFacts.

(** ** Which items go to the bridge, and the files of an item *)

Section ItemFacts.
Context {World Client : Type}.
Variable remote : Remote World Client.
Variable categories : ItemCategory.t.
Variable anywhereOnWebsite : string.

Lemma eqb_lower (s name : string) :
  String.eqb s name = true ->
  String.eqb (Js.toLowerCase s) (Js.toLowerCase name) = true.
Proof. intros H. apply String.eqb_eq in H. subst. apply String.eqb_refl. Qed.

(** X8.  The nine tests of [isCustomItem] come to three: an item goes to
    the bridge exactly when its category is [sdk.ItemCategory.Custom], or
    reads "custom" or "unsupported" in any case.  An item without a
    category goes to the bridge exactly when the SDK has no member
    [ItemCategory.Custom]. *)
Theorem custom_items_by_category (item : Item) :
  let categoryStr := categoryString (itemCategory item) in
  isCustomItem categories item
  = (optEqb (itemCategory item) (ItemCategory.Custom categories)
     || String.eqb (Js.toLowerCase categoryStr) "custom"
     || String.eqb (Js.toLowerCase categoryStr) "unsupported")
  /\ (itemCategory item = None ->
      isCustomItem categories item
      = match ItemCategory.Custom categories with
        | None => true
        | Some _ => false
        end).
Proof.
  intros categoryStr. subst categoryStr. unfold isCustomItem. split.
  - destruct (itemCategory item) as [s|]; cbn [categoryString optEqb].
    + pose proof (eqb_lower s "CUSTOM") as H1.
      pose proof (eqb_lower s "Custom") as H2.
      pose proof (eqb_lower s "Unsupported") as H3.
      change (Js.toLowerCase "CUSTOM") with "custom" in H1.
      change (Js.toLowerCase "Custom") with "custom" in H2.
      change (Js.toLowerCase "Unsupported") with "unsupported" in H3.
      destruct (String.eqb s "CUSTOM") eqn:E1, (String.eqb s "Custom") eqn:E2,
        (String.eqb s "Unsupported") eqn:E3;
        destruct (match ItemCategory.Custom categories with
                  | Some y => String.eqb s y
                  | None => false
                  end);
        destruct (String.eqb (Js.toLowerCase s) "custom");
        destruct (String.eqb (Js.toLowerCase s) "unsupported");
        try reflexivity;
        first [discriminate (H1 eq_refl) | discriminate (H2 eq_refl)
              | discriminate (H3 eq_refl)].
    + destruct (ItemCategory.Custom categories); reflexivity.
  - intros ->. cbn. destruct (ItemCategory.Custom categories); reflexivity.
Qed.








End ItemFacts.

(** ** The permission check boxes of the vault manager page *)

Section PermissionFacts.
Import VaultManagerPage.

Lemma depsOf_key (permId depId : string) :
  In depId (depsOf permId) -> In permId permissionIds.
Proof.
  unfold depsOf, permissionIds.
  destruct (find (fun entry => String.eqb (fst entry) permId) permissionDeps)
    as [entry|] eqn:Hfind; [|intros []].
  intros _. apply find_some in Hfind. destruct Hfind as [Hin Heq].
  apply String.eqb_eq in Heq. subst permId. apply in_map. exact Hin.
Qed.

Lemma existsb_eqb (x : string) (l : list string) :
  existsb (String.eqb x) l = true <-> In x l.
Proof.
  rewrite existsb_exists. split.
  - intros (y & Hin & Heq). apply String.eqb_eq in Heq. subst. exact Hin.
  - intros Hin. exists x. split; [exact Hin | apply String.eqb_refl].
Qed.

(** The table lists with a permission the dependencies of its
    dependencies, and no permission depends on itself. *)
Lemma permissionDeps_transitive (permId depId depId' : string) :
  In depId (depsOf permId) -> In depId' (depsOf depId) -> In depId' (depsOf permId).
Proof.
  intros H1 H2.
  assert (Htable :
    forallb (fun p =>
      forallb (fun d =>
        forallb (fun d' => existsb (String.eqb d') (depsOf p)) (depsOf d)) (depsOf p))
      permissionIds = true) by (vm_compute; reflexivity).
  rewrite forallb_forall in Htable.
  specialize (Htable permId (depsOf_key _ _ H1)).
  rewrite forallb_forall in Htable. specialize (Htable depId H1).
  rewrite forallb_forall in Htable. specialize (Htable depId' H2).
  apply existsb_eqb. exact Htable.
Qed.

(** What the two loops do, box by box. *)
Lemma checkAll_at (deps : list string) :
  forall (dom : Dom) (x : string),
    checkAll deps dom x
    = if existsb (String.eqb x) deps then
        match dom x with
        | Some _ => Some true
        | None => None
        end
      else dom x.
Proof.
  unfold checkAll. induction deps as [|d deps IH]; intros dom x; [reflexivity|].
  cbn [fold_left existsb]. rewrite IH.
  destruct (String.eqb_spec x d) as [->|Hne]; cbn [orb].
  - destruct (dom d) as [[|]|] eqn:Hd; unfold setChecked; rewrite ?String.eqb_refl, ?Hd;
      destruct (existsb (String.eqb d) deps); reflexivity.
  - destruct (dom d) as [[|]|]; try reflexivity.
    unfold setChecked. apply String.eqb_neq in Hne. rewrite Hne. reflexivity.
Qed.

Lemma uncheck_at (deps : string -> list string) (permId : string) (ids : list string) :
  forall (dom : Dom) (x : string),
    fold_left (fun d otherId =>
                 if existsb (String.eqb permId) (deps otherId) then
                   match d otherId with
                   | Some true => setChecked otherId false d
                   | _ => d
                   end
                 else d) ids dom x
    = if existsb (String.eqb x) ids && existsb (String.eqb permId) (deps x) then
        match dom x with
        | Some _ => Some false
        | None => None
        end
      else dom x.
Proof.
  induction ids as [|o ids IH]; intros dom x; [reflexivity|].
  cbn [fold_left existsb]. rewrite IH.
  destruct (String.eqb_spec x o) as [->|Hne]; cbn [orb andb].
  - destruct (existsb (String.eqb permId) (deps o)) eqn:Hdep.
    + rewrite andb_true_r.
      destruct (dom o) as [[|]|] eqn:Ho; unfold setChecked;
        rewrite ?String.eqb_refl, ?Ho; destruct (existsb (String.eqb o) ids); reflexivity.
    + rewrite andb_false_r. reflexivity.
  - destruct (existsb (String.eqb permId) (deps o)); [|reflexivity].
    destruct (dom o) as [[|]|]; try reflexivity.
    unfold setChecked. apply String.eqb_neq in Hne. rewrite Hne. reflexivity.
Qed.

Lemma closed_checked (permId : string) (dom : Dom) :
  closed dom -> closed (checkAll (depsOf permId) (setChecked permId true dom)).
Proof.
  intros Hclosed q d Hd Hq Hfalse. rewrite checkAll_at in Hq, Hfalse.
  unfold setChecked in Hq, Hfalse.
  destruct (existsb (String.eqb d) (depsOf permId)) eqn:Hdin.
  { destruct (String.eqb d permId); [discriminate Hfalse|].
    destruct (dom d); discriminate Hfalse. }
  destruct (String.eqb_spec d permId) as [->|Hdp]; [discriminate Hfalse|].
  assert (Hnot : ~ In d (depsOf permId)).
  { intros Hin. apply existsb_eqb in Hin. congruence. }
  destruct (existsb (String.eqb q) (depsOf permId)) eqn:Hqin.
  - apply existsb_eqb in Hqin. apply Hnot.
    exact (permissionDeps_transitive _ _ _ Hqin Hd).
  - destruct (String.eqb_spec q permId) as [->|Hqp]; [contradiction|].
    exact (Hclosed q d Hd Hq Hfalse).
Qed.

(** Unchecking, for any table that lists with a permission the
    dependencies of its dependencies. *)
Lemma unchecked_stays_closed (ids : list string) (deps : string -> list string)
    (permId : string) (dom : Dom) :
  (forall p d, In d (deps p) -> In p ids) ->
  (forall p d d', In d (deps p) -> In d' (deps d) -> In d' (deps p)) ->
  (forall p d, In d (deps p) -> dom p = Some true -> dom d = Some false -> False) ->
  forall q d,
    In d (deps q) ->
    fold_left (fun dm otherId =>
                 if existsb (String.eqb permId) (deps otherId) then
                   match dm otherId with
                   | Some true => setChecked otherId false dm
                   | _ => dm
                   end
                 else dm) ids (setChecked permId false dom) q = Some true ->
    fold_left (fun dm otherId =>
                 if existsb (String.eqb permId) (deps otherId) then
                   match dm otherId with
                   | Some true => setChecked otherId false dm
                   | _ => dm
                   end
                 else dm) ids (setChecked permId false dom) d = Some false ->
    False.
Proof.
  intros Hkey Htrans Hclosed q d Hd Hq Hfalse.
  rewrite uncheck_at in Hq, Hfalse. unfold setChecked in Hq, Hfalse.
  assert (Hqkey : existsb (String.eqb q) ids = true)
    by (apply existsb_eqb; exact (Hkey _ _ Hd)).
  rewrite Hqkey in Hq. cbn [andb] in Hq.
  destruct (existsb (String.eqb permId) (deps q)) eqn:Hpq.
  { destruct (String.eqb q permId); [discriminate Hq|]. destruct (dom q); discriminate Hq. }
  destruct (String.eqb q permId) eqn:Hqp; [discriminate Hq|].
  assert (Hnot : ~ In permId (deps q)).
  { intros Hin. apply existsb_eqb in Hin. congruence. }
  destruct (String.eqb d permId) eqn:Hdp.
  { apply String.eqb_eq in Hdp. subst d. contradiction. }
  destruct (existsb (String.eqb d) ids && existsb (String.eqb permId) (deps d)) eqn:Hdd.
  - apply andb_prop in Hdd. destruct Hdd as [_ Hdd]. apply existsb_eqb in Hdd.
    apply Hnot. exact (Htrans _ _ _ Hd Hdd).
  - exact (Hclosed q d Hd Hq Hfalse).
Qed.

Lemma closed_unchecked (permId : string) (dom : Dom) :
  closed dom -> dom permId = Some true ->
  closed (uncheckDependents permId (setChecked permId false dom)).
Proof.
  intros Hclosed _.
  exact (unchecked_stays_closed permissionIds depsOf permId dom depsOf_key
           permissionDeps_transitive Hclosed).
Qed.

Lemma closed_flip_other (permId : string) (b : bool) (dom : Dom) :
  closed dom -> ~ In permId permissionIds -> closed (setChecked permId b dom).
Proof.
  intros Hclosed Hkey q d Hd Hq Hfalse. unfold setChecked in Hq, Hfalse.
  assert (Hdkey : In d permissionIds).
  { assert (Htable :
      forallb (fun p => forallb (fun d => existsb (String.eqb d) permissionIds) (depsOf p))
        permissionIds = true) by (vm_compute; reflexivity).
    rewrite forallb_forall in Htable. specialize (Htable q (depsOf_key _ _ Hd)).
    rewrite forallb_forall in Htable. apply existsb_eqb, Htable, Hd. }
  destruct (String.eqb_spec q permId) as [->|Hqp];
    [exfalso; apply Hkey; exact (depsOf_key _ _ Hd)|].
  destruct (String.eqb_spec d permId) as [->|Hdp]; [contradiction|].
  exact (Hclosed q d Hd Hq Hfalse).
Qed.

(** The run of [togglePermission], case by case. *)
Lemma togglePermission_run (permId : string) (dom : Dom) :
  togglePermission permId dom
  = match dom permId with
    | Some true => (Ok tt, uncheckDependents permId (setChecked permId false dom))
    | Some false =>
        if existsb (String.eqb permId) permissionIds then
          (Ok tt, checkAll (depsOf permId) (setChecked permId true dom))
        else if existsb (String.eqb permId) inheritedMembers then
          (Throw {| message := "deps.forEach is not a function" |},
           setChecked permId true dom)
        else (Ok tt, setChecked permId true dom)
    | None => (Ok tt, dom)
    end.
Proof.
  unfold togglePermission, handlePermissionChange, bind, gets, modify, ret, throw.
  cbn [fst snd].
  destruct (dom permId) as [[|]|]; cbn [negb]; try reflexivity;
    unfold setChecked at 1; rewrite String.eqb_refl; [reflexivity|].
  destruct (existsb (String.eqb permId) permissionIds); [reflexivity|].
  destruct (existsb (String.eqb permId) inheritedMembers); reflexivity.
Qed.

(** X10.  Clicking a permission never leaves a checked permission with an
    unchecked dependency: if the page was consistent before
    [togglePermission], it is consistent after it, whichever box is
    clicked, whether it gets checked or unchecked, and whichever boxes the
    page has.  Checking a permission of the table checks every dependency
    that has a box. *)
Theorem permissions_stay_consistent (permId : string) (dom : Dom) :
  closed dom ->
  let dom' := snd (togglePermission permId dom) in
  closed dom'
  /\ (dom permId = Some false -> In permId permissionIds ->
      dom' permId = Some true
      /\ forall depId, In depId (depsOf permId) -> dom depId <> None ->
           dom' depId = Some true).
Proof.
  intros Hclosed dom'. subst dom'. rewrite togglePermission_run.
  destruct (dom permId) as [[|]|] eqn:Hbox.
  - (* the box was checked: it gets unchecked *)
    cbn [snd]. split; [apply closed_unchecked; assumption | discriminate].
  - (* the box was unchecked: it gets checked *)
    destruct (existsb (String.eqb permId) permissionIds) eqn:Hkey; cbn [snd].
    + split; [apply closed_checked; assumption|].
      intros _ _. split.
      * rewrite checkAll_at. unfold setChecked. rewrite String.eqb_refl.
        destruct (existsb (String.eqb permId) (depsOf permId)); reflexivity.
      * intros depId Hdep Hsome. rewrite checkAll_at.
        apply existsb_eqb in Hdep. rewrite Hdep. unfold setChecked.
        destruct (String.eqb depId permId); [reflexivity|].
        destruct (dom depId); [reflexivity | contradiction].
    + assert (Hnokey : ~ In permId permissionIds).
      { intros Hin. apply existsb_eqb in Hin. congruence. }
      split.
      * destruct (existsb (String.eqb permId) inheritedMembers); cbn [snd];
          apply closed_flip_other; assumption.
      * intros _ Hin. contradiction.
  - split; [exact Hclosed | discriminate].
Qed.

End PermissionFacts.

(** ** Building the destination item *)

Section BuildFacts.
Context {World Client : Type}.
Variable remote : Remote World Client.
Variable categories : ItemCategory.t.
Variable anywhereOnWebsite : string.
Variables sourceSDK destSDK : OnePasswordSDK Client.
Variables vaultId destVaultId : string.
Variable item : Item.

Ltac split_ifs :=
  repeat match goal with
         | |- context [if ?c then _ else _] => destruct c
         end.

(** The document step returns, with the item as it was or with a document. *)
Lemma withDocument_run (newItem : NewItem) (env : Env World) :
  exists doc env',
    withDocument remote categories sourceSDK vaultId item newItem env = (Ok doc, env')
    /\ (doc = newItem \/ exists d, doc = setDocument (Some d) newItem).
Proof.
  unfold withDocument.
  destruct (isCategory item "Document"
            || isCategory item (ItemCategory.Document categories));
    [|exists newItem, env; split; [reflexivity | left; reflexivity]].
  unfold tryCatch, bind at 1.
  destruct (getFullItem remote sourceSDK vaultId item env) as [[[full|]|e] env1];
    try (eexists; eexists; split; [reflexivity | left; reflexivity]).
  destruct (fullDocument full) as [document|];
    [|eexists; eexists; split; [reflexivity | left; reflexivity]].
  destruct (negb (optEqb (fullCategory full) (Some (ItemCategory.Document categories))));
    [eexists; eexists; split; [reflexivity | left; reflexivity]|].
  unfold bind.
  destruct (retryWithBackoff remote _ env1) as [[content|e] env2];
    eexists; eexists; (split; [reflexivity|]); [right; eexists; reflexivity | left; reflexivity].
Qed.

(** The card step returns: for a card, with the card category and with
    the fields of the full item, or without them when it cannot be
    fetched. *)
Lemma withCreditCard_run (newItem : NewItem) (env : Env World) :
  exists card env',
    withCreditCard remote categories sourceSDK vaultId item newItem env = (Ok card, env')
    /\ if isCategory item "CreditCard"
          || isCategory item (ItemCategory.CreditCard categories)
       then
         match getFullItem remote sourceSDK vaultId item env with
         | (Ok (Some full), env1) =>
             card = setFields (Some (map Transcoder.creditCardField (fullFields full)))
                      (setCategory (ItemCategory.CreditCard categories) newItem)
             /\ env' = env1
         | (Ok None, env1) =>
             card = setCategory (ItemCategory.CreditCard categories) newItem
         | (Throw e, env1) =>
             card = setCategory (ItemCategory.CreditCard categories) newItem
             /\ env' = snd (logWarning (Some vaultId)
                              ("Credit card field processing failed for "
                                 ++ itemTitle item ++ ": " ++ message e) env1)
         end
       else card = newItem /\ env' = env.
Proof.
  unfold withCreditCard.
  destruct (isCategory item "CreditCard"
            || isCategory item (ItemCategory.CreditCard categories));
    [|exists newItem, env; repeat split].
  unfold tryCatch, bind.
  destruct (getFullItem remote sourceSDK vaultId item env) as [[[full|]|e] env1];
    eexists; eexists; (split; [reflexivity|]); repeat split.
Qed.

(** The steps that need nothing from outside keep the title and the vault. *)
Lemma pure_steps_keep_title (now : nat) (newItem : NewItem) :
  let built :=
    withWebsites anywhereOnWebsite item
      (withTags item (withFiles now item
         (withSections item (withOtherFields categories item newItem)))) in
  newTitle built = newTitle newItem /\ newVaultId built = newVaultId newItem
  /\ newCategory built = newCategory newItem
  /\ newNotes built = newNotes (withOtherFields categories item newItem)
  /\ newFields built = newFields (withOtherFields categories item newItem).
Proof.
  unfold withWebsites, withTags, withFiles, withSections, withOtherFields.
  split_ifs; repeat split.
Qed.

(** The run of [buildNewItem], step by step. *)
Lemma buildNewItem_run (env : Env World) :
  exists doc card envDoc env',
    withDocument remote categories sourceSDK vaultId item
      (withNotes categories item (initialNewItem categories destVaultId item)) env
    = (Ok doc, envDoc)
    /\ withCreditCard remote categories sourceSDK vaultId item
         (withSshKey categories item doc) envDoc
       = (Ok card, env')
    /\ buildNewItem remote categories anywhereOnWebsite sourceSDK vaultId destVaultId item env
       = (Ok (withWebsites anywhereOnWebsite item
                (withTags item
                   (withFiles (dateNow remote (world env')) item
                      (withSections item (withOtherFields categories item card))))),
          env').
Proof.
  unfold buildNewItem.
  destruct (withDocument_run
              (withNotes categories item (initialNewItem categories destVaultId item)) env)
    as (doc & envDoc & Hdoc & _).
  destruct (withCreditCard_run (withSshKey categories item doc) envDoc)
    as (card & env' & Hcard & _).
  exists doc, card, envDoc, env'. split; [exact Hdoc|]. split; [exact Hcard|].
  unfold bind at 1. rewrite Hdoc. unfold bind at 1. rewrite Hcard. reflexivity.
Qed.

(** X11.  Building the destination item never throws: a document that
    cannot be read and card fields that cannot be fetched only leave a
    warning in the log.  The item built has the title of the source item
    and the destination vault; so an item that does not go to the bridge
    fails only when its creation in the destination fails, with the
    error of that creation. *)
Theorem building_an_item_never_throws (env : Env World) :
  exists newItem env1,
    buildNewItem remote categories anywhereOnWebsite sourceSDK vaultId destVaultId item env
    = (Ok newItem, env1)
    /\ newTitle newItem = itemTitle item
    /\ newVaultId newItem = destVaultId
    /\ sendSdkItem remote categories anywhereOnWebsite vaultId destVaultId sourceSDK
         destSDK item env
       = match
           retryWithBackoff remote
             (client <- clientOf destSDK ;; call (itemsCreate remote client newItem)) env1
         with
         | (Ok _, env2) => (Ok tt, env2)
         | (Throw e, env2) => (Throw e, env2)
         end.
Proof.
  destruct (buildNewItem_run env) as (doc & card & envDoc & env' & Hdoc & Hcard & Hbuild).
  eexists. exists env'. split; [exact Hbuild|].
  destruct (pure_steps_keep_title (dateNow remote (world env')) card)
    as (Htitle & Hvault & _).
  assert (Hdoc' : newTitle doc = itemTitle item /\ newVaultId doc = destVaultId).
  { destruct (withDocument_run
                (withNotes categories item (initialNewItem categories destVaultId item)) env)
      as (doc' & envDoc' & Hrun & Hshape).
    rewrite Hdoc in Hrun. injection Hrun as <- <-.
    destruct Hshape as [->|[d ->]]; unfold withNotes; split_ifs; split; reflexivity. }
  assert (Hcard' : newTitle card = itemTitle item /\ newVaultId card = destVaultId).
  { destruct (withCreditCard_run (withSshKey categories item doc) envDoc)
      as (card' & env'' & Hrun & Hshape).
    rewrite Hcard in Hrun. injection Hrun as <- <-.
    destruct (isCategory item "CreditCard"
              || isCategory item (ItemCategory.CreditCard categories)).
    - destruct (getFullItem remote sourceSDK vaultId item envDoc) as [[[full|]|e] env1];
        [destruct Hshape as [-> _] | subst card | destruct Hshape as [-> _]];
        unfold withSshKey; split_ifs; exact Hdoc'.
    - destruct Hshape as [-> _]. unfold withSshKey; split_ifs; exact Hdoc'. }
  split; [rewrite Htitle; apply Hcard'|]. split; [rewrite Hvault; apply Hcard'|].
  unfold sendSdkItem. unfold bind at 1. rewrite Hbuild. unfold bind at 1.
  destruct (retryWithBackoff remote _ env') as [[r|e] env2]; reflexivity.
Qed.

(** X12.  The fields of a payment card come from the full item that is
    fetched for it, through the payment-card mapper; the fields that came
    with the listed item are not used.  When the full item cannot be
    fetched, the card is created with its category and without any field,
    and a warning is logged. *)
Theorem card_fields_come_from_the_full_item (env : Env World) :
  isCategory item "CreditCard" || isCategory item (ItemCategory.CreditCard categories)
  = true ->
  let envDoc :=
    snd (withDocument remote categories sourceSDK vaultId item
           (withNotes categories item (initialNewItem categories destVaultId item)) env) in
  exists newItem env1,
    buildNewItem remote categories anywhereOnWebsite sourceSDK vaultId destVaultId item env
    = (Ok newItem, env1)
    /\ newCategory newItem = ItemCategory.CreditCard categories
    /\ match getFullItem remote sourceSDK vaultId item envDoc with
       | (Ok (Some full), _) =>
           newFields newItem = Some (map Transcoder.creditCardField (fullFields full))
       | (Ok None, _) => newFields newItem = None
       | (Throw e, env2) =>
           newFields newItem = None
           /\ logger env1
              = Logger.log WARNING (Some vaultId)
                  ("Credit card field processing failed for " ++ itemTitle item ++ ": "
                     ++ message e) None (logger env2)
       end.
Proof.
  intros Hcard envDoc. subst envDoc.
  destruct (buildNewItem_run env) as (doc & card & envDoc & env' & Hdoc & Hrun & Hbuild).
  rewrite Hdoc. cbn [snd].
  eexists. exists env'. split; [exact Hbuild|].
  destruct (pure_steps_keep_title (dateNow remote (world env')) card)
    as (_ & _ & Hcategory & _ & Hfields).
  rewrite Hcategory, Hfields.
  destruct (withCreditCard_run (withSshKey categories item doc) envDoc)
    as (card' & env'' & Hrun' & Hshape).
  rewrite Hrun in Hrun'. injection Hrun' as <- <-. rewrite Hcard in Hshape.
  assert (Hfresh : newFields (withSshKey categories item doc) = None).
  { destruct (withDocument_run
                (withNotes categories item (initialNewItem categories destVaultId item)) env)
      as (doc' & envDoc' & Hrun' & Hdocshape).
    rewrite Hdoc in Hrun'. injection Hrun' as <- <-.
    destruct Hdocshape as [->|[d ->]]; unfold withSshKey, withNotes; split_ifs; reflexivity. }
  assert (Hother : forall n, newCategory n = ItemCategory.CreditCard categories ->
                     newFields (withOtherFields categories item n) = newFields n).
  { intros n Hn. unfold withOtherFields. rewrite Hn, String.eqb_refl, andb_false_r.
    split_ifs; reflexivity. }
  destruct (getFullItem remote sourceSDK vaultId item envDoc) as [[[full|]|e] env2].
  - destruct Hshape as [-> _]. split; [reflexivity|]. rewrite Hother by reflexivity.
    reflexivity.
  - subst card. split; [reflexivity|]. rewrite Hother by reflexivity. exact Hfresh.
  - destruct Hshape as [-> ->]. split; [reflexivity|].
    rewrite Hother by reflexivity. split; [exact Hfresh | reflexivity].
Qed.

(** X13.  A secure note is never created without notes: when the notes of
    the source item are blank, the destination gets "Migrated Secure
    Note", or the blank notes themselves when they are not empty and the
    item has no field. *)
Theorem secure_notes_have_notes (env : Env World) :
  isCategory item (ItemCategory.SecureNote categories) = true ->
  exists newItem env1 notes,
    buildNewItem remote categories anywhereOnWebsite sourceSDK vaultId destVaultId item env
    = (Ok newItem, env1)
    /\ newNotes newItem = Some notes
    /\ String.eqb notes "" = false
    /\ (notes = itemNotes item \/ notes = "Migrated Secure Note").
Proof.
  intros Hnote.
  destruct (buildNewItem_run env) as (doc & card & envDoc & env' & Hdoc & Hrun & Hbuild).
  destruct (pure_steps_keep_title (dateNow remote (world env')) card)
    as (_ & _ & _ & Hnotes & _).
  assert (Hstart : exists n, newNotes (withNotes categories item
                                         (initialNewItem categories destVaultId item))
                             = Some n
                             /\ String.eqb n "" = false
                             /\ (n = itemNotes item \/ n = "Migrated Secure Note")).
  { unfold withNotes. rewrite Hnote.
    destruct (String.eqb (itemNotes item) "") eqn:Hempty; cbn [negb andb].
    - exists "Migrated Secure Note". repeat split. right. reflexivity.
    - destruct (negb (String.eqb (Js.trim (itemNotes item)) "")).
      + exists (itemNotes item). repeat split; [exact Hempty | left; reflexivity].
      + exists "Migrated Secure Note". repeat split. right. reflexivity. }
  destruct Hstart as (n & Hn & Hne & Hor).
  assert (Hdocnotes : newNotes (withSshKey categories item doc) = Some n).
  { destruct (withDocument_run
                (withNotes categories item (initialNewItem categories destVaultId item)) env)
      as (doc' & envDoc' & Hrun' & Hshape).
    rewrite Hdoc in Hrun'. injection Hrun' as <- <-.
    destruct Hshape as [->|[d ->]]; unfold withSshKey; split_ifs; exact Hn. }
  assert (Hcardnotes : newNotes card = Some n).
  { destruct (withCreditCard_run (withSshKey categories item doc) envDoc)
      as (card' & env'' & Hrun' & Hshape).
    rewrite Hrun in Hrun'. injection Hrun' as <- <-.
    destruct (isCategory item "CreditCard"
              || isCategory item (ItemCategory.CreditCard categories)).
    - destruct (getFullItem remote sourceSDK vaultId item envDoc) as [[[full|]|e] env1];
        [destruct Hshape as [-> _] | subst card | destruct Hshape as [-> _]];
        exact Hdocnotes.
    - destruct Hshape as [-> _]. exact Hdocnotes. }
  eexists. exists env'.
  assert (Hfinal : exists notes,
             newNotes (withOtherFields categories item card) = Some notes
             /\ String.eqb notes "" = false
             /\ (notes = itemNotes item \/ notes = "Migrated Secure Note")).
  { unfold withOtherFields. rewrite Hnote.
    destruct ((0 <? length (itemFields item))
              && negb (String.eqb (newCategory card) (ItemCategory.CreditCard categories))).
    - exists n. repeat split; assumption.
    - exists (Js.orStr (itemNotes item) "Migrated Secure Note").
      split; [reflexivity|]. split; [apply orStr_default; reflexivity|].
      unfold Js.orStr. destruct (String.eqb (itemNotes item) ""); [right | left]; reflexivity. }
  destruct Hfinal as (notes & Hfinal & Hnonempty & Hwhich).
  exists notes. split; [exact Hbuild|]. rewrite Hnotes. repeat split; assumption.
Qed.

End BuildFacts.

(** ** A vault from its first item to its statistics *)

Section VaultFacts.
Context {World Client : Type}.
Variable remote : Remote World Client.
Variable categories : ItemCategory.t.
Variable anywhereOnWebsite : string.
Variables vaultId vaultName sourceToken destToken : string.
Variables sourceSDK destSDK : OnePasswordSDK Client.
Variable isCancelled : M (Env World) bool.
Variable customTemplateId : option string.

Local Abbreviation Run := (Env World * Frame)%type.

Lemma processed_when_never_cancelled (destVaultId : string) (total : nat)
    (items : list Item) :
  (forall env, exists env', isCancelled env = (Ok false, env')) ->
  forall s : Run,
    exists sk,
      processed remote categories anywhereOnWebsite vaultId vaultName sourceToken destToken
        sourceSDK destSDK isCancelled customTemplateId destVaultId total items s = Some sk.
Proof.
  intros Hdown. induction items as [|item items IH]; intros s; [exists s; reflexivity|].
  cbn [processed]. destruct s as [env fr]. unfold inEnv. rewrite lift_run.
  destruct (Hdown env) as [env' ->]. cbn [fst snd]. apply IH.
Qed.

(** X14.  When no cancellation is seen, a vault that could be opened is
    migrated to the end, whatever fails on the way: [migrateVault]
    returns, with one result for each listed item, in the order of the
    list; every item is counted once, as migrated or as failed; the
    destination is counted and the log entry says [completed]. *)
Theorem every_item_gets_its_result (s0 s1 : Run) (sourceCount : nat)
    (destVaultId : string) (items : list Item) :
  (forall env, exists env', isCancelled env = (Ok false, env')) ->
  openVault remote vaultId vaultName sourceToken destToken sourceSDK
    (snd (startVault vaultId vaultName s0))
  = (Ok (sourceCount, destVaultId, items), s1) ->
  exists result s' destCount,
    migrateVault remote categories anywhereOnWebsite vaultId vaultName sourceToken
      destToken sourceSDK destSDK isCancelled customTemplateId s0
    = (Ok result, s')
    /\ map resultId (vaultResults result) = map itemId items
    /\ vaultSuccessCount result + vaultFailureCount result = length items
    /\ itemsLength result = length items
    /\ sourceItemCount result = sourceCount
    /\ destItemCount result = Some destCount
    /\ status (logEntry (snd s')) = Completed.
Proof.
  intros Hdown Hopen.
  assert (Hfresh : untouched (snd s1)).
  { pose proof (openVault_keeps_untouched remote vaultId vaultName sourceToken destToken
                  sourceSDK (snd (startVault vaultId vaultName s0))) as H.
    unfold onFrame in H. rewrite Hopen in H. apply H. repeat split. }
  destruct (processed_when_never_cancelled destVaultId (length items) items Hdown s1)
    as [sk Hsk].
  pose proof (processed_results remote categories anywhereOnWebsite vaultId vaultName
                sourceToken destToken sourceSDK destSDK isCancelled customTemplateId
                destVaultId _ items s1 sk Hsk) as Hids.
  rewrite (proj1 Hfresh) in Hids. cbn [map app] in Hids.
  pose proof (migrateItems_processed remote categories anywhereOnWebsite vaultId vaultName
                sourceToken destToken sourceSDK destSDK isCancelled customTemplateId
                destVaultId (length items) sourceCount
                (finishVault remote vaultId vaultName destToken destVaultId (length items)
                   sourceCount)
                items [] s1 sk Hsk) as Hloop.
  rewrite app_nil_r in Hloop. cbn [migrateItems] in Hloop.
  pose proof (migrateItems_ends remote categories anywhereOnWebsite vaultId vaultName
                sourceToken destToken sourceSDK destSDK isCancelled customTemplateId
                destVaultId (length items) sourceCount items s1
                (untouched_counts _ Hfresh)) as Hends.
  rewrite Hloop in Hends.
  destruct sk as [envk frk].
  destruct (finishVault_run remote vaultId vaultName destToken destVaultId (length items)
              sourceCount envk frk) as (destCount & env' & _ & Hfinish).
  rewrite Hfinish in Hloop, Hends. destruct Hends as (_ & [Hsum Hlen] & _).
  cbn [snd setLogEntry successCount failureCount processedItems migrationResults]
    in Hsum, Hlen, Hids.
  eexists. eexists. exists destCount. split.
  { unfold migrateVault. unfold bind at 1.
    destruct (startVault_run vaultId vaultName s0) as [Hstart _]. rewrite Hstart.
    unfold tryCatch, bind. rewrite Hopen, Hloop. reflexivity. }
  cbn. repeat split; try assumption.
  rewrite Hsum, <- Hlen, <- (length_map resultId), Hids. apply length_map.
Qed.

(** Opening a vault, case by case. *)
Lemma openVault_run (env : Env World) (fr : Frame) :
  openVault remote vaultId vaultName sourceToken destToken sourceSDK (env, fr)
  = match getVaultItemCount remote vaultId sourceToken env with
    | (Throw e, env1) => (Throw e, (env1, fr))
    | (Ok sourceCount, env1) =>
        let env2 :=
          snd (logInfo (Some vaultId) ("Source item count: " ++ Js.showNat sourceCount)
                 env1) in
        let fr2 := setLogEntry (setEntrySourceItemCount sourceCount (logEntry fr)) fr in
        match opVaultCreate remote destToken vaultName (world env2) with
        | (Throw e, w) =>
            (Throw {| message := "Vault creation failed: " ++ message e |},
             (snd (logError (Some vaultId)
                     ("Failed to create destination vault: " ++ message e)
                     {| world := w; logger := logger env2 |}),
              fr2))
        | (Ok created, w) =>
            let env3 :=
              snd (logInfo (Some vaultId) ("Created destination vault " ++ created)
                     {| world := w; logger := logger env2 |}) in
            let fr3 := setLogEntry (setEntryNewVaultId created (logEntry fr2)) fr2 in
            match listItems remote sourceSDK vaultId env3 with
            | (Throw e, env4) =>
                (Throw {| message := "Item listing failed: " ++ message e |},
                 (snd (logError (Some vaultId) ("Failed to list items: " ++ message e) env4),
                  fr3))
            | (Ok items, env4) =>
                (Ok (sourceCount, created, items),
                 (snd (logInfo (Some vaultId)
                         ("Found " ++ Js.showNat (length items) ++ " items to migrate")
                         env4),
                  fr3))
            end
        end
    end.
Proof.
  cbv beta iota zeta delta
    [openVault bind tryCatch inEnv lift call updateLogEntry updateFrame modify logInfo
     logError logAt ret throw listItems fst snd world logger].
  destruct (getVaultItemCount remote vaultId sourceToken env) as [[sourceCount|e] env1];
    [|reflexivity].
  destruct env1 as [w1 lm1].
  destruct (opVaultCreate remote destToken vaultName w1) as [[created|e] w];
    [|reflexivity].
  destruct (listVaultItems remote sourceSDK vaultId w) as [[[items|e] records] w'];
    reflexivity.
Qed.

(** When opening fails, so does the vault. *)
Lemma migrateVault_not_opened (s0 s1 : Run) (e : JsError) :
  openVault remote vaultId vaultName sourceToken destToken sourceSDK
    (snd (startVault vaultId vaultName s0)) = (Throw e, s1) ->
  migrateVault remote categories anywhereOnWebsite vaultId vaultName sourceToken
    destToken sourceSDK destSDK isCancelled customTemplateId s0
  = (Throw e,
     (snd (logError (Some vaultId) ("Vault migration failed: " ++ message e) (fst s1)),
      setLogEntry (pushEntryError ("Vault migration: " ++ message e)
                     (setStatus Failed (logEntry (snd s1)))) (snd s1))).
Proof.
  intros Hopen. unfold migrateVault. unfold bind at 1.
  destruct (startVault_run vaultId vaultName s0) as [Hstart _]. rewrite Hstart.
  unfold tryCatch. unfold bind at 1. rewrite Hopen. destruct s1 as [env1 fr1]. reflexivity.
Qed.

(** X15.  For a vault id that names no member of [Object.prototype]:
    when the destination refuses to create the vault, [migrateVault]
    throws "Vault creation failed: ..." with the message of the refusal,
    and does nothing more in the world: no item is listed or created.
    The log entry says [failed], has the error and no new vault id; no
    item result is recorded. *)
Theorem vault_creation_failure_fails_the_vault (s0 : Run) (e : JsError) (w : World) :
  Js.namesInherited vaultId = false ->
  let counted :=
    getVaultItemCount remote vaultId sourceToken
      (fst (snd (startVault vaultId vaultName s0))) in
  opVaultCreate remote destToken vaultName (world (snd counted)) = (Throw e, w) ->
  let run :=
    migrateVault remote categories anywhereOnWebsite vaultId vaultName sourceToken
      destToken sourceSDK destSDK isCancelled customTemplateId s0 in
  fst run = Throw {| message := "Vault creation failed: " ++ message e |}
  /\ world (fst (snd run)) = w
  /\ status (logEntry (snd (snd run))) = Failed
  /\ entryErrors (logEntry (snd (snd run)))
     = [("Vault migration: Vault creation failed: " ++ message e)%string]
  /\ entryNewVaultId (logEntry (snd (snd run))) = None
  /\ migrationResults (snd (snd run)) = [].
Proof.
  intros _ counted Hcreate run. subst run counted.
  pose proof (proj2 (startVault_run vaultId vaultName s0)) as Hframe.
  destruct (snd (startVault vaultId vaultName s0)) as [env1 fr1] eqn:Hstarted.
  cbn [fst snd] in Hcreate, Hframe. subst fr1.
  pose proof (openVault_run env1 initialFrame) as Hopen.
  destruct (getVaultItemCount_ok remote vaultId sourceToken env1) as [n Hn].
  destruct (getVaultItemCount remote vaultId sourceToken env1) as [r envc].
  cbn [fst snd] in Hn, Hcreate. subst r. cbv zeta in Hopen.
  cbn [logInfo logAt modify snd world] in Hopen. rewrite Hcreate in Hopen.
  rewrite <- Hstarted in Hopen.
  rewrite (migrateVault_not_opened _ _ _ Hopen). cbn. repeat split.
Qed.

(** X16.  For a vault id that names no member of [Object.prototype]:
    when the items of the source vault cannot be listed, [migrateVault]
    throws "Item listing failed: ..." with the message of the failure.
    The destination vault has been created by then, and stays: the log
    entry has its id, says [failed], and no item result is recorded. *)
Theorem listing_failure_fails_the_vault (s0 : Run) (created : string) (e : JsError)
    (records : list LogRecord) (w1 w2 : World) :
  Js.namesInherited vaultId = false ->
  let counted :=
    getVaultItemCount remote vaultId sourceToken
      (fst (snd (startVault vaultId vaultName s0))) in
  opVaultCreate remote destToken vaultName (world (snd counted)) = (Ok created, w1) ->
  listVaultItems remote sourceSDK vaultId w1 = ((Throw e, records), w2) ->
  let run :=
    migrateVault remote categories anywhereOnWebsite vaultId vaultName sourceToken
      destToken sourceSDK destSDK isCancelled customTemplateId s0 in
  fst run = Throw {| message := "Item listing failed: " ++ message e |}
  /\ world (fst (snd run)) = w2
  /\ status (logEntry (snd (snd run))) = Failed
  /\ entryErrors (logEntry (snd (snd run)))
     = [("Vault migration: Item listing failed: " ++ message e)%string]
  /\ entryNewVaultId (logEntry (snd (snd run))) = Some created
  /\ migrationResults (snd (snd run)) = [].
Proof.
  intros _ counted Hcreate Hlist run. subst run counted.
  pose proof (proj2 (startVault_run vaultId vaultName s0)) as Hframe.
  destruct (snd (startVault vaultId vaultName s0)) as [env1 fr1] eqn:Hstarted.
  cbn [fst snd] in Hcreate, Hframe. subst fr1.
  pose proof (openVault_run env1 initialFrame) as Hopen.
  destruct (getVaultItemCount_ok remote vaultId sourceToken env1) as [n Hn].
  destruct (getVaultItemCount remote vaultId sourceToken env1) as [r envc].
  cbn [fst snd] in Hn, Hcreate. subst r. cbv zeta in Hopen.
  cbn [logInfo logAt modify snd world] in Hopen. rewrite Hcreate in Hopen.
  unfold listItems in Hopen. cbn [world] in Hopen. rewrite Hlist in Hopen.
  rewrite <- Hstarted in Hopen.
  rewrite (migrateVault_not_opened _ _ _ Hopen). cbn. repeat split.
Qed.

End VaultFacts.

(** ** The item count, for the vault ids that can be logged *)

Section ItemCountFacts.
Context {World Client : Type}.
Variable remote : Remote World Client.

(** X23.  For a vault id that names no member of [Object.prototype],
    [getVaultItemCount] never throws: whatever the world does, it returns
    a number.  When the client starts and the active items are listed,
    the number is how many active items were listed, whether the archived
    items can be listed or not; a failure to list the archived items adds
    one warning to the log and nothing else.  When the active items
    cannot be listed, or the client cannot start, the number is 0. *)
Theorem item_count_never_raises_for_other_ids (vaultId token : string) (s : Env World) :
  Js.namesInherited vaultId = false ->
  let run := AnyVaultId.getVaultItemCount remote vaultId token s in
  (exists n, fst run = Ok n)
  /\ (forall client s1 items s2,
        initializeClient remote token s = (Ok client, s1) ->
        call (itemsList remote client vaultId ActiveItems) s1 = (Ok items, s2) ->
        fst run = Ok (length items)
        /\ (forall e s3,
              call (itemsList remote client vaultId ArchivedItems) s2 = (Throw e, s3) ->
              snd run
              = {| world := world s3;
                   logger := Logger.log WARNING (Some vaultId)
                               ("Could not fetch archived items: " ++ message e)
                               None (logger s3) |}))
  /\ (forall client s1 e s2,
        initializeClient remote token s = (Ok client, s1) ->
        call (itemsList remote client vaultId ActiveItems) s1 = (Throw e, s2) ->
        fst run = Ok 0)
  /\ (forall e s1,
        initializeClient remote token s = (Throw e, s1) ->
        fst run = Ok 0).
Proof.
  intros Hid run. subst run. rewrite (getVaultItemCount_any_id remote vaultId token s Hid).
  rewrite getVaultItemCount_run.
  destruct (initializeClient remote token s) as [[client|e0] s1] eqn:Hinit.
  - destruct (call (itemsList remote client vaultId ActiveItems) s1)
      as [[items|e1] s2] eqn:Hactive.
    + destruct (call (itemsList remote client vaultId ArchivedItems) s2)
        as [[archived|e2] s3] eqn:Harchived; cbn [fst snd];
        (split; [eexists; reflexivity|]);
        (split; [|split; intros; congruence]);
        intros c' s1' items' s2' H1 H2;
        injection H1 as <- <-; rewrite Hactive in H2; injection H2 as <- <-;
        (split; [reflexivity|]);
        intros e s3' H3; rewrite Harchived in H3.
      * discriminate H3.
      * injection H3 as <- <-. reflexivity.
    + cbn [fst snd]. split; [eexists; reflexivity|].
      split; [|split; [|intros; congruence]].
      * intros c' s1' items' s2' H1 H2.
        injection H1 as <- <-. rewrite Hactive in H2. discriminate H2.
      * intros; reflexivity.
  - cbn [fst snd]. split; [eexists; reflexivity|].
    split; [|split; [|intros; reflexivity]]; intros; congruence.
Qed.

End ItemCountFacts.

(** ** The end of a vault, the answer of the route, the temporary file *)

Section FinishFacts.
Context {World Client : Type}.
Variable remote : Remote World Client.
Variable categories : ItemCategory.t.
Variable anywhereOnWebsite : string.

Local Abbreviation Run := (Env World * Frame)%type.

(** What a step keeps of the log: a property of the vault statistics. *)
Lemma keeps_call {A} (P : LogManager -> Prop) (op : World -> Result A * World) :
  Preserves (fun env : Env World => P (logger env)) (call op).
Proof. intros env H. unfold call. destruct (op (world env)). exact H. Qed.

Lemma keeps_logAt (P : LogManager -> Prop) (lv : Level) (vault : option string)
    (msg : string) (item : option string) :
  (forall lm, P lm -> P (Logger.log lv vault msg item lm)) ->
  Preserves (fun env : Env World => P (logger env)) (logAt lv vault msg item).
Proof. intros Hlog env H. apply Hlog, H. Qed.

Lemma getVaultItemCount_keeps_summaries (vault token : string) (env : Env World) :
  vaultSummaries (logger (snd (getVaultItemCount remote vault token env)))
  = vaultSummaries (logger env).
Proof.
  pose (P := fun lm : LogManager => vaultSummaries lm = vaultSummaries (logger env)).
  assert (Hlog : forall lv v msg item,
             Preserves (fun e : Env World => P (logger e)) (logAt lv v msg item)).
  { intros. apply keeps_logAt. intros lm H. exact H. }
  assert (H : Preserves (fun e : Env World => P (logger e))
                (getVaultItemCount remote vault token)).
  { unfold getVaultItemCount, initializeClient, logInfo, logWarning, logError.
    repeat first
      [ match goal with |- forall _, _ => intro end
      | match goal with |- Preserves _ (if ?c then _ else _) => destruct c end
      | apply preserves_bind
      | apply preserves_tryCatch
      | apply keeps_call
      | apply Hlog
      | apply preserves_ret
      | apply preserves_throw ]. }
  apply (H env). reflexivity.
Qed.

(** X17.  The statistics [migrateVault] stores for the report of a vault
    are those of the result it returns: the name, the two item counts, the
    successes and the failures.  The report marks the vault as fully
    migrated exactly when the routes answer [success: true] for the
    result, and the last line the vault logs is an information in that
    case and a warning otherwise. *)
Theorem finished_vault_is_summarised (vaultId vaultName destToken destVaultId : string)
    (total sourceCount : nat) (env : Env World) (fr : Frame) :
  let run :=
    finishVault remote vaultId vaultName destToken destVaultId total sourceCount
      (env, fr) in
  exists result stats earlier line,
    fst run = Ok result
    /\ vaultSummaries (logger (fst (snd run)))
       = vaultSummaries (logger env) ++ [(vaultId, stats)]
    /\ statsVaultName stats = vaultName
    /\ statsSourceItemCount stats = sourceItemCount result
    /\ Some (statsDestItemCount stats) = destItemCount result
    /\ statsSuccessCount stats = vaultSuccessCount result
    /\ statsFailureCount stats = vaultFailureCount result
    /\ (forall vault,
          outcomeSuccess (outcomeOf vault result) = LogManagerOps.fullyMigrated stats)
    /\ (forall name (s : Run),
          match respond vaultId name result s with
          | (Ok response, _) => httpSuccess response = LogManagerOps.fullyMigrated stats
          | (Throw _, _) => False
          end)
    /\ globalLog (logger (fst (snd run))) = earlier ++ [line]
    /\ level line = (if LogManagerOps.fullyMigrated stats then INFO else WARNING)
    /\ logVaultId line = Some vaultId.
Proof.
  intros run. subst run.
  pose proof (getVaultItemCount_keeps_summaries destVaultId destToken env) as Hkeep.
  destruct (getVaultItemCount_ok remote destVaultId destToken env) as [destCount Hcount].
  unfold finishVault, bind, inEnv. rewrite lift_run, Hcount. cbn [fst snd].
  unfold readFrame, updateLogEntry, updateFrame, logInfo, logWarning, logAt, modify,
    gets, ret, lift. cbn [fst snd].
  destruct (getVaultItemCount remote destVaultId destToken env) as [r env1].
  cbn [fst snd] in *. clear Hcount r.
  assert (Hmark : forall failed,
             (failed =? 0) && negb (negb (sourceCount =? destCount))
             = (failed =? 0) && (sourceCount =? destCount)).
  { intros failed. rewrite negb_involutive. reflexivity. }
  assert (Hanswer : forall failed,
             negb ((0 <? failed) || negb (sourceCount =? destCount))
             = (failed =? 0) && (sourceCount =? destCount)).
  { intros failed. destruct failed; cbn; [|reflexivity].
    rewrite negb_involutive. reflexivity. }
  exists {| itemsLength := total;
            vaultResults := migrationResults fr;
            sourceItemCount := sourceCount;
            destItemCount := Some destCount;
            vaultSuccessCount := successCount fr;
            vaultFailureCount := failureCount fr |}.
  exists {| statsVaultName := vaultName;
            statsSourceItemCount := sourceCount;
            statsDestItemCount := destCount;
            statsSuccessCount := successCount fr;
            statsFailureCount := failureCount fr |}.
  unfold LogManagerOps.fullyMigrated.
  cbn [statsFailureCount statsSourceItemCount statsDestItemCount].
  rewrite (andb_comm (failureCount fr =? 0)).
  destruct ((sourceCount =? destCount) && (failureCount fr =? 0)) eqn:Htest;
    cbn [fst snd world logger Logger.log Logger.logVaultComplete globalLog vaultSummaries];
    eexists; eexists;
    (split; [reflexivity|]);
    (split; [rewrite Hkeep; reflexivity|]);
    (split; [reflexivity|]); (split; [reflexivity|]); (split; [reflexivity|]);
    (split; [reflexivity|]); (split; [reflexivity|]);
    (split; [intros vault; unfold outcomeOf, outcomeSuccess, differs;
             cbn [vaultFailureCount sourceItemCount destItemCount];
             rewrite Hmark, andb_comm; exact Htest|]);
    (split; [intros name [env2 fr2]; unfold respond, differs;
             cbn [vaultFailureCount sourceItemCount destItemCount];
             pose proof (Hanswer (failureCount fr)) as Ha;
             rewrite andb_comm, Htest in Ha;
             destruct ((0 <? failureCount fr) || negb (sourceCount =? destCount));
             cbn in Ha |- *; congruence|]);
    (split; [reflexivity|]); split; reflexivity.
Qed.

(** X18.  For a vault id that names no member of [Object.prototype],
    [POST /migration/migrate-vault] always answers: whatever the world
    does, the handler returns a response and does not throw.  With a
    parameter missing the answer is 400, and nothing was asked of the
    world and no variable of a migration was touched; otherwise it is 200
    or 500.  An answer carries statistics exactly when it is a 200; any
    other answer says [success: false] and has no results. *)
Theorem single_vault_route_always_answers
    (vaultId vaultName sourceToken destToken : string)
    (customTemplateId : option string) (s : Run) :
  Js.namesInherited vaultId = false ->
  let missing :=
    String.eqb vaultId "" || String.eqb vaultName ""
    || String.eqb sourceToken "" || String.eqb destToken "" in
  exists response s',
    migrateVaultRoute remote categories anywhereOnWebsite vaultId vaultName sourceToken
      destToken customTemplateId s = (Ok response, s')
    /\ (if missing then
          httpStatus response = 400 /\ world (fst s') = world (fst s) /\ snd s' = snd s
        else httpStatus response = 200 \/ httpStatus response = 500)
    /\ match httpStats response with
       | Some _ => httpStatus response = 200
       | None =>
           httpStatus response <> 200 /\ httpSuccess response = false
           /\ httpResults response = []
       end.
Proof.
  intros _ missing. subst missing. unfold migrateVaultRoute. destruct s as [env fr].
  destruct (String.eqb vaultId "" || String.eqb vaultName ""
            || String.eqb sourceToken "" || String.eqb destToken "").
  { unfold bind, inEnv. rewrite lift_run. cbn.
    eexists; eexists. split; [reflexivity|]. cbn. repeat split. discriminate. }
  unfold tryCatch, bind, inEnv. rewrite lift_run.
  destruct (newSDK remote sourceToken env) as [[sourceSDK|e] env1]; cbn [fst snd].
  2:{ rewrite lift_run. cbn. eexists; eexists. split; [reflexivity|]. cbn.
      split; [right; reflexivity|]. repeat split. discriminate. }
  rewrite lift_run.
  destruct (newSDK remote destToken env1) as [[destSDK|e] env2]; cbn [fst snd].
  2:{ rewrite lift_run. cbn. eexists; eexists. split; [reflexivity|]. cbn.
      split; [right; reflexivity|]. repeat split. discriminate. }
  destruct (migrateVault remote categories anywhereOnWebsite vaultId vaultName
              sourceToken destToken sourceSDK destSDK (readCancelled remote)
              customTemplateId (env2, fr)) as [[result|e] [env3 fr3]].
  2:{ rewrite lift_run. cbn. eexists; eexists. split; [reflexivity|]. cbn.
      split; [right; reflexivity|]. repeat split. discriminate. }
  destruct (respond_run vaultId vaultName result (env3, fr3))
    as (response & env' & Hrespond & Hstatus & _ & _ & Hstats & _).
  rewrite Hrespond. exists response. eexists. split; [reflexivity|].
  split; [left; exact Hstatus|]. rewrite Hstats. exact Hstatus.
Qed.

End FinishFacts.

Section BridgeFacts.
Context {World Client : Type}.
Variable remote : Remote World Client.

(** X19.  For a vault id that names no member of [Object.prototype]:
    once the bridge has written its temporary file, it removes the file
    whether the item was created or not, and the removal decides nothing:
    the bridge returns when [op item create] succeeded and throws the
    error of [op item create] when it failed, also when the file could
    not be removed, which only adds a warning to the log.  With a
    template id supplied (one that is not blanks only), the world is
    asked for four things in order and nothing else: the source item, the
    file, the creation, the removal. *)
Theorem temp_file_is_always_removed (item : Item)
    (sourceToken destToken sourceVaultId destVaultId vaultId templateId : string)
    (env : Env World) (sourceItem : RawItem) (fields : list RawField)
    (w1 w2 w3 w4 : World) (created : Result string) (removed : Result unit) :
  Js.namesInherited vaultId = false ->
  let tmpFile :=
    ("/tmp/op-custom-item-" ++ itemId item ++ "-" ++ Js.showNat (dateNow remote w1)
       ++ ".json")%string in
  let prepared :=
    prepareRawItem (Some (Js.trim (Js.orOpt (Some templateId) ""))) destVaultId
      sourceItem in
  templateIdGiven (Some templateId) = true ->
  opItemGet remote sourceToken (itemId item) sourceVaultId (world env)
  = (Ok sourceItem, w1) ->
  rawFields sourceItem = Some fields ->
  writeFileSync remote tmpFile prepared w1 = (Ok tt, w2) ->
  opItemCreate remote destToken destVaultId tmpFile w2 = (created, w3) ->
  unlinkSync remote tmpFile w3 = (removed, w4) ->
  let run :=
    createCustomItemViaCLI remote item sourceToken destToken sourceVaultId destVaultId
      vaultId (Some templateId) env in
  fst run = match created with
            | Ok _ => Ok tt
            | Throw e => Throw e
            end
  /\ world (snd run) = w4
  /\ warningCount (logger (snd run))
     = warningCount (logger env) + match removed with
                                   | Ok _ => 0
                                   | Throw _ => 1
                                   end
  /\ errorCount (logger (snd run))
     = errorCount (logger env) + match created with
                                 | Ok _ => 0
                                 | Throw _ => 1
                                 end.
Proof.
  intros _ tmpFile prepared Hgiven Hget Hfields Hwrite Hcreate Hremove run.
  subst run tmpFile prepared. destruct env as [w0 lm0]. cbn [world logger] in *.
  unfold createCustomItemViaCLI. rewrite Hgiven.
  cbv beta iota zeta delta
    [bind tryCatch tryFinally call logInfo logWarning logError logAt modify gets ret
     throw typeError fst snd world logger].
  rewrite Hget, Hfields. cbv beta iota zeta. rewrite Hwrite. cbv beta iota zeta.
  rewrite Hcreate.
  destruct created as [id|e]; cbv beta iota zeta; rewrite Hremove;
    destruct removed as [[]|e']; cbn; repeat split; lia.
Qed.

End BridgeFacts.

(** ** The bulk run and its event stream *)

Section ProgressFacts.
Context {World Client R : Type}.
Variable remote : Remote World Client.
Variable categories : ItemCategory.t.
Variable anywhereOnWebsite : string.
Variables vaultId vaultName sourceToken destToken : string.
Variables sourceSDK destSDK : OnePasswordSDK Client.
Variable isCancelled : M (Env World) bool.
Variable customTemplateId : option string.
Variable onProgress : nat -> nat -> nat -> nat -> M ((Env World * Frame) * R) unit.
Variable Q : R -> Prop.

Local Abbreviation Run := (Env World * Frame)%type.
Local Abbreviation keepsQ m := (Preserves (fun st : Run * R => Q (snd st)) m).

(** What every call of the callback keeps, the whole procedure keeps. *)
Hypothesis onProgress_keeps :
  forall processed total succeeded failed,
    keepsQ (onProgress processed total succeeded failed).

Lemma sendProgress_keeps (total : nat) : keepsQ (sendProgress onProgress total).
Proof.
  unfold sendProgress. apply preserves_bind; [apply preserves_lift_snd|].
  intros fr. destruct ((processedItems fr mod 3 =? 0) || (processedItems fr =? total)).
  - apply onProgress_keeps.
  - apply preserves_ret.
Qed.

Lemma migrateItemsWithProgress_keeps (destVaultId : string) (total sourceCount : nat)
    (afterLoop : M (Run * R) VaultResult) (items : list Item) :
  keepsQ afterLoop ->
  keepsQ
    (migrateItemsWithProgress remote categories anywhereOnWebsite vaultId vaultName
       sourceToken destToken sourceSDK destSDK isCancelled customTemplateId
       onProgress destVaultId total sourceCount afterLoop items).
Proof.
  intros Hafter. induction items as [|item rest IH]; [exact Hafter|].
  cbn [migrateItemsWithProgress].
  apply preserves_bind; [apply preserves_lift_snd|].
  intros [|]; [apply preserves_lift_snd|].
  apply preserves_bind; [|intros _; exact IH].
  apply preserves_tryCatch.
  - unfold migrateItemWithProgress. apply preserves_bind; [apply preserves_lift_snd|].
    intros _. destruct (isCustomItem categories item);
      (apply preserves_bind; [apply preserves_lift_snd|intros _; apply sendProgress_keeps]).
  - intros e. unfold failItemWithProgress.
    apply preserves_bind; [apply preserves_lift_snd|intros _; apply sendProgress_keeps].
Qed.

Lemma migrateVaultWithProgress_keeps :
  keepsQ
    (migrateVaultWithProgress remote categories anywhereOnWebsite vaultId vaultName
       sourceToken destToken sourceSDK destSDK isCancelled customTemplateId onProgress).
Proof.
  unfold migrateVaultWithProgress.
  apply preserves_bind; [apply preserves_lift_snd|]. intros _.
  apply preserves_tryCatch.
  - apply preserves_bind; [apply preserves_lift_snd|].
    intros [[sourceCount destVaultId] items].
    apply migrateItemsWithProgress_keeps. apply preserves_lift_snd.
  - intros e. apply preserves_lift_snd.
Qed.

End ProgressFacts.

Section StreamFacts.
Context {World Client : Type}.
Variable remote : Remote World Client.
Variable categories : ItemCategory.t.
Variable anywhereOnWebsite : string.
Variables sourceToken destToken : string.
Variables sourceSDK destSDK : OnePasswordSDK Client.
Variable customTemplateId : option string.

Local Abbreviation Run := (Env World * Frame)%type.
Local Abbreviation Stream := (Run * list SseEvent)%type.
Local Abbreviation goOn := (forallb (fun e => negb (isTerminal e))).

Lemma reportedOutcomes_app (a b : list SseEvent) :
  reportedOutcomes (a ++ b) = reportedOutcomes a ++ reportedOutcomes b.
Proof. apply flat_map_app. Qed.

Lemma progress_reports_nothing (events : list SseEvent) :
  forallb isProgress events = true ->
  reportedOutcomes events = [] /\ goOn events = true.
Proof.
  induction events as [|e rest IH]; [split; reflexivity|].
  cbn [forallb]. intros H. apply andb_true_iff in H as [He Hrest].
  destruct (IH Hrest) as [IH1 IH2].
  destruct e; try discriminate He. cbn. rewrite IH2. split; [exact IH1 | reflexivity].
Qed.

Lemma inServer_run {A} (m : M (Env World) A) (st : Stream) :
  inServer m st
  = (fst (m (fst (fst st))), ((snd (m (fst (fst st))), snd (fst st)), snd st)).
Proof.
  destruct st as [[env fr] events]. unfold inServer, inEnv. rewrite !lift_run.
  reflexivity.
Qed.

(** One vault of a bulk run ends in an outcome, of that vault; what it
    adds to the stream are progress events. *)
Lemma migrateOneVault_run (vault : VaultRef) (completedVaults totalVaults : nat)
    (st : Stream) :
  exists outcome st' more,
    migrateOneVault remote categories anywhereOnWebsite sourceToken destToken
      sourceSDK destSDK customTemplateId vault completedVaults totalVaults st
    = (Ok outcome, st')
    /\ snd st' = snd st ++ more
    /\ forallb isProgress more = true
    /\ outcomeVaultId outcome = vaultRefId vault.
Proof.
  unfold migrateOneVault, tryCatch, bind.
  pose proof (migrateVaultWithProgress_keeps remote categories anywhereOnWebsite
                (vaultRefId vault) (vaultRefName vault ++ " (Migrated)") sourceToken
                destToken sourceSDK destSDK (readCancelled remote) customTemplateId
                (progressCallback vault completedVaults totalVaults)
                (fun events => exists more,
                     events = snd st ++ more /\ forallb isProgress more = true))
    as Hkeeps.
  assert (Hcallback : forall processed total succeeded failed,
             Preserves
               (fun s : Run * list SseEvent =>
                  exists more, snd s = snd st ++ more /\ forallb isProgress more = true)
               (progressCallback vault completedVaults totalVaults processed total
                  succeeded failed)).
  { intros processed total succeeded failed s (more & Hs & Hmore).
    unfold progressCallback, write, modify. cbn [fst snd].
    eexists (more ++ [_]). rewrite Hs, app_assoc. split; [reflexivity|].
    rewrite forallb_app, Hmore. reflexivity. }
  specialize (Hkeeps Hcallback st).
  destruct Hkeeps as (more & Hs & Hmore).
  { exists []. rewrite app_nil_r. split; reflexivity. }
  destruct (migrateVaultWithProgress _ _ _ _ _ _ _ _ _ _ _ _ st) as [[result|e] st1];
    cbn [fst snd] in Hs |- *.
  - exists (outcomeOf vault result), st1, more. repeat split; assumption.
  - rewrite inServer_run. cbn [fst snd ret].
    eexists; eexists; exists more. split; [reflexivity|]. cbn [snd].
    repeat split; assumption.
Qed.

(** The loop over the vaults, from any point on: it ends, with every
    vault done or with the cancellation event. *)
Lemma migrateVaults_run (totalVaults : nat) (vaults : list VaultRef) :
  forall (completedVaults : nat) (migrated : list Outcome) (st : Stream),
  exists finished st' body,
    migrateVaults remote categories anywhereOnWebsite sourceToken destToken sourceSDK
      destSDK customTemplateId totalVaults completedVaults migrated vaults st
    = (Ok finished, st')
    /\ goOn body = true
    /\ match finished with
       | Some outcomes =>
           snd st' = snd st ++ body
           /\ outcomes = migrated ++ reportedOutcomes body
           /\ map outcomeVaultId (reportedOutcomes body) = map vaultRefId vaults
       | None =>
           snd st' = snd st ++ body ++ [CancelledByUser (migrated ++ reportedOutcomes body)]
           /\ isMigrationCancelled remote (world (fst (fst st'))) = true
           /\ length (reportedOutcomes body) < length vaults
       end.
Proof.
  induction vaults as [|vault rest IH]; intros completedVaults migrated st.
  - exists (Some migrated), st, []. cbn. rewrite !app_nil_r. repeat split.
  - cbn [migrateVaults]. unfold bind at 1. rewrite inServer_run.
    unfold readCancelled at 1 2. cbn [gets fst snd].
    destruct st as [[env fr] events]. cbn [fst snd].
    destruct (isMigrationCancelled remote (world env)) eqn:Hflag.
    + exists None. eexists. exists [].
      unfold bind. rewrite inServer_run. cbn. rewrite app_nil_r.
      split; [reflexivity|]. cbn. repeat split; [exact Hflag|lia].
    + unfold bind at 1. unfold write at 1, modify at 1. cbn [fst snd].
      unfold bind at 1.
      destruct (migrateOneVault_run vault completedVaults totalVaults
                  ((env, fr),
                   events ++ [Preparing completedVaults totalVaults (vaultRefId vault)
                                (vaultRefName vault)]))
        as (outcome & st1 & more & -> & Hstream & Hmore & Hid).
      cbn [fst snd] in Hstream.
      unfold bind at 1. unfold write at 1, modify at 1. cbn [fst snd].
      destruct (IH (S completedVaults) (migrated ++ [outcome])
                  (fst st1,
                   snd st1 ++ [VaultOutcome (S completedVaults) totalVaults outcome]))
        as (finished & st' & body & -> & Hbody & Hfinished).
      destruct (progress_reports_nothing more Hmore) as [Hnone Hgo].
      exists finished, st'.
      exists ([Preparing completedVaults totalVaults (vaultRefId vault)
                 (vaultRefName vault)]
                ++ more ++ [VaultOutcome (S completedVaults) totalVaults outcome] ++ body).
      split; [reflexivity|].
      split.
      { rewrite !forallb_app, Hgo, Hbody. reflexivity. }
      cbn [snd] in Hfinished. rewrite Hstream in Hfinished.
      rewrite !reportedOutcomes_app, Hnone. cbn [reportedOutcomes flat_map app].
      destruct finished as [outcomes|].
      * destruct Hfinished as (H1 & H2 & H3). split; [|split].
        -- rewrite H1, <- !app_assoc. reflexivity.
        -- rewrite H2, <- app_assoc. reflexivity.
        -- cbn [map]. fold (reportedOutcomes body). rewrite H3, Hid. reflexivity.
      * destruct Hfinished as (H1 & H2 & H3). split; [|split].
        -- rewrite H1, <- !app_assoc. cbn [app]. reflexivity.
        -- exact H2.
        -- cbn [length]. fold (reportedOutcomes body). lia.
Qed.

(** X20.  In a bulk run over vaults whose ids name no member of
    [Object.prototype], one vault that fails does not stop the others:
    the loop over the vaults never throws, and it ends in one of two
    ways.  Either it returns one outcome for each vault, in the order of
    the vaults, a failed vault included; or it stops before a vault, and
    then the cancellation flag is up when it stops. *)
Theorem every_vault_gets_an_outcome (totalVaults completedVaults : nat)
    (migrated : list Outcome) (vaults : list VaultRef) (st : Stream) :
  forallb (fun vault => negb (Js.namesInherited (vaultRefId vault))) vaults = true ->
  exists finished st',
    migrateVaults remote categories anywhereOnWebsite sourceToken destToken sourceSDK
      destSDK customTemplateId totalVaults completedVaults migrated vaults st
    = (Ok finished, st')
    /\ match finished with
       | Some outcomes =>
           map outcomeVaultId outcomes
           = map outcomeVaultId migrated ++ map vaultRefId vaults
       | None => isMigrationCancelled remote (world (fst (fst st'))) = true
       end.
Proof.
  intros _.
  destruct (migrateVaults_run totalVaults vaults completedVaults migrated st)
    as (finished & st' & body & Hrun & _ & Hfinished).
  exists finished, st'. split; [exact Hrun|].
  destruct finished as [outcomes|].
  - destruct Hfinished as (_ & -> & Hids). rewrite map_app, Hids. reflexivity.
  - exact (proj1 (proj2 Hfinished)).
Qed.

End StreamFacts.

Section RouteFacts.
Context {World Client : Type}.
Variable remote : Remote World Client.
Variable categories : ItemCategory.t.
Variable anywhereOnWebsite : string.

Local Abbreviation Run := (Env World * Frame)%type.
Local Abbreviation Stream := (Run * list SseEvent)%type.

Lemma no_failed_vault (outcomes : list Outcome) :
  (0 <? length (filter (fun o => negb (outcomeSuccess o)) outcomes))
  = negb (forallb outcomeSuccess outcomes).
Proof.
  induction outcomes as [|o rest IH]; [reflexivity|].
  cbn [filter forallb]. destruct (outcomeSuccess o); cbn; [exact IH | reflexivity].
Qed.

(** X21.  [GET /migration/migrate-all-vaults] never throws and always
    ends the stream: what it writes is a run of events that do not end
    the stream, followed by exactly one that does.  When that last event
    is the completion or the cancellation, the results it carries are the
    outcomes the stream reported vault by vault, in order; and the
    completion says [success: true] exactly when every one of them
    succeeded. *)
Theorem bulk_stream_ends_once (sourceToken destToken : string)
    (selectedVaults : option (list VaultRef)) (customTemplateId : option string)
    (st : Stream) :
  exists body last st',
    migrateAllVaultsRoute remote categories anywhereOnWebsite sourceToken destToken
      selectedVaults customTemplateId st = (Ok tt, st')
    /\ snd st' = snd st ++ body ++ [last]
    /\ forallb (fun e => negb (isTerminal e)) body = true
    /\ isTerminal last = true
    /\ match last with
       | Finished success _ results _ =>
           results = reportedOutcomes body
           /\ success = forallb outcomeSuccess results
       | CancelledByUser results => results = reportedOutcomes body
       | _ => True
       end.
Proof.
  unfold migrateAllVaultsRoute. destruct st as [[env fr] events].
  destruct (String.eqb sourceToken "" || String.eqb destToken "").
  { unfold bind. rewrite inServer_run. cbn.
    exists [], (FinishedWithError "Source token and destination token are required").
    eexists. split; [reflexivity|]. repeat split. }
  unfold bind at 1. rewrite inServer_run. cbn [modify fst snd].
  unfold bind at 1. rewrite inServer_run. cbn [logInfo logAt modify fst snd].
  assert (Hfail : forall (e : JsError) (st1 : Stream),
             snd st1 = events ->
             exists body last st',
               (inServer (World := World)
                  (logError None ("Bulk migration failed: " ++ message e)) ;;;
                write (FinishedWithError ("Failed to migrate vaults: " ++ message e)))
                 st1 = (Ok tt, st')
               /\ snd st' = events ++ body ++ [last]
               /\ forallb (fun e => negb (isTerminal e)) body = true
               /\ isTerminal last = true
               /\ match last with
                  | Finished success _ results _ =>
                      results = reportedOutcomes body
                      /\ success = forallb outcomeSuccess results
                  | CancelledByUser results => results = reportedOutcomes body
                  | _ => True
                  end).
  { intros e st1 Hst1. unfold bind. rewrite inServer_run. cbn. rewrite Hst1.
    exists [], (FinishedWithError ("Failed to migrate vaults: " ++ message e)).
    eexists. split; [reflexivity|]. repeat split. }
  unfold tryCatch. unfold bind at 1. rewrite inServer_run.
  destruct (newSDK remote sourceToken _) as [[sourceSDK|e] env1];
    cbn [fst snd]; [|apply Hfail; reflexivity].
  unfold bind at 1. rewrite inServer_run. cbn [fst snd].
  destruct (newSDK remote destToken env1) as [[destSDK|e] env2];
    cbn [fst snd]; [|apply Hfail; reflexivity].
  unfold bind at 1.
  assert (Hlist : exists (listed : Result (list VaultRef)) (env3 : Env World),
             match selectedVaults with
             | Some (v :: vs) => ret (v :: vs)
             | _ => inServer (listVaults remote sourceSDK)
             end ((env2, fr), events) = (listed, ((env3, fr), events))).
  { destruct selectedVaults as [[|v vs]|]; try rewrite inServer_run;
      eexists; eexists; reflexivity. }
  destruct Hlist as (listed & env3 & ->).
  destruct listed as [vaultsToMigrate|e]; [|apply Hfail; reflexivity].
  unfold bind at 1.
  destruct (migrateVaults_run remote categories anywhereOnWebsite sourceToken destToken
              sourceSDK destSDK customTemplateId (length vaultsToMigrate)
              vaultsToMigrate 0 [] ((env3, fr), events))
    as (finished & st1 & body & -> & Hbody & Hfinished).
  cbn [snd app] in Hfinished.
  destruct finished as [outcomes|].
  - destruct Hfinished as (Hstream & -> & _).
    unfold bind at 1. rewrite inServer_run. cbn [gets fst snd].
    rewrite no_failed_vault.
    destruct (forallb outcomeSuccess (reportedOutcomes body)) eqn:Hall; cbn [negb];
      unfold bind; rewrite inServer_run; cbn [logInfo logAt modify write fst snd];
      exists body; eexists; eexists;
      (split; [reflexivity|]); cbn [snd]; rewrite Hstream;
      (split; [rewrite <- app_assoc; reflexivity|]);
      (split; [exact Hbody|]); (split; [reflexivity|]);
      (split; [reflexivity | symmetry; exact Hall]).
  - destruct Hfinished as (Hstream & _ & _). cbn [ret].
    exists body, (CancelledByUser (reportedOutcomes body)), st1.
    split; [reflexivity|]. repeat split; assumption.
Qed.

End RouteFacts.

(** ** The selection of vaults on the vault page *)

Section SelectionFacts.
Import VaultManagerPage.

Lemma indexOf_none (x : string) (l : list string) :
  indexOf x l = None -> ~ In x l.
Proof.
  induction l as [|y rest IH]; [intros _ []|].
  cbn [indexOf]. destruct (String.eqb_spec y x) as [->|Hne]; [discriminate|].
  destruct (indexOf x rest); [discriminate|].
  intros _ [H|H]; [exact (Hne H) | exact (IH eq_refl H)].
Qed.

Lemma indexOf_some (x : string) (l : list string) :
  forall index, indexOf x l = Some index ->
  exists before after,
    l = before ++ x :: after /\ ~ In x before /\ splice1 index l = before ++ after.
Proof.
  induction l as [|y rest IH]; [discriminate|].
  cbn [indexOf]. intros index. destruct (String.eqb_spec y x) as [->|Hne].
  - intros [= <-]. exists [], rest. repeat split. intros [].
  - destruct (indexOf x rest) as [i|]; [|discriminate].
    intros [= <-]. destruct (IH i eq_refl) as (before & after & -> & Hout & Hsplice).
    exists (y :: before), after. cbn [splice1 app]. rewrite Hsplice.
    repeat split. intros [H|H]; [exact (Hne H) | exact (Hout H)].
Qed.

Lemma existsb_eqb_in (x : string) (l : list string) :
  existsb (String.eqb x) l = true <-> In x l.
Proof.
  rewrite existsb_exists. split.
  - intros (y & Hin & Heq). apply String.eqb_eq in Heq. subst y. exact Hin.
  - intros Hin. exists x. split; [exact Hin | apply String.eqb_refl].
Qed.

Lemma updateBulkActionButton_selection (p : Page) :
  selectedVaults (updateBulkActionButton p) = selectedVaults p.
Proof. unfold updateBulkActionButton. destruct (bulkActionBtn p); reflexivity. Qed.

(** X22.  On a selection that holds no vault twice, a click on a vault
    selects it if it was not selected and deselects it if it was, leaves
    every other vault as it was, and leaves the selection without
    duplicates.  After the click the bulk button, if the page has one, is
    hidden exactly when nothing is selected, and when shown its text
    counts the selected vaults. *)
Theorem a_click_toggles_one_vault (vaultId : string) (p : Page) :
  NoDup (selectedVaults p) ->
  let p' := toggleVaultSelection vaultId p in
  NoDup (selectedVaults p')
  /\ existsb (String.eqb vaultId) (selectedVaults p')
     = negb (existsb (String.eqb vaultId) (selectedVaults p))
  /\ (forall other,
        String.eqb other vaultId = false ->
        existsb (String.eqb other) (selectedVaults p')
        = existsb (String.eqb other) (selectedVaults p))
  /\ match bulkActionBtn p' with
     | Some bulkBtn =>
         hidden bulkBtn = (length (selectedVaults p') =? 0)
         /\ (hidden bulkBtn = false ->
             textContent bulkBtn
             = ("Grant Permissions (" ++ Js.showNat (length (selectedVaults p')) ++ ")")%string)
     | None => bulkActionBtn p = None
     end.
Proof.
  intros Hnodup p'. subst p'. unfold toggleVaultSelection.
  rewrite updateBulkActionButton_selection. cbn [selectedVaults].
  split; [|split; [|split]].
  - destruct (indexOf vaultId (selectedVaults p)) as [index|] eqn:Hindex.
    + destruct (indexOf_some _ _ _ Hindex) as (before & after & Hl & _ & ->).
      rewrite Hl in Hnodup. exact (NoDup_remove_1 _ _ _ Hnodup).
    + apply indexOf_none in Hindex.
      apply NoDup_app; [exact Hnodup | constructor; [intros []|constructor] |].
      intros x Hx [<-|[]]. exact (Hindex Hx).
  - destruct (indexOf vaultId (selectedVaults p)) as [index|] eqn:Hindex.
    + destruct (indexOf_some _ _ _ Hindex) as (before & after & Hl & _ & ->).
      rewrite Hl in Hnodup |- *. apply NoDup_remove_2 in Hnodup.
      rewrite (proj2 (existsb_eqb_in vaultId (before ++ vaultId :: after)))
        by (apply in_elt).
      cbn [negb]. destruct (existsb (String.eqb vaultId) (before ++ after)) eqn:Hin;
        [|reflexivity].
      exfalso. apply Hnodup, existsb_eqb_in, Hin.
    + apply indexOf_none in Hindex.
      rewrite existsb_app. cbn [existsb]. rewrite String.eqb_refl. cbn [orb]. rewrite orb_true_r.
      destruct (existsb (String.eqb vaultId) (selectedVaults p)) eqn:Hin; [|reflexivity].
      exfalso. apply Hindex, existsb_eqb_in, Hin.
  - intros other Hother.
    destruct (indexOf vaultId (selectedVaults p)) as [index|] eqn:Hindex.
    + destruct (indexOf_some _ _ _ Hindex) as (before & after & Hl & _ & ->).
      rewrite Hl, !existsb_app. cbn [existsb]. rewrite Hother. reflexivity.
    + rewrite existsb_app. cbn [existsb]. rewrite Hother, !orb_false_r. reflexivity.
  - unfold updateBulkActionButton. cbn [bulkActionBtn selectedVaults].
    destruct (bulkActionBtn p) as [bulkBtn|]; [|reflexivity].
    cbn [bulkActionBtn selectedVaults].
    match goal with |- context [length ?l] => destruct l as [|x rest] end;
      cbn; split; try reflexivity; discriminate.
Qed.

End SelectionFacts.

(** ** The properties at work *)

Section MoreWitnesses.
Import Scenario.


(** X10 at a page with every box unchecked: checking "move items" checks
    what it depends on, and the page stays consistent. *)
Lemma permissions_stay_consistent_witness :
  let dom' := snd (VaultManagerPage.togglePermission "perm-move-items"
                     VaultManagerPage.blankPage) in
  VaultManagerPage.closed dom'
  /\ dom' "perm-move-items" = Some true
  /\ dom' "perm-delete-items" = Some true.
Proof.
  intros dom'.
  destruct (permissions_stay_consistent "perm-move-items" VaultManagerPage.blankPage)
    as [Hclosed Hchecked].
  - intros permId depId _ Hon _. unfold VaultManagerPage.blankPage in Hon.
    destruct (existsb (String.eqb permId) VaultManagerPage.permissionIds);
      discriminate Hon.
  - destruct Hchecked as [Hself Hdeps].
    + reflexivity.
    + cbn. repeat first [left; reflexivity | right].
    + split; [exact Hclosed|]. split; [exact Hself|].
      apply Hdeps.
      * cbn. repeat first [left; reflexivity | right].
      * discriminate.
Defined.

(** X12 at a card whose full item has a card type field "mc": the field
    of the listed item is dropped, and the type is written out. *)
Lemma card_fields_come_from_the_full_item_witness :
  exists newItem env1,
    buildNewItem (Cases.remote [] false false (Some Cases.fullCard)) categories anywhere
      sdk "src" "dest" Cases.card (fst (start None)) = (Ok newItem, env1)
    /\ newCategory newItem = "CreditCard"
    /\ newFields newItem
       = Some (map Transcoder.creditCardField (fullFields Cases.fullCard)).
Proof.
  destruct (card_fields_come_from_the_full_item
              (Cases.remote [] false false (Some Cases.fullCard)) categories anywhere
              sdk "src" "dest" Cases.card (fst (start None)))
    as (newItem & env1 & Hrun & Hcategory & Hfields).
  - reflexivity.
  - exists newItem, env1. split; [exact Hrun|]. split; [exact Hcategory|].
    vm_compute in Hfields. vm_compute. exact Hfields.
Defined.

(** X13 at a secure note whose notes are two blanks. *)
Lemma secure_notes_have_notes_witness :
  exists newItem env1 notes,
    buildNewItem (remote [] true) categories anywhere sdk "src" "dest" Cases.blankNote
      (fst (start None)) = (Ok newItem, env1)
    /\ newNotes newItem = Some notes
    /\ String.eqb notes "" = false.
Proof.
  destruct (secure_notes_have_notes (remote [] true) categories anywhere sdk "src" "dest"
              Cases.blankNote (fst (start None)))
    as (newItem & env1 & notes & Hrun & Hnotes & Hfull & _).
  - reflexivity.
  - exists newItem, env1, notes. repeat split; assumption.
Defined.

(** X14 at the vault of five items, with a caller that never cancels. *)
Lemma every_item_gets_its_result_witness :
  exists result s',
    migrateVault (remote fiveItems true) categories anywhere "src" "Personal"
      "source-token" "dest-token" sdk sdk (ret false) None (start None)
    = (Ok result, s')
    /\ map resultId (vaultResults result) = ["1"; "2"; "3"; "4"; "5"]
    /\ vaultSuccessCount result + vaultFailureCount result = 5
    /\ status (logEntry (snd s')) = Completed.
Proof.
  destruct (every_item_gets_its_result (remote fiveItems true) categories anywhere "src"
              "Personal" "source-token" "dest-token" sdk sdk (ret false) None
              (start None)
              (snd (openVault (remote fiveItems true) "src" "Personal" "source-token"
                      "dest-token" sdk (snd (startVault "src" "Personal" (start None)))))
              5 "dest" fiveItems)
    as (result & s' & destCount & Hrun & Hids & Hsum & _ & _ & _ & Hstatus).
  - intros env. exists env. reflexivity.
  - vm_compute. reflexivity.
  - exists result, s'. repeat split; assumption.
Defined.

(** X15 at a destination that has no room for a vault. *)
Lemma vault_creation_failure_fails_the_vault_witness :
  let r := Cases.remote fiveItems true false None in
  let run := migrateVault r categories anywhere "src" "Personal" "source-token"
               "dest-token" sdk sdk (readCancelled r) None (start None) in
  fst run = Throw {| message := "Vault creation failed: vault limit reached" |}
  /\ created (world (fst (snd run))) = 0
  /\ status (logEntry (snd (snd run))) = Failed
  /\ migrationResults (snd (snd run)) = [].
Proof.
  intros r run.
  destruct (vault_creation_failure_fails_the_vault r categories anywhere "src" "Personal"
              "source-token" "dest-token" sdk sdk (readCancelled r) None (start None)
              {| message := "vault limit reached" |} (world (fst (start None))))
    as (Hthrow & Hworld & Hstatus & _ & _ & Hresults).
  - reflexivity.
  - vm_compute. reflexivity.
  - fold run in Hthrow, Hworld, Hstatus, Hresults.
    split; [exact Hthrow|]. split; [rewrite Hworld; reflexivity|].
    split; assumption.
Defined.

(** X16 at a source whose items cannot be listed. *)
Lemma listing_failure_fails_the_vault_witness :
  let r := Cases.remote fiveItems false true None in
  let run := migrateVault r categories anywhere "src" "Personal" "source-token"
               "dest-token" sdk sdk (readCancelled r) None (start None) in
  fst run
  = Throw {| message := "Item listing failed: Failed to list items for vault src: timeout" |}
  /\ status (logEntry (snd (snd run))) = Failed
  /\ entryNewVaultId (logEntry (snd (snd run))) = Some "dest"
  /\ migrationResults (snd (snd run)) = [].
Proof.
  intros r run.
  destruct (listing_failure_fails_the_vault r categories anywhere "src" "Personal"
              "source-token" "dest-token" sdk sdk (readCancelled r) None (start None)
              "dest" {| message := "Failed to list items for vault src: timeout" |} []
              (world (fst (start None))) (world (fst (start None))))
    as (Hthrow & _ & Hstatus & _ & Hvault & Hresults).
  - reflexivity.
  - vm_compute. reflexivity.
  - vm_compute. reflexivity.
  - fold run in Hthrow, Hstatus, Hvault, Hresults. repeat split; assumption.
Defined.

(** X19 at a command line tool that refuses the item, and a temporary
    file that cannot be removed: the bridge throws the refusal, with one
    error and one warning in the log. *)
Lemma temp_file_is_always_removed_witness :
  let run := createCustomItemViaCLI (Cases.bridgeRemote true true) custom "source-token"
               "dest-token" "src" "dest" "src" (Some "tmpl-1") (fst (start None)) in
  fst run = Throw {| message := "item create failed" |}
  /\ warningCount (logger (snd run)) = 1
  /\ errorCount (logger (snd run)) = 1.
Proof.
  intros run.
  destruct (temp_file_is_always_removed (Cases.bridgeRemote true true) custom
              "source-token" "dest-token" "src" "dest" "src" "tmpl-1" (fst (start None))
              raw [] (world (fst (start None))) (world (fst (start None)))
              (world (fst (start None))) (world (fst (start None)))
              (Throw {| message := "item create failed" |})
              (Throw {| message := "EACCES: permission denied" |}))
    as (Hthrow & _ & Hwarnings & Herrors).
  - reflexivity.
  - reflexivity.
  - reflexivity.
  - reflexivity.
  - reflexivity.
  - reflexivity.
  - reflexivity.
  - fold run in Hthrow, Hwarnings, Herrors. repeat split; assumption.
Defined.

(** X18 at the vault of five items: the route answers 200, with
    statistics; and without a vault name it answers 400. *)
Lemma single_vault_route_always_answers_witness :
  (exists response s',
     route = (Ok response, s')
     /\ httpStatus response = 200
     /\ httpStats response = Some fiveOfFive)
  /\ (exists response s',
        migrateVaultRoute (remote fiveItems true) categories anywhere "src" ""
          "source-token" "dest-token" None (start None) = (Ok response, s')
        /\ httpStatus response = 400
        /\ snd s' = snd (start None)).
Proof.
  split.
  - destruct (single_vault_route_always_answers (remote fiveItems true) categories
                anywhere "src" "Personal" "source-token" "dest-token" None (start None))
      as (response & s' & Hroute & _ & Hstats).
    + reflexivity.
    + exists response, s'. split; [exact Hroute|].
      assert (Hanswer : response = answer).
      { unfold route in *. vm_compute in Hroute. injection Hroute as <- _.
        vm_compute. reflexivity. }
      subst response. split; reflexivity.
  - destruct (single_vault_route_always_answers (remote fiveItems true) categories
                anywhere "src" "" "source-token" "dest-token" None (start None))
      as (response & s' & Hroute & Hmissing & _).
    + reflexivity.
    + exists response, s'. split; [exact Hroute|].
      cbn in Hmissing. destruct Hmissing as (Hstatus & _ & Hframe).
      split; assumption.
Defined.

(** X20 at two vaults, neither of which can be created in the
    destination: both get their outcome, in order. *)
Lemma every_vault_gets_an_outcome_witness :
  let vaults := [vault; {| vaultRefId := "v2"; vaultRefName := "Work" |}] in
  exists finished st',
    migrateVaults (Cases.remote fiveItems true false None) categories anywhere
      "source-token" "dest-token" sdk sdk None 2 0 [] vaults Cases.startStream
    = (Ok finished, st')
    /\ match finished with
       | Some outcomes => map outcomeVaultId outcomes = ["src"; "v2"]
       | None => False
       end.
Proof.
  intros vaults.
  destruct (every_vault_gets_an_outcome (Cases.remote fiveItems true false None)
              categories anywhere "source-token" "dest-token" sdk sdk None 2 0 []
              vaults Cases.startStream)
    as (finished & st' & Hrun & Hfinished).
  - reflexivity.
  - exists finished, st'. split; [exact Hrun|].
    destruct finished as [outcomes|]; [exact Hfinished|].
    vm_compute in Hrun. discriminate Hrun.
Defined.

(** X23 at the vault "src" of a world where no vault can be listed: the
    count is 0. *)
Lemma item_count_never_raises_for_other_ids_witness :
  fst (AnyVaultId.getVaultItemCount (Cases.unlisted 0) "src" "token" (fst (start None)))
  = Ok 0.
Proof.
  destruct (item_count_never_raises_for_other_ids (Cases.unlisted 0) "src" "token"
              (fst (start None)))
    as (_ & _ & Hfails & _).
  - reflexivity.
  - eapply Hfails; reflexivity.
Defined.

(** X22 at a page with two vaults selected: a click on the first
    deselects it. *)
Lemma a_click_toggles_one_vault_witness :
  let p' := VaultManagerPage.toggleVaultSelection "v1" VaultManagerPage.twoSelected in
  NoDup (VaultManagerPage.selectedVaults p')
  /\ existsb (String.eqb "v1") (VaultManagerPage.selectedVaults p') = false
  /\ existsb (String.eqb "v2") (VaultManagerPage.selectedVaults p') = true.
Proof.
  intros p'.
  destruct (a_click_toggles_one_vault "v1" VaultManagerPage.twoSelected)
    as (Hnodup & Hclicked & Hothers & _).
  - repeat constructor; cbn; intuition discriminate.
  - fold p' in Hnodup, Hclicked, Hothers.
    split; [exact Hnodup|]. split; [exact Hclicked|].
    rewrite (Hothers "v2"); reflexivity.
Defined.

End MoreWitnesses.
